(** * The build pipeline orchestrator of rollup ([src/rollup/index.ts])

    A shallow embedding of [rollup], the per-build [generate] and [write]
    closures, [getInputOptions], [normalizeOutputOptions], [createOutput]
    and [writeOutputFile].

    - JavaScript values are the inductive type [JSValue]; an object is the
      list of its own enumerable properties in the order of their creation,
      and [Object_keys] gives the order in which they are enumerated.
    - The collaborators the file imports (Graph, the plugin driver, chunks,
      [mergeOptions], the path and file-system helpers) are the fields of a
      record [Collab]; each call may change the collaborators' world and
      may throw.
    - A function that can throw is a state-and-exception computation
      [M S A]: the state survives a throw, as a mutated object does.
    - A promise is the computation that settles it: [Ok] is fulfilment and
      [Err] rejection.  A call that throws before it returns a promise is
      [Throws]; a call that returns a promise is [Returns].
    - The calls of the timers module are instrumentation and are left out. *)

From stdpp Require Import base list strings gmap pretty sorting.

Set Default Proof Using "Type".
Open Scope string_scope.

(** ** JavaScript values *)

#[warnings="-register-all"]
Inductive JSValue : Type :=
| JUndefined
| JNull
| JBool (b : bool)
| JNum (z : Z)
| JStr (s : string)
| JArr (elems : list JSValue)
| JObj (props : list (string * JSValue))
| JFun (ref : nat).

Definition JSObject : Type := list (string * JSValue).

(** [!v], negated: the truthiness of a value. *)
Definition truthy (v : JSValue) : bool :=
  match v with
  | JUndefined | JNull => false
  | JBool b => b
  | JNum z => negb (Z.eqb z 0)
  | JStr s => negb (String.eqb s "")
  | JArr _ | JObj _ | JFun _ => true
  end.

(** [typeof v === 'string'] *)
Definition is_string (v : JSValue) : bool :=
  match v with JStr _ => true | _ => false end.

(** [typeof v === 'object'] *)
Definition typeof_object (v : JSValue) : bool :=
  match v with JNull | JArr _ | JObj _ => true | _ => false end.

(** [v instanceof Array] *)
Definition is_array (v : JSValue) : bool :=
  match v with JArr _ => true | _ => false end.

(** [v.length] of an array. *)
Definition array_length (v : JSValue) : nat :=
  match v with JArr l => length l | _ => 0 end.

(** [v === 'lit'] for a string literal. *)
Definition str_eq (v : JSValue) (lit : string) : bool :=
  match v with JStr s => String.eqb s lit | _ => false end.

(** [v === true] *)
Definition is_true (v : JSValue) : bool :=
  match v with JBool true => true | _ => false end.

(** [v === false] *)
Definition is_false (v : JSValue) : bool :=
  match v with JBool false => true | _ => false end.

(** [a || b] *)
Definition or_else (a b : JSValue) : JSValue := if truthy a then a else b.

(** Objects keyed by strings, as the list of their properties in the order
    of their creation.  The order of enumeration is that of [Object_keys]
    below. *)
Fixpoint obj_lookup {V} (k : string) (o : list (string * V)) : option V :=
  match o with
  | [] => None
  | (k', v) :: o' => if String.eqb k k' then Some v else obj_lookup k o'
  end.

(** [o[k] = v]: an existing property keeps its place, a new one is added
    last. *)
Fixpoint obj_set {V} (k : string) (v : V) (o : list (string * V))
  : list (string * V) :=
  match o with
  | [] => [(k, v)]
  | (k', v') :: o' =>
      if String.eqb k k' then (k, v) :: o' else (k', v') :: obj_set k v o'
  end.

(** [delete o[k]] *)
Fixpoint obj_delete {V} (k : string) (o : list (string * V))
  : list (string * V) :=
  match o with
  | [] => []
  | (k', v') :: o' =>
      if String.eqb k k' then obj_delete k o' else (k', v') :: obj_delete k o'
  end.

(** [o] with the value of its property [k] forgotten. *)
Fixpoint blank (k : string) (o : list (string * JSValue)) : JSObject :=
  match o with
  | [] => []
  | (k', v) :: o' =>
      if String.eqb k k' then (k', JUndefined) :: o' else (k', v) :: blank k o'
  end.

Definition has_key {V} (k : string) (o : list (string * V)) : bool :=
  match obj_lookup k o with Some _ => true | None => false end.

(** [v.k], which is [undefined] on what has no such property. *)
Definition prop (k : string) (v : JSValue) : JSValue :=
  match v with
  | JObj o => default JUndefined (obj_lookup k o)
  | _ => JUndefined
  end.

(** [v.k = x] on an object; on a primitive the assignment is lost. *)
Definition set_prop (k : string) (x : JSValue) (v : JSValue) : JSValue :=
  match v with
  | JObj o => JObj (obj_set k x o)
  | _ => v
  end.

Definition delete_prop (k : string) (v : JSValue) : JSValue :=
  match v with
  | JObj o => JObj (obj_delete k o)
  | _ => v
  end.

Fixpoint chars (s : string) : list JSValue :=
  match s with
  | EmptyString => []
  | String c s' => JStr (String c EmptyString) :: chars s'
  end.

(** The own enumerable properties a spread [...v] copies: those of an
    object, the indices of an array or of a string, none otherwise. *)
Definition own_entries (v : JSValue) : JSObject :=
  match v with
  | JObj o => o
  | JArr l => imap (fun i x => (pretty i, x)) l
  | JStr s => imap (fun i x => (pretty i, x)) (chars s)
  | _ => []
  end.

(** Copying one property into [o]. *)
Definition set_entry (o : JSObject) (kv : string * JSValue) : JSObject :=
  obj_set (fst kv) (snd kv) o.

(** [{ ...target, ...src }], given the properties copied so far. *)
Definition spread (target : JSObject) (src : JSValue) : JSObject :=
  fold_left set_entry (own_entries src) target.

(** The value of a decimal digit. *)
Definition digit_of (a : Ascii.ascii) : option N :=
  let n := Ascii.N_of_ascii a in
  if (48 <=? n)%N && (n <=? 57)%N then Some (n - 48)%N else None.

(** The number a string of decimal digits denotes, after [acc]. *)
Fixpoint numeral (s : string) (acc : N) : option N :=
  match s with
  | EmptyString => Some acc
  | String a s' =>
      match digit_of a with
      | Some d => numeral s' (10 * acc + d)%N
      | None => None
      end
  end.

(** A key that is an array index: the decimal numeral, without a leading
    zero, of an integer below [2^32 - 1]. *)
Definition array_index (k : string) : option N :=
  match k with
  | EmptyString => None
  | String a rest =>
      if (Ascii.N_of_ascii a =? 48)%N && negb (String.eqb rest "") then None
      else match numeral k 0 with
           | Some n => if (n <? 4294967295)%N then Some n else None
           | None => None
           end
  end.

Definition is_array_index (k : string) : bool :=
  match array_index k with Some _ => true | None => false end.

(** The array indices among the keys, with their numbers. *)
Definition index_keys (ks : list string) : list (N * string) :=
  omap (fun k => match array_index k with
                 | Some n => Some (n, k)
                 | None => None
                 end) ks.

(** Ascending order of the numbers. *)
Fixpoint insert_index (x : N * string) (l : list (N * string))
  : list (N * string) :=
  match l with
  | [] => [x]
  | y :: l' => if (fst x <=? fst y)%N then x :: y :: l'
               else y :: insert_index x l'
  end.

(** [Object.keys(o)]: the keys that are array indices in ascending numeric
    order, then the other keys in the order of their creation. *)
Definition Object_keys {V} (o : list (string * V)) : list string :=
  map snd (foldr insert_index [] (index_keys (map fst o)))
  ++ List.filter (fun k => negb (is_array_index k)) (map fst o).

(** ** Errors and outcomes *)

(** [RollupError] is what [error(props)] of utils/error throws,
    [PlainError] a [new Error(message)], [TypeError] the engine's own and
    [Foreign] an error object a collaborator threw, known by reference. *)
Inductive JSError : Type :=
| RollupError (code : option string) (message : string) (url : option string)
| PlainError (message : string)
| TypeError (message : string)
| Foreign (ref : nat).

Definition error_code (e : JSError) : option string :=
  match e with RollupError c _ _ => c | _ => None end.

Definition error_message (e : JSError) : option string :=
  match e with
  | RollupError _ m _ | PlainError m | TypeError m => Some m
  | Foreign _ => None
  end.

Inductive Res (A : Type) : Type :=
| Ok (a : A)
| Err (e : JSError).
Arguments Ok {A} a.
Arguments Err {A} e.

(** The two ways a promise-returning function can end. *)
Inductive Call (A : Type) : Type :=
| Throws (e : JSError)
| Returns (settled : Res A).
Arguments Throws {A} e.
Arguments Returns {A} settled.

(** ** Computations over a mutable state *)

Definition M (S A : Type) : Type := S -> Res A * S.

Definition ret {S A} (a : A) : M S A := fun s => (Ok a, s).

Definition throw {S A} (e : JSError) : M S A := fun s => (Err e, s).

Definition bind {S A B} (m : M S A) (k : A -> M S B) : M S B :=
  fun s => match m s with
           | (Ok a, s') => k a s'
           | (Err e, s') => (Err e, s')
           end.

Declare Scope js_scope.
Delimit Scope js_scope with js.
Notation "x <- m ;; k" := (bind m (fun x => k))
  (at level 100, m at next level, right associativity) : js_scope.
Notation "m ;;; k" := (bind m (fun _ => k))
  (at level 100, right associativity) : js_scope.
Open Scope js_scope.

(** [p.then(onFulfilled, onRejected)]: the second handler does not see what
    the first one throws. *)
Definition then2 {S A B} (p : M S A) (f : A -> M S B) (g : JSError -> M S B)
  : M S B :=
  fun s => match p s with
           | (Ok a, s') => f a s'
           | (Err e, s') => g e s'
           end.

(** [p.catch(onRejected)] *)
Definition catch {S A} (p : M S A) (g : JSError -> M S A) : M S A :=
  then2 p ret g.

Definition get {S} : M S S := fun s => (Ok s, s).
Definition modify {S} (f : S -> S) : M S unit := fun s => (Ok tt, f s).

(** [when b m]: [if (b) m]. *)
Definition when {S} (b : bool) (m : M S unit) : M S unit :=
  if b then m else ret tt.

(** [error(props)] of utils/error. *)
Definition error {S A} (code : option string) (message : string)
  (url : option string) : M S A :=
  throw (RollupError code message url).

(** ** The data model *)

Record SourceMap := mkSourceMap {
  map_toUrl : string;     (* [map.toUrl()] *)
  map_toString : string   (* [map.toString()] *)
}.

(** A rendered chunk entry of the bundle; [code] and [map] are [None] as
    long as they are unset. *)
Record OutputChunk := mkOutputChunk {
  oc_fileName : string;
  oc_isEntry : bool;
  oc_imports : list string;
  oc_exports : list string;
  oc_modules : JSValue;
  oc_code : option string;
  oc_map : option SourceMap
}.

(** An asset entry, the one with [isAsset: true]. *)
Record OutputAsset := mkOutputAsset {
  oa_fileName : string;
  oa_source : string
}.

Inductive OutputFile : Type :=
| FileChunk (c : OutputChunk)
| FileAsset (a : OutputAsset).

Definition OutputBundle : Type := list (string * OutputFile).

Definition file_fileName (f : OutputFile) : string :=
  match f with
  | FileChunk c => oc_fileName c
  | FileAsset a => oa_fileName a
  end.

(** [(<OutputAsset>file).isAsset] *)
Definition isAsset (f : OutputFile) : bool :=
  match f with FileAsset _ => true | FileChunk _ => false end.

(** [(<OutputChunk>file).isEntry], [undefined] on an asset. *)
Definition isEntry (f : OutputFile) : bool :=
  match f with FileChunk c => oc_isEntry c | FileAsset _ => false end.

Record Asset := mkAsset {
  asset_name : string;
  asset_source : option string;
  asset_fileName : option string
}.

(** What [chunk.render] resolves to. *)
Record Rendered := mkRendered {
  rendered_code : string;
  rendered_map : option SourceMap
}.

(** The arguments the core hands to a hook. *)
Inductive HookArgs : Type :=
| NoArgs
| ArgError (e : JSError)
| ArgOnGenerate (outputOptions : JSValue) (outputChunk : OutputChunk)
| ArgGenerateBundle (outputOptions : JSValue) (bundle : OutputBundle)
    (isWrite : bool)
| ArgOnWrite (outputOptions : JSValue) (outputFile : OutputFile).

(** What the core did to its collaborators, oldest first. *)
Inductive Event : Type :=
| EvWarn (code message : string)
| EvHookParallel (hook : string) (args : HookArgs)
| EvHookSeq (hook : string) (args : HookArgs)
| EvGraphBuild
| EvOptimizeChunks (returned : bool)
| EvGenerateId (chunk : nat) (pattern : JSValue) (patternName : string)
    (usedIds : gset string)
| EvWriteFile (path content : string).

Inductive DeprecateConfig : Type := DeprecateInput | DeprecateOutput.

(** What [mergeOptions] returns. *)
Record MergeResult := mkMergeResult {
  inputOptions : JSValue;
  outputOptions : list JSValue;
  optionError : option string
}.

(** The handle [rollup] resolves to.  [generate] and [write] are the
    functions [handle_generate] and [handle_write] below, which take the
    variables their closures capture: [build_inputOptions] here, the chunk
    list and the [optimized] flag in the state. *)
Record RollupBuild := mkRollupBuild {
  cache : JSValue;
  watchFiles : list string;
  getTimings : bool;
  build_inputOptions : JSValue
}.

Section Orchestrator.

(** [W] is the world of the collaborators (the graph, the plugins, the file
    system), [CI] what a chunk holds beyond what the core reads. *)
Context {W CI : Type}.

Record Chunk := mkChunk {
  id : string;
  isEntryModuleFacade : bool;
  entryModule : option string;   (* [chunk.entryModule.id] *)
  exportMode : JSValue;
  renderedModules : JSValue;
  internals : CI
}.

Definition set_id (x : string) (c : Chunk) : Chunk :=
  mkChunk x (isEntryModuleFacade c) (entryModule c) (exportMode c)
    (renderedModules c) (internals c).

Definition set_exportMode (x : JSValue) (c : Chunk) : Chunk :=
  mkChunk (id c) (isEntryModuleFacade c) (entryModule c) x
    (renderedModules c) (internals c).

(** The state: the collaborators' world, the record of what was done to
    them, the module variable [curWatcher], and the two variables the
    closures of one build share, [chunks] and [optimized]. *)
Record State := mkState {
  world : W;
  log : list Event;
  curWatcher : option nat;
  chunks : list Chunk;
  optimized : bool
}.

Definition set_world (w : W) (s : State) : State :=
  mkState w (log s) (curWatcher s) (chunks s) (optimized s).
Definition add_log (e : Event) (s : State) : State :=
  mkState (world s) (log s ++ [e]) (curWatcher s) (chunks s) (optimized s).
Definition set_curWatcher (x : option nat) (s : State) : State :=
  mkState (world s) (log s) x (chunks s) (optimized s).
Definition set_chunks (x : list Chunk) (s : State) : State :=
  mkState (world s) (log s) (curWatcher s) x (optimized s).
Definition set_optimized (x : bool) (s : State) : State :=
  mkState (world s) (log s) (curWatcher s) (chunks s) x.

(** A collaborator's method: it may change the world and may throw. *)
Definition Eff (A : Type) : Type := W -> Res A * W.

(** The collaborators, one field per function or method the file calls. *)
Record Collab := mkCollab {
  (* utils/mergeOptions *)
  c_mergeOptions : JSValue -> DeprecateConfig -> MergeResult;
  (* [inputOptions.onwarn(warning)] *)
  c_onwarn : JSValue -> string -> string -> Eff unit;
  (* [plugin.options(inputOptions)]: what the hook returns, and whether
     that is the very object the caller handed to [rollup] *)
  c_pluginOptions : JSValue -> JSValue -> Eff (JSValue * bool);
  (* [new Graph(inputOptions, curWatcher)] *)
  c_newGraph : JSValue -> option nat -> Eff unit;
  (* [graph.pluginDriver.hookParallel(hook, args)] *)
  c_hookParallel : string -> HookArgs -> Eff unit;
  (* [graph.pluginDriver.hookSeq('onwrite', args)] *)
  c_hookSeq : string -> HookArgs -> Eff unit;
  (* [graph.pluginDriver.hookSeq('generateBundle', ...)] with the asset
     hooks of [createAssetPluginHooks(assets, outputBundle, assetFileNames)];
     the hooks may change the bundle and the assets of the call *)
  c_generateBundle : JSValue -> OutputBundle -> bool -> list Asset -> JSValue ->
                     Eff (OutputBundle * list Asset);
  (* [graph.build(input, manualChunks, inlineDynamicImports, preserveModules)] *)
  c_build : JSValue -> JSValue -> JSValue -> JSValue -> Eff (list Chunk);
  c_getCache : Eff JSValue;
  (* [Object.keys(graph.watchFiles)] *)
  c_watchFiles : W -> list string;
  (* [graph.assetsById] *)
  c_assetsById : W -> list Asset;
  c_finaliseAssets : JSValue -> Eff OutputBundle;
  (* [finaliseAsset(asset, outputBundle, assetFileNames)] of utils/assetHooks *)
  c_finaliseAsset : Asset -> OutputBundle -> JSValue -> Eff OutputBundle;
  c_createAddons : JSValue -> Eff JSValue;
  c_getExportMode : Chunk -> JSValue -> Eff JSValue;
  c_optimizeChunks : list Chunk -> JSValue -> JSValue -> string ->
                     Eff (list Chunk);
  (* methods of a chunk; each returns the chunk as it leaves it *)
  c_generateInternalExports : JSValue -> Chunk -> Eff Chunk;
  c_preRender : JSValue -> string -> Chunk -> Eff Chunk;
  c_generateIdPreserveModules : string -> Chunk -> Eff Chunk;
  c_generateId : JSValue -> string -> JSValue -> JSValue -> gset string ->
                 Chunk -> Eff Chunk;
  c_getImportIds : Chunk -> Eff (list string);
  c_getExportNames : Chunk -> Eff (list string);
  c_render : JSValue -> JSValue -> OutputChunk -> Chunk -> Eff Rendered;
  (* utils/commondir, utils/path, utils/fs *)
  c_commondir : list string -> string;
  c_basename : JSValue -> Res string;
  c_dirname : JSValue -> Res string;
  c_resolve : JSValue -> string -> Res string;
  c_writeFile : string -> string -> Eff unit
}.

Context (C : Collab).

(** Calling a collaborator. *)
Definition call {A} (f : Eff A) : M State A :=
  fun s => let (r, w) := f (world s) in (r, set_world w s).

Definition liftRes {A} (r : Res A) : M State A := fun s => (r, s).

Definition emit (e : Event) : M State unit := modify (add_log e).

Definition hookParallel (hook : string) (args : HookArgs) : M State unit :=
  emit (EvHookParallel hook args) ;;; call (c_hookParallel C hook args).

Definition hookSeq (hook : string) (args : HookArgs) : M State unit :=
  emit (EvHookSeq hook args) ;;; call (c_hookSeq C hook args).

(** ** Promise-returning functions *)

(** A function whose body runs [sync] and then returns the promise
    [chain]: what [sync] throws is thrown at the call. *)
Definition promise {A B} (sync : M State A) (chain : A -> M State B)
  : State -> Call B * State :=
  fun s => match sync s with
           | (Err e, s') => (Throws e, s')
           | (Ok a, s') => let (r, s'') := chain a s' in (Returns r, s'')
           end.

(** [try { sync; return chain } catch (err) { return Promise.reject(err) }] *)
Definition try_promise {A B} (sync : M State A) (chain : A -> M State B)
  : State -> Call B * State :=
  fun s => match sync s with
           | (Err e, s') => (Returns (Err e), s')
           | (Ok a, s') => let (r, s'') := chain a s' in (Returns r, s'')
           end.

(** [f(...).then(k)] for a call [f(...)] of a promise-returning function. *)
Definition call_then {A B} (f : State -> Call A * State) (k : A -> M State B)
  : State -> Call B * State :=
  fun s => match f s with
           | (Throws e, s') => (Throws e, s')
           | (Returns (Err e), s') => (Returns (Err e), s')
           | (Returns (Ok a), s') => let (r, s'') := k a s' in (Returns r, s'')
           end.

(** ** [checkOutputOptions] *)

Definition checkOutputOptions {S} (options : JSValue) : M S unit :=
  when (str_eq (prop "format" options) "es6")
    (error None "The `es6` output format is deprecated – use `esm` instead"
       (Some "https://rollupjs.org/guide/en#output-format-f-format")) ;;;
  when (negb (truthy (prop "format" options)))
    (error None
       "You must specify output.format, which can be one of 'amd', 'cjs', 'system', 'esm', 'iife' or 'umd'"
       (Some "https://rollupjs.org/guide/en#output-format-f-format")).

(** ** [getInputOptions] *)

(** The input options are an object that the hooks may replace.  The
    model has the value of the object and, as the flag beside it, whether
    the object is the one the caller handed to [rollup]: the object that
    [mergeOptions] makes is not, an object that a hook returns may be. *)
Definition applyOptionHook (inputOptions : JSValue * bool) (plugin : JSValue)
  : M State (JSValue * bool) :=
  if truthy (prop "options" plugin)
  then r <- call (c_pluginOptions C plugin (fst inputOptions)) ;;
       ret (if truthy (fst r) then r else inputOptions)
  else ret inputOptions.

(** [plugins.reduce(applyOptionHook, inputOptions)] *)
Fixpoint reduce_plugins (plugins : list JSValue) (acc : JSValue * bool)
  : M State (JSValue * bool) :=
  match plugins with
  | [] => ret acc
  | p :: rest => acc' <- applyOptionHook acc p ;; reduce_plugins rest acc'
  end.

(** [Array.isArray(plugins) ? plugins.filter(Boolean) : plugins ? [plugins] : []] *)
Definition normalizePlugins (plugins : JSValue) : list JSValue :=
  match plugins with
  | JArr l => List.filter truthy l
  | _ => if truthy plugins then [plugins] else []
  end.

(** [Object.keys(v)], which throws on [null] and [undefined]. *)
Definition Object_keys_of {S} (v : JSValue) : M S (list string) :=
  match v with
  | JNull | JUndefined =>
      throw (TypeError "Cannot convert undefined or null to object")
  | _ => ret (Object_keys (own_entries v))
  end.

(** The character the messages put around an option's name. *)
Definition quote : string :=
  String (Ascii.Ascii false true false false false true false false)
    EmptyString.

Definition invalid_option {S A} (message : string) : M S A :=
  error (Some "INVALID_OPTION") message None.

(** [(input instanceof Array && input.length > 1) ||
     (typeof input === 'object' && Object.keys(input).length > 1)] *)
Definition multipleInputs {S} (input : JSValue) : M S bool :=
  if is_array input && Nat.ltb 1 (array_length input)
  then ret true
  else if typeof_object input
       then ks <- Object_keys_of input ;; ret (Nat.ltb 1 (length ks))
       else ret false.

(** The checks of [getInputOptions] on the options the plugins left. *)
Definition checkInputOptions {S} (inputOptions : JSValue) : M S unit :=
  when (truthy (prop "inlineDynamicImports" inputOptions))
    (when (truthy (prop "manualChunks" inputOptions))
       (invalid_option
          (quote ++ "manualChunks" ++ quote
           ++ " option is not supported for inlineDynamicImports.")) ;;;
     when (truthy (prop "optimizeChunks" inputOptions))
       (invalid_option
          (quote ++ "optimizeChunks" ++ quote
           ++ " option is not supported for inlineDynamicImports.")) ;;;
     multi <- multipleInputs (prop "input" inputOptions) ;;
     when multi
       (invalid_option
          "Multiple inputs are not supported for inlineDynamicImports.")) ;;;
  when (truthy (prop "preserveModules" inputOptions))
    (when (truthy (prop "inlineDynamicImports" inputOptions))
       (invalid_option
          "preserveModules does not support the inlineDynamicImports option.") ;;;
     when (truthy (prop "manualChunks" inputOptions))
       (invalid_option
          "preserveModules does not support the manualChunks option.") ;;;
     when (truthy (prop "optimizeChunks" inputOptions))
       (invalid_option
          "preserveModules does not support the optimizeChunks option.")).

(** [getInputOptions] up to the options the plugins leave. *)
Definition mergeInputOptions (rawInputOptions : JSValue)
  : M State (JSValue * bool) :=
  when (negb (truthy rawInputOptions))
    (throw (PlainError "You must supply an options object to rollup")) ;;;
  let merged := c_mergeOptions C rawInputOptions DeprecateInput in
  let inputOptions0 := inputOptions merged in
  match optionError merged with
  | Some msg =>
      when (truthy (JStr msg))
        (emit (EvWarn "UNKNOWN_OPTION" msg) ;;;
         call (c_onwarn C (prop "onwarn" inputOptions0) "UNKNOWN_OPTION" msg))
  | None => ret tt
  end ;;;
  let plugins := normalizePlugins (prop "plugins" inputOptions0) in
  let inputOptions1 := set_prop "plugins" (JArr plugins) inputOptions0 in
  reduce_plugins plugins (inputOptions1, false).

Definition getInputOptions (rawInputOptions : JSValue)
  : M State (JSValue * bool) :=
  inputOptions <- mergeInputOptions rawInputOptions ;;
  checkInputOptions (fst inputOptions) ;;;
  ret inputOptions.

(** ** [normalizeOutputOptions] *)

(** [{ output: { ...rawOutputOptions, ...rawOutputOptions.output,
                 ...inputOptions.output } }] *)
Definition consolidatedOutput (inputOptions rawOutputOptions : JSValue)
  : JSObject :=
  spread (spread (spread [] rawOutputOptions) (prop "output" rawOutputOptions))
    (prop "output" inputOptions).

Definition consolidatedOutputOptions (inputOptions rawOutputOptions : JSValue)
  : JSValue :=
  JObj [("output", JObj (consolidatedOutput inputOptions rawOutputOptions))].

(** [mergedOptions.outputOptions[0]] *)
Definition first_output (l : list JSValue) : JSValue :=
  default JUndefined (l !! 0).

Definition normalizeOutputOptions {S} (inputOptions rawOutputOptions : JSValue)
  (hasMultipleChunks : bool) : M S JSValue :=
  when (negb (truthy rawOutputOptions))
    (throw (PlainError "You must supply an options object")) ;;;
  let mergedOptions :=
    c_mergeOptions C
      (consolidatedOutputOptions inputOptions rawOutputOptions)
      DeprecateOutput in
  match optionError mergedOptions with
  | Some msg => when (truthy (JStr msg)) (throw (PlainError msg))
  | None => ret tt
  end ;;;
  let outputOptions := first_output (outputOptions mergedOptions) in
  checkOutputOptions outputOptions ;;;
  when (is_string (prop "file" outputOptions))
    (when (is_string (prop "dir" outputOptions))
       (invalid_option
          "You must set either output.file for a single-file build or output.dir when generating multiple chunks.") ;;;
     when (truthy (prop "preserveModules" inputOptions))
       (invalid_option
          "You must set output.dir instead of output.file when using the preserveModules option.") ;;;
     when (typeof_object (prop "input" inputOptions)
           && negb (is_array (prop "input" inputOptions)))
       (invalid_option
          "You must set output.dir instead of output.file when providing named inputs.")) ;;;
  when hasMultipleChunks
    (when (str_eq (prop "format" outputOptions) "umd"
           || str_eq (prop "format" outputOptions) "iife")
       (invalid_option
          "UMD and IIFE output formats are not supported for code-splitting builds.") ;;;
     when (is_string (prop "file" outputOptions))
       (invalid_option
          "You must set output.dir instead of output.file when generating multiple chunks.")) ;;;
  ret outputOptions.

(** ** Loops over the chunks of the build *)

(** [chunks[i]] handed to [k]; nothing happens past the end. *)
Definition withChunk {A} (i : nat) (d : A) (k : Chunk -> M State A)
  : M State A :=
  s <- get ;;
  match chunks s !! i with
  | Some c => k c
  | None => ret d
  end.

Definition set_chunk (i : nat) (c : Chunk) (s : State) : State :=
  set_chunks (<[i := c]> (chunks s)) s.

(** A method of [chunks[i]] that changes the chunk in place. *)
Definition mutChunk (i : nat) (f : Chunk -> Eff Chunk) : M State unit :=
  withChunk i tt (fun c => c' <- call (f c) ;; modify (set_chunk i c')).

(** [for (let i = from; i < from + n; i++) body(i)] *)
Fixpoint forRange (n from : nat) (body : nat -> M State unit)
  : M State unit :=
  match n with
  | 0 => ret tt
  | S n' => body from ;;; forRange n' (S from) body
  end.

(** [for (const chunk of chunks) body] and
    [for (let i = 0; i < chunks.length; i++) body]; no body changes the
    length of the array. *)
Definition forEachChunk (body : nat -> M State unit) : M State unit :=
  s <- get ;; forRange (length (chunks s)) 0 body.

(** The same loop with a local variable [acc] that the body updates. *)
Fixpoint foldRange {A} (n from : nat) (body : nat -> A -> M State A) (acc : A)
  : M State A :=
  match n with
  | 0 => ret acc
  | S n' => acc' <- body from acc ;; foldRange n' (S from) body acc'
  end.

Definition foldChunks {A} (body : nat -> A -> M State A) (acc : A)
  : M State A :=
  s <- get ;; foldRange (length (chunks s)) 0 body acc.

(** ** The steps of [generate] *)

(** The first loop of the pre-render. *)
Definition preRenderExports (inputOptions outputOptions : JSValue) (i : nat)
  : M State unit :=
  when (negb (truthy (prop "preserveModules" inputOptions)))
    (mutChunk i (c_generateInternalExports C outputOptions)) ;;;
  withChunk i tt (fun chunk =>
    when (isEntryModuleFacade chunk)
      (mode <- call (c_getExportMode C chunk outputOptions) ;;
       modify (set_chunk i (set_exportMode mode chunk)))).

(** [if (!optimized && inputOptions.optimizeChunks) { optimizeChunks(...);
    optimized = true; }]; the record keeps whether the optimizer returned. *)
Definition optimizeStep (inputOptions outputOptions : JSValue)
  (inputBase : string) : M State unit :=
  s <- get ;;
  when (negb (optimized s) && truthy (prop "optimizeChunks" inputOptions))
    (then2
       (call (c_optimizeChunks C (chunks s) outputOptions
                (prop "chunkGroupingSize" inputOptions) inputBase))
       (fun chunks' =>
          emit (EvOptimizeChunks true) ;;;
          modify (set_chunks chunks') ;;;
          modify (set_optimized true))
       (fun e => emit (EvOptimizeChunks false) ;;; throw e)).

(** The pattern and its name for a chunk that is named by a pattern. *)
Definition namingPattern (outputOptions : JSValue) (chunk : Chunk)
  : JSValue * string :=
  if isEntryModuleFacade chunk
  then (or_else (prop "entryFileNames" outputOptions) (JStr "[name].js"),
        "output.entryFileNames")
  else (or_else (prop "chunkFileNames" outputOptions)
          (JStr "[name]-[hash].js"),
        "output.chunkFileNames").

(** The body of the naming loop. *)
Definition nameChunk (inputOptions outputOptions : JSValue)
  (inputBase : string) (addons : JSValue) (i : nat) (usedIds : gset string)
  : M State (gset string) :=
  withChunk i usedIds (fun chunk =>
    if truthy (prop "file" outputOptions)
    then
      b <- liftRes (c_basename C (prop "file" outputOptions)) ;;
      modify (set_chunk i (set_id b chunk)) ;;;
      ret usedIds
    else if truthy (prop "preserveModules" inputOptions)
    then
      mutChunk i (c_generateIdPreserveModules C inputBase) ;;;
      ret usedIds
    else
      let (pattern, patternName) := namingPattern outputOptions chunk in
      emit (EvGenerateId i pattern patternName usedIds) ;;;
      mutChunk i
        (c_generateId C pattern patternName addons outputOptions usedIds) ;;;
      withChunk i usedIds (fun chunk' => ret ({[ id chunk' ]} ∪ usedIds))).

(** [const usedIds = {}; for (...) {...}] *)
Definition nameChunks (inputOptions outputOptions : JSValue)
  (inputBase : string) (addons : JSValue) : M State (gset string) :=
  foldChunks (nameChunk inputOptions outputOptions inputBase addons) ∅.

(** The body of the loop that assigns the chunks to the bundle. *)
Definition assignChunk (i : nat) (outputBundle : OutputBundle)
  : M State OutputBundle :=
  withChunk i outputBundle (fun chunk =>
    imports <- call (c_getImportIds C chunk) ;;
    exports <- call (c_getExportNames C chunk) ;;
    ret (obj_set (id chunk)
           (FileChunk
              (mkOutputChunk (id chunk)
                 (match entryModule chunk with Some _ => true | None => false end)
                 imports exports (renderedModules chunk) None None))
           outputBundle)).

Definition set_rendered (r : Rendered) (oc : OutputChunk) : OutputChunk :=
  mkOutputChunk (oc_fileName oc) (oc_isEntry oc) (oc_imports oc)
    (oc_exports oc) (oc_modules oc) (Some (rendered_code r)) (rendered_map r).

(** The callback of [chunks.map] in the render step, for [chunks[i]]: the
    [outputChunk] it updates is the entry of the bundle. *)
Definition renderChunk (outputOptions addons : JSValue) (i : nat)
  (outputBundle : OutputBundle) : M State OutputBundle :=
  withChunk i outputBundle (fun chunk =>
    match obj_lookup (id chunk) outputBundle with
    | Some (FileChunk outputChunk) =>
        rendered <- call (c_render C outputOptions addons outputChunk chunk) ;;
        let outputChunk' := set_rendered rendered outputChunk in
        hookParallel "ongenerate" (ArgOnGenerate outputOptions outputChunk') ;;;
        ret (obj_set (id chunk) (FileChunk outputChunk') outputBundle)
    | _ => ret outputBundle
    end).

(** [Promise.all(chunks.map(...))], taken in the order of the chunks: the
    render of a chunk and the [ongenerate] that follows it are run to
    their end before those of the next chunk; every chunk is taken, also
    after a failure, and the first failure in that order rejects the
    whole. *)
Fixpoint renderAll (n from : nat)
  (render : nat -> OutputBundle -> M State OutputBundle)
  (outputBundle : OutputBundle) : M State OutputBundle :=
  match n with
  | 0 => ret outputBundle
  | S n' =>
      fun s =>
        match render from outputBundle s with
        | (Ok b, s') => renderAll n' (S from) render b s'
        | (Err e, s') =>
            (Err e, snd (renderAll n' (S from) render outputBundle s'))
        end
  end.

(** The callback of [.then(addons => ...)]: pre-render, optimization,
    naming, the entries of the bundle and the renders. *)
Definition renderStep (inputOptions outputOptions : JSValue)
  (inputBase : string) (outputBundle : OutputBundle) (addons : JSValue)
  : M State OutputBundle :=
  forEachChunk (preRenderExports inputOptions outputOptions) ;;;
  forEachChunk (fun i => mutChunk i (c_preRender C outputOptions inputBase)) ;;;
  optimizeStep inputOptions outputOptions inputBase ;;;
  nameChunks inputOptions outputOptions inputBase addons ;;;
  bundle1 <- foldChunks assignChunk outputBundle ;;
  s <- get ;;
  renderAll (length (chunks s)) 0 (renderChunk outputOptions addons) bundle1.

(** [assets.forEach(asset => { if (asset.fileName === undefined)
    finaliseAsset(asset, outputBundle, assetFileNames); })] *)
Fixpoint finaliseRemaining (assets : list Asset) (assetFileNames : JSValue)
  (outputBundle : OutputBundle) : M State OutputBundle :=
  match assets with
  | [] => ret outputBundle
  | asset :: rest =>
      b <- match asset_fileName asset with
           | None => call (c_finaliseAsset C asset outputBundle assetFileNames)
           | Some _ => ret outputBundle
           end ;;
      finaliseRemaining rest assetFileNames b
  end.

(** The callback that runs the [generateBundle] hook. *)
Definition generateBundleStep (outputOptions assetFileNames : JSValue)
  (isWrite : bool) (outputBundle : OutputBundle) : M State OutputBundle :=
  s <- get ;;
  let assets := c_assetsById C (world s) in
  emit (EvHookSeq "generateBundle"
          (ArgGenerateBundle outputOptions outputBundle isWrite)) ;;;
  r <- call (c_generateBundle C outputOptions outputBundle isWrite assets
               assetFileNames) ;;
  finaliseRemaining (snd r) assetFileNames (fst r).

(** [chunks.filter(chunk => chunk.entryModule).map(chunk => chunk.entryModule.id)] *)
Definition entryModuleIds (cs : list Chunk) : list string :=
  omap entryModule cs.

(** What [generate] does before it returns its promise. *)
Definition generateSync (inputOptions rawOutputOptions : JSValue)
  : M State (JSValue * JSValue * OutputBundle * string) :=
  s <- get ;;
  outputOptions <- normalizeOutputOptions inputOptions rawOutputOptions
                     (Nat.ltb 1 (length (chunks s))) ;;
  let assetFileNames :=
    or_else (prop "assetFileNames" outputOptions)
      (JStr "assets/[name]-[hash][extname]") in
  outputBundle <- call (c_finaliseAssets C assetFileNames) ;;
  s' <- get ;;
  let inputBase := c_commondir C (entryModuleIds (chunks s')) in
  ret (outputOptions, assetFileNames, outputBundle, inputBase).

(** The part of the chain that [.catch] guards. *)
Definition generateGuarded (inputOptions outputOptions : JSValue)
  (inputBase : string) (outputBundle : OutputBundle) : M State OutputBundle :=
  hookParallel "renderStart" NoArgs ;;;
  addons <- call (c_createAddons C outputOptions) ;;
  renderStep inputOptions outputOptions inputBase outputBundle addons.

(** The promise chain of [generate]. *)
Definition generateChain (inputOptions : JSValue) (isWrite : bool)
  (x : JSValue * JSValue * OutputBundle * string) : M State OutputBundle :=
  let '(outputOptions, assetFileNames, outputBundle, inputBase) := x in
  bundle1 <- catch
               (generateGuarded inputOptions outputOptions inputBase
                  outputBundle)
               (fun e => hookParallel "renderError" (ArgError e) ;;; throw e) ;;
  generateBundleStep outputOptions assetFileNames isWrite bundle1.

(** The function [generate] in the closure of a build. *)
Definition generate (inputOptions rawOutputOptions : JSValue) (isWrite : bool)
  : State -> Call OutputBundle * State :=
  promise (generateSync inputOptions rawOutputOptions)
    (generateChain inputOptions isWrite).

(** ** [createOutput] *)

Inductive SortingFileType : Type := ENTRY_CHUNK | SECONDARY_CHUNK | ASSET.

(** The numbers of the enum. *)
Definition SortingFileType_value (t : SortingFileType) : Z :=
  match t with ENTRY_CHUNK => 0 | SECONDARY_CHUNK => 1 | ASSET => 2 end.

Definition getSortingFileType (file : OutputFile) : SortingFileType :=
  if isAsset file then ASSET
  else if isEntry file then ENTRY_CHUNK
  else SECONDARY_CHUNK.

(** The comparator [createOutput] sorts with. *)
Definition compareFiles (outputFileA outputFileB : OutputFile) : Z :=
  let fileTypeA := SortingFileType_value (getSortingFileType outputFileA) in
  let fileTypeB := SortingFileType_value (getSortingFileType outputFileB) in
  if (fileTypeA =? fileTypeB)%Z then 0%Z
  else if (fileTypeA <? fileTypeB)%Z then (-1)%Z else 1%Z.

(** [Array.prototype.sort(cmp)], a stable sort as ECMAScript 2019 asks for:
    an element goes before the first one that is not smaller than it. *)
Fixpoint sort_insert {A} (cmp : A -> A -> Z) (x : A) (l : list A) : list A :=
  match l with
  | [] => [x]
  | y :: l' => if (cmp x y <=? 0)%Z then x :: y :: l'
               else y :: sort_insert cmp x l'
  end.

Definition array_sort {A} (cmp : A -> A -> Z) (l : list A) : list A :=
  foldr (sort_insert cmp) [] l.

(** [Object.keys(outputBundle).map(fileName => outputBundle[fileName])] *)
Definition bundle_files (outputBundle : OutputBundle) : list OutputFile :=
  omap (fun fileName => obj_lookup fileName outputBundle)
    (Object_keys outputBundle).

Record RollupOutput := mkRollupOutput { output : list OutputFile }.

Definition createOutput (outputBundle : OutputBundle) : RollupOutput :=
  mkRollupOutput (array_sort compareFiles (bundle_files outputBundle)).

(** ** [writeOutputFile] *)

(** Modelled from the spec: the constant [SOURCEMAPPING_URL] of
    utils/sourceMappingURL, which is not among the sources; the spec writes
    the comment as [//# sourceMappingURL=]. *)
Definition SOURCEMAPPING_URL : string := "sourceMappingURL".

Definition newline : string :=
  String (Ascii.Ascii false true false true false false false false)
    EmptyString.

(** A promise that is started now and awaited later: its outcome. *)
Definition started {S A} (p : M S A) : M S (Res A) :=
  fun s => let (r, s') := p s in (Ok r, s').

Definition writeFile (path : string) (content : option string)
  : M State unit :=
  emit (EvWriteFile path (default "undefined" content)) ;;;
  call (c_writeFile C path (default "undefined" content)).

(** [source += suffix] *)
Definition append_source (source : option string) (suffix : string)
  : option string :=
  Some (default "undefined" source ++ suffix).

(** What [writeOutputFile] does before it returns its promise: the path
    is resolved and the writes are started.  The result is the two
    promises the chain waits for, [writeFile(filename, source)] and
    [writeSourceMapPromise], each as the outcome it settles with. *)
Definition startWrites (outputFile : OutputFile) (outputOptions : JSValue)
  : M State (Res unit * Res unit) :=
  base <- (if truthy (prop "dir" outputOptions)
           then ret (prop "dir" outputOptions)
           else d <- liftRes (c_dirname C (prop "file" outputOptions)) ;;
                ret (JStr d)) ;;
  filename <- liftRes (c_resolve C base (file_fileName outputFile)) ;;
  x <- match outputFile with
       | FileAsset a => ret (Some (oa_source a), Ok tt)
       | FileChunk c =>
           match oc_map c with
           | Some map =>
               if truthy (prop "sourcemap" outputOptions)
               then
                 y <- (if str_eq (prop "sourcemap" outputOptions) "inline"
                       then ret (map_toUrl map, Ok tt)
                       else
                         b <- liftRes (c_basename C (JStr (oc_fileName c))) ;;
                         w <- started (writeFile (filename ++ ".map")
                                         (Some (map_toString map))) ;;
                         ret (b ++ ".map", w)) ;;
                 ret (append_source (oc_code c)
                        ("//# " ++ SOURCEMAPPING_URL ++ "=" ++ fst y
                         ++ newline),
                      snd y)
               else ret (oc_code c, Ok tt)
           | None => ret (oc_code c, Ok tt)
           end
       end ;;
  w <- started (writeFile filename (fst x)) ;;
  ret (w, snd x).

(** The chain of [writeOutputFile]:
    [writeFile(...).then(() => writeSourceMapPromise).then(() =>
     !isOutputAsset(outputFile) && hookSeq('onwrite', ...))] *)
Definition afterWrites (build : RollupBuild) (outputFile : OutputFile)
  (outputOptions : JSValue) (pending : Res unit * Res unit) : M State unit :=
  liftRes (fst pending) ;;;
  liftRes (snd pending) ;;;
  when (negb (isAsset outputFile))
    (hookSeq "onwrite" (ArgOnWrite outputOptions outputFile)).

Definition writeOutputFile (build : RollupBuild) (outputFile : OutputFile)
  (outputOptions : JSValue) : M State unit :=
  pending <- startWrites outputFile outputOptions ;;
  afterWrites build outputFile outputOptions pending.

(** [Object.keys(bundle).map(chunkId => writeOutputFile(...))]: the calls
    are made one after the other, so the writes of every file are started
    before any chain goes on; a call that throws ends the [map]. *)
Fixpoint startAll (files : list OutputFile) (outputOptions : JSValue)
  : M State (list (OutputFile * (Res unit * Res unit))) :=
  match files with
  | [] => ret []
  | file :: rest =>
      pending <- startWrites file outputOptions ;;
      others <- startAll rest outputOptions ;;
      ret ((file, pending) :: others)
  end.

(** [Promise.all] of promises whose chains go on in the order of the list:
    all run, and the first to fail in that order rejects the whole. *)
Fixpoint promise_all {S} (ps : list (M S unit)) : M S unit :=
  match ps with
  | [] => ret tt
  | p :: rest =>
      fun s =>
        match p s with
        | (Ok _, s') => promise_all rest s'
        | (Err e, s') => (Err e, snd (promise_all rest s'))
        end
  end.

(** ** The handle: [generate] and [write] *)

(** The property [generate] of the handle.  The accessors [code] and [map]
    it defines on the promise only throw when read and are left out. *)
Definition handle_generate (build : RollupBuild) (rawOutputOptions : JSValue)
  : State -> Call RollupOutput * State :=
  call_then (generate (build_inputOptions build) rawOutputOptions false)
    (fun result => ret (createOutput result)).

(** The loop of [write] that counts the chunks of the bundle and stops
    at the second. *)
Fixpoint countChunks (files : list OutputFile) (chunkCnt : nat) : nat :=
  match files with
  | [] => chunkCnt
  | file :: rest =>
      if isAsset file then countChunks rest chunkCnt
      else if Nat.ltb 1 (S chunkCnt) then S chunkCnt
           else countChunks rest (S chunkCnt)
  end.

(** The callback of [generate(outputOptions, true).then(bundle => ...)]. *)
Definition writeBundle (build : RollupBuild) (outputOptions : JSValue)
  (bundle : OutputBundle) : M State RollupOutput :=
  let chunkCnt := countChunks (bundle_files bundle) 0 in
  let inputOptions := build_inputOptions build in
  when (Nat.ltb 1 chunkCnt)
    (when (truthy (prop "sourcemapFile" outputOptions))
       (invalid_option
          (quote ++ "sourcemapFile" ++ quote
           ++ " is only supported for single-file builds.")) ;;;
     when (is_string (prop "file" outputOptions))
       (invalid_option
          ("When building multiple chunks, the output.dir option must be used, not output.file."
           ++ (if negb (is_string (prop "input" inputOptions))
                  || is_true (prop "inlineDynamicImports" inputOptions)
               then ""
               else " To inline dynamic imports set the inlineDynamicImports: true option.")))) ;;;
  pending <- startAll (bundle_files bundle) outputOptions ;;
  promise_all
    (map (fun x => afterWrites build (fst x) outputOptions (snd x))
       pending) ;;;
  ret (createOutput bundle).

Definition missing_option : JSError :=
  RollupError (Some "MISSING_OPTION")
    "You must specify output.file or output.dir for the build." None.

(** The property [write] of the handle. *)
Definition handle_write (build : RollupBuild) (outputOptions : JSValue)
  : State -> Call RollupOutput * State :=
  fun s =>
    if negb (truthy outputOptions)
       || (negb (truthy (prop "dir" outputOptions))
           && negb (truthy (prop "file" outputOptions)))
    then (Throws missing_option, s)
    else call_then (generate (build_inputOptions build) outputOptions true)
           (writeBundle build outputOptions) s.

(** ** [rollup] *)

(** [setWatcher(watcher)]: the module variable [curWatcher] is set. *)
Definition setWatcher (watcher : nat) : M State unit :=
  modify (set_curWatcher (Some watcher)).

(** What [rollup] does inside its [try] before the promise chain; the
    input options are returned as [delete inputOptions.cache] leaves
    them. *)
Definition rollupSync (rawInputOptions : JSValue)
  : M State (JSValue * bool) :=
  inputOptions <- getInputOptions rawInputOptions ;;
  s <- get ;;
  call (c_newGraph C (fst inputOptions) (curWatcher s)) ;;;
  modify (set_curWatcher None) ;;;
  ret (delete_prop "cache" (fst inputOptions), snd inputOptions).

(** [buildStart], the build and [buildEnd]. *)
Definition buildChain (inputOptions : JSValue) : M State (list Chunk) :=
  then2
    (hookParallel "buildStart" NoArgs ;;;
     emit EvGraphBuild ;;;
     call (c_build C (prop "input" inputOptions)
             (prop "manualChunks" inputOptions)
             (prop "inlineDynamicImports" inputOptions)
             (prop "preserveModules" inputOptions)))
    (fun chunks => hookParallel "buildEnd" NoArgs ;;; ret chunks)
    (fun err => hookParallel "buildEnd" (ArgError err) ;;; throw err).

(** The last callback of the chain, which makes the handle.
    [rawInputOptions] is the caller's object as it is by then.  The state
    has the variables [chunks] and [optimized] of one closure, that of
    the build made last. *)
Definition makeHandle (rawInputOptions inputOptions : JSValue)
  (chunks : list Chunk) : M State RollupBuild :=
  modify (set_chunks chunks) ;;;
  modify (set_optimized false) ;;;
  cache <- (if is_false (prop "cache" rawInputOptions)
            then ret JUndefined
            else call (c_getCache C)) ;;
  s <- get ;;
  ret (mkRollupBuild cache (c_watchFiles C (world s))
         (is_true (prop "perf" inputOptions)) inputOptions).

(** When the input options are the caller's own object, the [delete] has
    taken the [cache] from the caller's object too. *)
Definition rollup (rawInputOptions : JSValue)
  : State -> Call RollupBuild * State :=
  try_promise (rollupSync rawInputOptions)
    (fun inputOptions =>
       chunks <- buildChain (fst inputOptions) ;;
       makeHandle
         (if snd inputOptions then fst inputOptions else rawInputOptions)
         (fst inputOptions) chunks).

End Orchestrator.

Arguments Chunk : clear implicits.
Arguments State : clear implicits.
Arguments Collab : clear implicits.

(** ** The naming step as the specification words it

    A second definition, written from the specification and not from the
    source, for the comparison with [nameChunks]: the chunks are taken in
    the order of the list, [usedIds] is handed from one chunk to the next,
    and a chunk's id comes from the single [file], from the
    preserve-modules generator, or from the generator that is given one of
    the two patterns, after which the id joins [usedIds]. *)

Section NamingSpec.

Context {W CI : Type} (C : Collab W CI).

(** The pattern of a chunk: [entryFileNames] (default [[name].js]) for an
    entry facade, [chunkFileNames] (default [[name]-[hash].js]) otherwise. *)
Definition spec_pattern (outputOptions : JSValue) (facade : bool)
  : JSValue * string :=
  if facade
  then (if truthy (prop "entryFileNames" outputOptions)
        then prop "entryFileNames" outputOptions else JStr "[name].js",
        "output.entryFileNames")
  else (if truthy (prop "chunkFileNames" outputOptions)
        then prop "chunkFileNames" outputOptions else JStr "[name]-[hash].js",
        "output.chunkFileNames").

(** One chunk: the outcome, the chunk as it is left, the world and the
    calls of the generator.  With a single [file] the chunk is left with
    the id [basename(file)] and is otherwise as it was. *)
Definition spec_name_one (inputOptions outputOptions : JSValue)
  (inputBase : string) (addons : JSValue) (i : nat) (chunk : Chunk CI)
  (usedIds : gset string) (w : W)
  : Res (gset string) * Chunk CI * W * list Event :=
  if truthy (prop "file" outputOptions)
  then match c_basename C (prop "file" outputOptions) with
       | Ok b =>
           (Ok usedIds,
            mkChunk b (isEntryModuleFacade chunk) (entryModule chunk)
              (exportMode chunk) (renderedModules chunk) (internals chunk),
            w, [])
       | Err e => (Err e, chunk, w, [])
       end
  else if truthy (prop "preserveModules" inputOptions)
  then match c_generateIdPreserveModules C inputBase chunk w with
       | (Ok chunk', w') => (Ok usedIds, chunk', w', [])
       | (Err e, w') => (Err e, chunk, w', [])
       end
  else
    let pat := spec_pattern outputOptions (isEntryModuleFacade chunk) in
    let ev := EvGenerateId i (fst pat) (snd pat) usedIds in
    match c_generateId C (fst pat) (snd pat) addons outputOptions usedIds
            chunk w with
    | (Ok chunk', w') => (Ok ({[ id chunk' ]} ∪ usedIds), chunk', w', [ev])
    | (Err e, w') => (Err e, chunk, w', [ev])
    end.

(** All chunks from the [i]-th on, in the order of the build. *)
Fixpoint spec_naming (inputOptions outputOptions : JSValue)
  (inputBase : string) (addons : JSValue) (i : nat) (cs : list (Chunk CI))
  (usedIds : gset string) (w : W)
  : Res (gset string) * list (Chunk CI) * W * list Event :=
  match cs with
  | [] => (Ok usedIds, [], w, [])
  | chunk :: rest =>
      match spec_name_one inputOptions outputOptions inputBase addons i chunk
              usedIds w with
      | (Ok usedIds', chunk', w', evs) =>
          match spec_naming inputOptions outputOptions inputBase addons (S i)
                  rest usedIds' w' with
          | (r, rest', w'', evs') => (r, chunk' :: rest', w'', (evs ++ evs')%list)
          end
      | (Err e, chunk', w', evs) => (Err e, chunk' :: rest, w', evs)
      end
  end.

End NamingSpec.

(** ** What a computation leaves in the state *)

Section Frames.

Context {W CI : Type}.

(** Every run of [m] takes a state to one that [R] relates to it. *)
Definition respects {A} (R : State W CI -> State W CI -> Prop)
  (m : M (State W CI) A) : Prop :=
  forall s r s', m s = (r, s') -> R s s'.

(** The same for a promise-returning function. *)
Definition respects_calls {A} (R : State W CI -> State W CI -> Prop)
  (f : State W CI -> Call A * State W CI) : Prop :=
  forall s r s', f s = (r, s') -> R s s'.

(** The record of [s'] is that of [s] and then events of [P]. *)
Definition extends (P : Event -> Prop) (s s' : State W CI) : Prop :=
  exists l, log s' = (log s ++ l)%list /\ Forall P l.

End Frames.

Definition is_optimize (e : Event) : bool :=
  match e with EvOptimizeChunks _ => true | _ => false end.

Definition is_optimized (e : Event) : bool :=
  match e with EvOptimizeChunks true => true | _ => false end.

Definition is_hook (hook : string) (e : Event) : bool :=
  match e with
  | EvHookParallel h _ | EvHookSeq h _ => String.eqb h hook
  | _ => false
  end.

(** How often the optimizer was called, and how often it returned. *)
Definition optimizer_calls (l : list Event) : nat :=
  length (List.filter is_optimize l).
Definition optimizer_passes (l : list Event) : nat :=
  length (List.filter is_optimized l).

(** From [s] to [s'] the optimizer is gated by the flag: with the flag set
    it is not called and the flag stays set; with the flag unset either it
    does not return and the flag stays unset, or it returns once and the
    flag is set. *)
Definition optimizes_once {W CI} (s s' : State W CI) : Prop :=
  exists l, log s' = (log s ++ l)%list
    /\ (optimized s = true ->
        optimized s' = true /\ optimizer_calls l = 0)
    /\ (optimized s = false ->
        (optimized s' = false /\ optimizer_passes l = 0)
        \/ (optimized s' = true /\ optimizer_passes l = 1)).

(** The dispatches of a hook, with their arguments. *)
Definition dispatches (hook : string) (l : list Event) : list Event :=
  List.filter (is_hook hook) l.

(** A sequence of calls of [generate] on the handle of one build, each
    with its raw output options and its [isWrite]. *)
Fixpoint run_generates {W CI} (C : Collab W CI) (inputOptions : JSValue)
  (calls : list (JSValue * bool)) (s : State W CI) : State W CI :=
  match calls with
  | [] => s
  | (raw, isWrite) :: rest =>
      run_generates C inputOptions rest
        (snd (generate C inputOptions raw isWrite s))
  end.

(** The files of one kind, in the order of the list. *)
Definition of_type (t : SortingFileType) (files : list OutputFile)
  : list OutputFile :=
  List.filter
    (fun f => (SortingFileType_value (getSortingFileType f)
               =? SortingFileType_value t)%Z)
    files.

(** The three kinds of file as the specification names them: a rendered
    chunk entry that is an entry, one that is not, and an asset entry. *)
Definition is_entry_chunk (f : OutputFile) : bool :=
  match f with FileChunk c => oc_isEntry c | FileAsset _ => false end.
Definition is_secondary_chunk (f : OutputFile) : bool :=
  match f with FileChunk c => negb (oc_isEntry c) | FileAsset _ => false end.
Definition is_asset_entry (f : OutputFile) : bool :=
  match f with FileChunk _ => false | FileAsset _ => true end.

(** Entry chunks first, then secondary chunks, then assets, each kind in
    the order of the list. *)
Definition by_kind (files : list OutputFile) : list OutputFile :=
  List.filter is_entry_chunk files
  ++ List.filter is_secondary_chunk files
  ++ List.filter is_asset_entry files.

(** The keys of two entries are array indices, the first not above the
    second. *)
Definition index_le {V} (x y : string * V) : Prop :=
  match array_index (fst x), array_index (fst y) with
  | Some a, Some b => (a <= b)%N
  | _, _ => False
  end.

(** An entry specifier with more than one entry. *)
Definition more_than_one_entry (input : JSValue) : bool :=
  match input with
  | JArr l => Nat.ltb 1 (length l)
  | JObj o => Nat.ltb 1 (length o)
  | _ => false
  end.

(** The events a call of [generate] can add to the record. *)
Definition is_generate_event (e : Event) : bool :=
  match e with
  | EvHookParallel h _ =>
      String.eqb h "renderStart" || String.eqb h "ongenerate"
      || String.eqb h "renderError"
  | EvHookSeq h _ => String.eqb h "generateBundle"
  | EvOptimizeChunks _ | EvGenerateId _ _ _ _ => true
  | _ => false
  end.

(** A dispatch of [generateBundle] carries the given [isWrite]. *)
Definition carries_isWrite (isWrite : bool) (e : Event) : bool :=
  match e with
  | EvHookSeq _ (ArgGenerateBundle _ _ w) => Bool.eqb w isWrite
  | _ => true
  end.

(** The events a call of [write] can add beyond those of [generate]. *)
Definition is_write_event (e : Event) : bool :=
  match e with
  | EvWriteFile _ _ => true
  | EvHookSeq h (ArgOnWrite _ file) =>
      String.eqb h "onwrite" && negb (isAsset file)
  | _ => false
  end.

(** The start of a write, and a dispatch of [onwrite] for a file that is
    no asset. *)
Definition is_file_write (e : Event) : bool :=
  match e with EvWriteFile _ _ => true | _ => false end.
Definition is_onwrite (e : Event) : bool :=
  match e with
  | EvHookSeq h (ArgOnWrite _ file) =>
      String.eqb h "onwrite" && negb (isAsset file)
  | _ => false
  end.

(** No option error: [mergedOptions.optionError] is falsy. *)
Definition no_option_error (m : MergeResult) : bool :=
  match optionError m with
  | Some msg => negb (truthy (JStr msg))
  | None => true
  end.

(** The conditions under which no check of [normalizeOutputOptions]
    throws, for the OutputConfig [out] that [mergeOptions] gave. *)
Definition output_options_pass (inputOptions out : JSValue)
  (hasMultipleChunks : bool) : bool :=
  truthy (prop "format" out)
  && negb (str_eq (prop "format" out) "es6")
  && (negb (is_string (prop "file" out))
      || (negb (is_string (prop "dir" out))
          && negb (truthy (prop "preserveModules" inputOptions))
          && negb (typeof_object (prop "input" inputOptions)
                   && negb (is_array (prop "input" inputOptions)))))
  && (negb hasMultipleChunks
      || (negb (str_eq (prop "format" out) "umd")
          && negb (str_eq (prop "format" out) "iife")
          && negb (is_string (prop "file" out)))).

(** ** A small instance of the collaborators

    A world in which every collaborator succeeds unless its name is on a
    list of failures still to come; the concrete runs below are taken in
    it. *)

Module Demo.

Definition World : Type := list string.

Fixpoint remove_first (name : string) (w : World) : World :=
  match w with
  | [] => []
  | x :: w' => if String.eqb name x then w' else x :: remove_first name w'
  end.

Definition scheduled (name : string) (w : World) : bool :=
  existsb (String.eqb name) w.

(** The call [name] fails with [Foreign ref] if the world says so. *)
Definition step {A} (name : string) (ref : nat) (a : A) (w : World)
  : Res A * World :=
  if scheduled name w then (Err (Foreign ref), remove_first name w)
  else (Ok a, w).

Definition member (k : string) (keys : list string) : bool :=
  existsb (String.eqb k) keys.

Definition pick (keys : list string) (o : JSObject) : JSObject :=
  List.filter (fun kv => member (fst kv) keys) o.

Definition unknown (keys : list string) (o : JSObject) : list string :=
  List.filter (fun k => negb (member k keys)) (Object_keys o).

(** The fields the specification gives an InputConfig and an OutputConfig. *)
Definition input_keys : list string :=
  ["input"; "plugins"; "cache"; "preserveModules"; "inlineDynamicImports";
   "manualChunks"; "optimizeChunks"; "chunkGroupingSize"; "onwarn"; "perf";
   "acornInjectPlugins"; "output"].

Definition output_keys : list string :=
  ["format"; "file"; "dir"; "entryFileNames"; "chunkFileNames";
   "assetFileNames"; "sourcemap"; "sourcemapFile"; "globals"; "name"].

(** The allowed input options as the message lists them. *)
Definition allowed_input : list string :=
  ["acornInjectPlugins"; "cache"; "chunkGroupingSize"; "inlineDynamicImports";
   "input"; "manualChunks"; "onwarn"; "optimizeChunks"; "perf"; "plugins";
   "preserveModules"].

(** [list.join(sep)] *)
Fixpoint join (sep : string) (l : list string) : string :=
  match l with
  | [] => ""
  | [x] => x
  | x :: l' => x ++ sep ++ join sep l'
  end.

Definition unknown_error (kind : string) (allowed ks : list string)
  : option string :=
  match ks with
  | [] => None
  | _ => Some ("Unknown " ++ kind ++ " option: " ++ join ", " ks
               ++ ". Allowed options: " ++ join ", " allowed)
  end.

(** The output configurations as a list: the elements of a list, or the
    single configuration. *)
Definition output_list (config : JSValue) : list JSValue :=
  match prop "output" config with
  | JArr l => l
  | JObj o => [JObj o]
  | _ => [JObj []]
  end.

(** Modelled from the spec: [mergeOptions] of utils/mergeOptions, which is
    not among the sources.  It keeps the declared options of the closed
    allowed set and yields the output configurations as a list.  An
    unrecognized key at the top of the configuration is reported as an
    option error, with the message the repository's test expects; the
    keys of an output configuration are not reported. *)
Definition mergeOptions (config : JSValue) (d : DeprecateConfig)
  : MergeResult :=
  mkMergeResult
    (JObj (pick input_keys (own_entries config)))
    (map (fun o => JObj (pick output_keys (own_entries o)))
       (output_list config))
    (unknown_error "input" allowed_input
       (unknown input_keys (own_entries config))).

(** A [mergeOptions] that reports the unrecognized keys of the first
    output configuration as well, for the branch of
    [normalizeOutputOptions] that throws an option error. *)
Definition mergeOptions_strict (config : JSValue) (d : DeprecateConfig)
  : MergeResult :=
  mkMergeResult
    (JObj (pick input_keys (own_entries config)))
    (map (fun o => JObj (pick output_keys (own_entries o)))
       (output_list config))
    (match d with
     | DeprecateInput =>
         unknown_error "input" allowed_input
           (unknown input_keys (own_entries config))
     | DeprecateOutput =>
         unknown_error "output" output_keys
           (unknown output_keys (own_entries (first_output (output_list config))))
     end).

Definition chunk_of (entry : JSValue) : Chunk unit :=
  mkChunk "" true
    (match entry with JStr s => Some s | _ => None end)
    JUndefined JUndefined tt.

(** One entry-facade chunk for each entry. *)
Definition chunks_of (input : JSValue) : list (Chunk unit) :=
  match input with
  | JArr l => map chunk_of l
  | JObj o => map (fun kv => chunk_of (snd kv)) o
  | _ => [chunk_of input]
  end.

Definition chunk_name (c : Chunk unit) : string :=
  default "chunk" (entryModule c).

(** The name of the chunk with [.js], varied when it is taken. *)
Definition fresh_id (c : Chunk unit) (usedIds : gset string) : string :=
  if decide (chunk_name c ++ ".js" ∈ usedIds)
  then chunk_name c ++ "2.js"
  else chunk_name c ++ ".js".

Definition path_string (v : JSValue) : Res string :=
  match v with
  | JStr s => Ok s
  | _ => Err (TypeError "path.split is not a function")
  end.

(** The collaborators, given their [mergeOptions], what an [options] hook
    returns and the assets that [graph.finaliseAssets] puts into a new
    bundle. *)
Definition collab_with (merge : JSValue -> DeprecateConfig -> MergeResult)
  (hooked : JSValue * bool) (assets : OutputBundle) : Collab World unit :=
  {| c_mergeOptions := merge;
     c_onwarn := fun _ _ _ => step "onwarn" 1 tt;
     c_pluginOptions := fun _ _ => step "options" 2 hooked;
     c_newGraph := fun _ _ => step "Graph" 3 tt;
     c_hookParallel := fun hook _ => step hook 4 tt;
     c_hookSeq := fun hook _ => step hook 5 tt;
     c_generateBundle := fun _ bundle _ assets _ =>
       step "generateBundle" 6 (bundle, assets);
     c_build := fun input _ _ _ => step "build" 7 (chunks_of input);
     c_getCache := step "getCache" 8 (JObj [("modules", JArr [])]);
     c_watchFiles := fun _ => [];
     c_assetsById := fun _ => [];
     c_finaliseAssets := fun _ => step "finaliseAssets" 9 assets;
     c_finaliseAsset := fun _ bundle _ => step "finaliseAsset" 10 bundle;
     c_createAddons := fun _ => step "createAddons" 11 JUndefined;
     c_getExportMode := fun _ _ => step "getExportMode" 12 (JStr "default");
     c_optimizeChunks := fun cs _ _ _ => step "optimizeChunks" 13 cs;
     c_generateInternalExports := fun _ c =>
       step "generateInternalExports" 14 c;
     c_preRender := fun _ _ c => step "preRender" 15 c;
     c_generateIdPreserveModules := fun _ c =>
       step "generateIdPreserveModules" 16 (set_id (chunk_name c) c);
     c_generateId := fun _ _ _ _ usedIds c =>
       step "generateId" 17 (set_id (fresh_id c usedIds) c);
     c_getImportIds := fun _ => step "getImportIds" 18 [];
     c_getExportNames := fun _ => step "getExportNames" 19 [];
     c_render := fun _ _ _ c =>
       step "render" 20 (mkRendered ("// " ++ id c) None);
     c_commondir := fun _ => "";
     c_basename := path_string;
     c_dirname := fun v => match path_string v with
                           | Ok _ => Ok "."
                           | Err e => Err e
                           end;
     c_resolve := fun base name => match path_string base with
                                   | Ok b => Ok (b ++ "/" ++ name)
                                   | Err e => Err e
                                   end;
     c_writeFile := fun _ _ => step "writeFile" 21 tt |}.

Definition collab : Collab World unit :=
  collab_with mergeOptions (JUndefined, false) [].

(** Two assets whose names are array indices, the higher one put in first. *)
Definition indexed_assets : OutputBundle :=
  obj_set "0" (FileAsset (mkOutputAsset "0" "zero"))
    (obj_set "1" (FileAsset (mkOutputAsset "1" "one")) []).

(** The state of a handle whose build gave the chunks of [input]. *)
Definition built (input : JSValue) (failures : World) : State World unit :=
  mkState failures [] None (chunks_of input) false.

(** A state before any build. *)
Definition fresh (failures : World) : State World unit :=
  mkState failures [] None [] false.

Definition handle (inputOptions : JSValue) : RollupBuild :=
  mkRollupBuild JUndefined [] false inputOptions.

End Demo.

(** * Properties *)

Open Scope list_scope.

(** ** The sorted output list *)

Section Sorting.

Context {A : Type} (cmp : A -> A -> Z).

Lemma sort_insert_first (x : A) (l : list A) :
  Forall (fun y => (cmp x y <= 0)%Z) l -> sort_insert cmp x l = x :: l.
Proof.
  destruct 1 as [|y l Hy _]; [reflexivity|].
  simpl. destruct (Z.leb_spec (cmp x y) 0); [reflexivity | lia].
Qed.

Lemma sort_insert_skip (x : A) (l1 l2 : list A) :
  Forall (fun y => (0 < cmp x y)%Z) l1 ->
  sort_insert cmp x (l1 ++ l2) = l1 ++ sort_insert cmp x l2.
Proof.
  induction 1 as [|y l1 Hy _ IH]; [reflexivity|].
  simpl. destruct (Z.leb_spec (cmp x y) 0); [lia|]. by rewrite IH.
Qed.

End Sorting.

Lemma of_type_cons (t : SortingFileType) (f : OutputFile) (fs : list OutputFile) :
  of_type t (f :: fs) =
  if (SortingFileType_value (getSortingFileType f) =? SortingFileType_value t)%Z
  then f :: of_type t fs else of_type t fs.
Proof. reflexivity. Qed.

Lemma of_type_Forall (t : SortingFileType) (fs : list OutputFile) :
  Forall (fun f => getSortingFileType f = t) (of_type t fs).
Proof.
  induction fs as [|f fs IH]; [constructor|].
  rewrite of_type_cons.
  destruct (getSortingFileType f) eqn:E, t; simpl; try assumption;
    by constructor.
Qed.

(** The comparator on the files of one kind. *)
Ltac compare_kind E :=
  eapply Forall_impl; [apply of_type_Forall|];
  intros ? Hy; cbv beta in Hy; unfold compareFiles; rewrite E, Hy;
  simpl; lia.

Lemma array_sort_by_kind (fs : list OutputFile) :
  array_sort compareFiles fs =
  of_type ENTRY_CHUNK fs ++ of_type SECONDARY_CHUNK fs ++ of_type ASSET fs.
Proof.
  induction fs as [|f fs IH]; [reflexivity|].
  change (array_sort compareFiles (f :: fs))
    with (sort_insert compareFiles f (array_sort compareFiles fs)).
  rewrite IH, !of_type_cons.
  destruct (getSortingFileType f) eqn:E; simpl.
  - apply sort_insert_first. rewrite !Forall_app.
    repeat split; compare_kind E.
  - rewrite sort_insert_skip by compare_kind E.
    f_equal. apply sort_insert_first. rewrite Forall_app.
    split; compare_kind E.
  - rewrite sort_insert_skip by compare_kind E.
    f_equal. rewrite sort_insert_skip by compare_kind E.
    f_equal. apply sort_insert_first. compare_kind E.
Qed.

(** The kinds of the specification are the types of [getSortingFileType]. *)
Lemma of_type_kinds (fs : list OutputFile) :
  of_type ENTRY_CHUNK fs = List.filter is_entry_chunk fs
  /\ of_type SECONDARY_CHUNK fs = List.filter is_secondary_chunk fs
  /\ of_type ASSET fs = List.filter is_asset_entry fs.
Proof.
  unfold of_type. repeat split; apply List.filter_ext;
    intros [[? [] ? ? ? ? ?]|?]; reflexivity.
Qed.

Lemma array_sort_by_kind_spec (fs : list OutputFile) :
  array_sort compareFiles fs = by_kind fs.
Proof.
  rewrite array_sort_by_kind. unfold by_kind.
  destruct (of_type_kinds fs) as (-> & -> & ->). reflexivity.
Qed.

(** *** The order in which the files of a bundle are listed *)

Lemma insert_index_Permutation (x : N * string) (l : list (N * string)) :
  Permutation (insert_index x l) (x :: l).
Proof.
  induction l as [|y l IH]; simpl; [done|].
  destruct (fst x <=? fst y)%N; [done|].
  rewrite IH. apply Permutation_swap.
Qed.

Lemma sort_index_Permutation (l : list (N * string)) :
  Permutation (foldr insert_index [] l) l.
Proof.
  induction l as [|x l IH]; simpl; [done|].
  by rewrite insert_index_Permutation, IH.
Qed.

Lemma insert_index_sorted (x : N * string) (l : list (N * string)) :
  StronglySorted (fun a b => (fst a <= fst b)%N) l ->
  StronglySorted (fun a b => (fst a <= fst b)%N) (insert_index x l).
Proof.
  induction 1 as [|y l Hl IH Hy]; simpl.
  - repeat constructor.
  - destruct (N.leb_spec (fst x) (fst y)) as [Hle|Hlt].
    + constructor; [by constructor|].
      constructor; [done|].
      eapply Forall_impl; [exact Hy|]. intros z Hz. simpl in *. lia.
    + constructor; [done|].
      rewrite insert_index_Permutation. constructor; [lia | done].
Qed.

Lemma sort_index_sorted (l : list (N * string)) :
  StronglySorted (fun a b => (fst a <= fst b)%N) (foldr insert_index [] l).
Proof.
  induction l as [|x l IH]; simpl; [constructor|].
  by apply insert_index_sorted.
Qed.

Lemma index_keys_spec (ks : list string) :
  Forall (fun x => array_index (snd x) = Some (fst x)) (index_keys ks)
  /\ map snd (index_keys ks) = List.filter is_array_index ks.
Proof.
  unfold index_keys, is_array_index.
  induction ks as [|k ks [IH1 IH2]]; simpl; [by split|].
  destruct (array_index k) as [n|] eqn:E; simpl; [|done].
  split; [by constructor | by f_equal].
Qed.

Lemma Object_keys_length {V} (o : list (string * V)) :
  length (Object_keys o) = length o.
Proof.
  unfold Object_keys. rewrite length_app, length_map.
  rewrite (Permutation_length (sort_index_Permutation _)).
  rewrite <- (length_map snd), (proj2 (index_keys_spec _)).
  rewrite <- (length_map fst o).
  induction (map fst o) as [|k ks IH]; simpl; [done|].
  destruct (is_array_index k); simpl; lia.
Qed.

(** The entry of a key, when the bundle has the key. *)
Local Abbreviation entry_of b :=
  (fun k => match obj_lookup k b with Some v => Some (k, v) | None => None end).

Lemma omap_lookup_entries {V} (b : list (string * V)) (ks : list string) :
  omap (fun k => obj_lookup k b) ks = map snd (omap (entry_of b) ks).
Proof.
  induction ks as [|k ks IH]; simpl; [done|].
  destruct (obj_lookup k b); simpl; [f_equal|]; exact IH.
Qed.

Lemma obj_lookup_NoDup {V} (b : list (string * V)) (k : string) (v : V) :
  NoDup (map fst b) -> In (k, v) b -> obj_lookup k b = Some v.
Proof.
  induction b as [|[k' v'] b IH]; simpl; [done|].
  intros Hnd [[= -> ->]|Hin]; [by rewrite String.eqb_refl|].
  apply NoDup_cons in Hnd as [Hk Hnd].
  destruct (String.eqb_spec k k') as [->|_]; [|by apply IH].
  exfalso. apply Hk. apply list_elem_of_In.
  change k' with (fst (k', v)). by apply in_map.
Qed.

Lemma entries_filter {V} (p : string -> bool) (b : list (string * V)) :
  NoDup (map fst b) ->
  omap (entry_of b) (List.filter p (map fst b))
  = List.filter (fun kv => p (fst kv)) b.
Proof.
  intros Hnd.
  assert (H : forall b', (forall kv, In kv b' -> In kv b) ->
            omap (entry_of b) (List.filter p (map fst b'))
            = List.filter (fun kv => p (fst kv)) b').
  { induction b' as [|[k v] b' IH]; intros Hsub; [done|].
    simpl. destruct (p k); simpl.
    - rewrite (obj_lookup_NoDup b k v) by (done || apply Hsub; by left).
      f_equal. apply IH. intros kv Hkv. apply Hsub. by right.
    - apply IH. intros kv Hkv. apply Hsub. by right. }
  by apply H.
Qed.

Lemma entries_sorted {V} (b : list (string * V)) (l : list (N * string)) :
  Forall (fun x => array_index (snd x) = Some (fst x)) l ->
  StronglySorted (fun a b => (fst a <= fst b)%N) l ->
  StronglySorted index_le (omap (entry_of b) (map snd l)).
Proof.
  intros Hidx Hs. induction Hs as [|x l Hl IH Hx]; simpl; [constructor|].
  apply Forall_cons in Hidx as [Hx0 Hidx].
  destruct (obj_lookup (snd x) b) as [v|]; [|by apply IH].
  constructor; [by apply IH|].
  clear IH Hl. induction l as [|y l IHl]; simpl; [constructor|].
  apply Forall_cons in Hx as [Hxy Hx].
  apply Forall_cons in Hidx as [Hy0 Hidx].
  destruct (obj_lookup (snd y) b) as [v'|]; [|by apply IHl].
  constructor; [|by apply IHl].
  unfold index_le. simpl. by rewrite Hx0, Hy0.
Qed.

(** The files of a bundle are listed as [Object.keys] lists their names:
    the files whose name is an array index in ascending order of the
    index, then the other files in the order in which they were put into
    the bundle. *)
Lemma bundle_files_order (b : OutputBundle) :
  NoDup (map fst b) ->
  exists indexed,
    bundle_files b
    = map snd indexed
      ++ map snd (List.filter (fun kv => negb (is_array_index (fst kv))) b)
    /\ Permutation indexed (List.filter (fun kv => is_array_index (fst kv)) b)
    /\ StronglySorted index_le indexed.
Proof.
  intros Hnd.
  exists (omap (entry_of b)
            (map snd (foldr insert_index [] (index_keys (map fst b))))).
  destruct (index_keys_spec (map fst b)) as [Hidx Hkeys].
  repeat split.
  - unfold bundle_files, Object_keys.
    rewrite omap_app, !omap_lookup_entries. f_equal. f_equal.
    by apply (entries_filter (fun k => negb (is_array_index k))).
  - rewrite (sort_index_Permutation (index_keys (map fst b))), Hkeys.
    by rewrite (entries_filter is_array_index).
  - apply entries_sorted; [|apply sort_index_sorted].
    rewrite (sort_index_Permutation (index_keys (map fst b))). exact Hidx.
Qed.

(** When no name is an array index the files are listed in the order in
    which they were put into the bundle. *)
Lemma bundle_files_NoDup (b : OutputBundle) :
  NoDup (map fst b) ->
  Forall (fun kv => is_array_index (fst kv) = false) b ->
  bundle_files b = map snd b.
Proof.
  intros Hnd Hno.
  destruct (bundle_files_order b Hnd) as (indexed & -> & Hperm & _).
  assert (Hnone : List.filter (fun kv => is_array_index (fst kv)) b = []).
  { clear Hnd Hperm. induction Hno as [|kv b Hkv _ IH]; simpl; [done|].
    by rewrite Hkv. }
  rewrite Hnone in Hperm. apply Permutation_nil_r in Hperm as ->. simpl.
  f_equal. clear Hnd Hnone.
  induction Hno as [|kv b Hkv _ IH]; simpl; [done|].
  rewrite Hkv. simpl. by f_equal.
Qed.

(** *** What [generate] and [write] resolve with *)

Lemma handle_generate_output {W CI} (C : Collab W CI) (build : RollupBuild)
  (rawOutputOptions : JSValue) (s s' : State W CI) (out : RollupOutput) :
  handle_generate C build rawOutputOptions s = (Returns (Ok out), s') ->
  exists bundle,
    generate C (build_inputOptions build) rawOutputOptions false s
    = (Returns (Ok bundle), s')
    /\ out = createOutput bundle.
Proof.
  unfold handle_generate, call_then.
  destruct (generate C _ _ false s) as [[e|[bundle|e]] s1]; try discriminate.
  unfold ret. intros [= <- <-]. by exists bundle.
Qed.

Lemma writeBundle_output {W CI} (C : Collab W CI) (build : RollupBuild)
  (outputOptions : JSValue) (bundle : OutputBundle) (s s' : State W CI)
  (out : RollupOutput) :
  writeBundle C build outputOptions bundle s = (Ok out, s') ->
  out = createOutput bundle.
Proof.
  unfold writeBundle, bind.
  destruct (when _ _ s) as [[[]|e] s1]; [|discriminate].
  destruct (startAll _ _ _ s1) as [[pending|e] s2]; [|discriminate].
  destruct (promise_all _ s2) as [[[]|e] s3]; [|discriminate].
  unfold ret. by intros [= <- _].
Qed.

Lemma handle_write_output {W CI} (C : Collab W CI) (build : RollupBuild)
  (outputOptions : JSValue) (s s' : State W CI) (out : RollupOutput) :
  handle_write C build outputOptions s = (Returns (Ok out), s') ->
  exists bundle s1,
    generate C (build_inputOptions build) outputOptions true s
    = (Returns (Ok bundle), s1)
    /\ out = createOutput bundle.
Proof.
  unfold handle_write, call_then.
  destruct (negb (truthy outputOptions) || _); [discriminate|].
  destruct (generate C _ _ true s) as [[e|[bundle|e]] s1]; try discriminate.
  destruct (writeBundle C build outputOptions bundle s1) as [r s2] eqn:E.
  intros [= -> <-]. exists bundle, s1. split; [done|].
  by eapply writeBundle_output.
Qed.

(** C7.  The output list that [generate] and [write] resolve with is the
    files of the bundle sorted by kind: the entry chunks, then the
    secondary chunks, then the assets.  Within a kind the files keep the
    order in which [Object.keys] lists the bundle (the sort is stable),
    which is the files whose name is an array index in ascending order of
    the index, and then the other files in the order in which they were
    put into the bundle. *)
Theorem createOutput_sorted_by_kind {W CI} (C : Collab W CI)
  (build : RollupBuild) (outputOptions : JSValue) (s : State W CI) :
  (forall out s',
     handle_generate C build outputOptions s = (Returns (Ok out), s') ->
     exists bundle,
       generate C (build_inputOptions build) outputOptions false s
       = (Returns (Ok bundle), s')
       /\ output out = by_kind (bundle_files bundle))
  /\ (forall out s',
        handle_write C build outputOptions s = (Returns (Ok out), s') ->
        exists bundle s1,
          generate C (build_inputOptions build) outputOptions true s
          = (Returns (Ok bundle), s1)
          /\ output out = by_kind (bundle_files bundle))
  /\ (forall bundle : OutputBundle,
        NoDup (map fst bundle) ->
        exists indexed,
          bundle_files bundle
          = map snd indexed
            ++ map snd (List.filter
                          (fun kv => negb (is_array_index (fst kv))) bundle)
          /\ Permutation indexed
               (List.filter (fun kv => is_array_index (fst kv)) bundle)
          /\ StronglySorted index_le indexed).
Proof.
  split; [|split].
  - intros out s' H.
    destruct (handle_generate_output C build outputOptions s s' out H)
      as (bundle & Hgen & ->).
    exists bundle. split; [done|]. apply array_sort_by_kind_spec.
  - intros out s' H.
    destruct (handle_write_output C build outputOptions s s' out H)
      as (bundle & s1 & Hgen & ->).
    exists bundle, s1. split; [done|]. apply array_sort_by_kind_spec.
  - apply bundle_files_order.
Qed.

(** A build with a secondary chunk and an entry chunk, and two assets:
    the output has the entry chunk first and the assets last. *)
Lemma createOutput_sorted_by_kind_witness :
  exists out s' bundle,
    handle_generate (Demo.collab_with Demo.mergeOptions (JUndefined, false)
         Demo.indexed_assets)
      (Demo.handle (JObj [])) (JObj [("format", JStr "es")])
      (Demo.built (JArr [JNum 1; JStr "x"]) [])
    = (Returns (Ok out), s')
    /\ map fst bundle = ["1"; "0"; "chunk.js"; "x.js"]
    /\ output out = by_kind (bundle_files bundle)
    /\ map file_fileName (output out) = ["x.js"; "chunk.js"; "0"; "1"].
Proof.
  pose (C := Demo.collab_with Demo.mergeOptions (JUndefined, false)
               Demo.indexed_assets).
  pose (s := Demo.built (JArr [JNum 1; JStr "x"]) []).
  pose (raw := JObj [("format", JStr "es")]).
  destruct (handle_generate C (Demo.handle (JObj [])) raw s)
    as [[e|[out|e]] s'] eqn:H; try (vm_compute in H; discriminate H).
  destruct (proj1 (createOutput_sorted_by_kind C (Demo.handle (JObj [])) raw s)
              out s' H) as (bundle & Hgen & Hout).
  exists out, s', bundle. split; [exact H|].
  vm_compute in Hgen. injection Hgen as <- _.
  split; [reflexivity|]. split; [exact Hout|].
  vm_compute in H. injection H as <- _. reflexivity.
Defined.

(** The two assets were put into the bundle as [1] and then [0]; the
    output lists them as [0] and then [1]. *)
Lemma output_does_not_keep_insertion_order :
  exists out s' bundle,
    handle_generate (Demo.collab_with Demo.mergeOptions (JUndefined, false)
         Demo.indexed_assets)
      (Demo.handle (JObj [])) (JObj [("format", JStr "es")])
      (Demo.built (JArr [JNum 1; JStr "x"]) [])
    = (Returns (Ok out), s')
    /\ generate (Demo.collab_with Demo.mergeOptions (JUndefined, false)
         Demo.indexed_assets)
         (JObj []) (JObj [("format", JStr "es")]) false
         (Demo.built (JArr [JNum 1; JStr "x"]) [])
       = (Returns (Ok bundle), s')
    /\ map fst (List.filter (fun kv => is_asset_entry (snd kv)) bundle)
       = ["1"; "0"]
    /\ map file_fileName (List.filter is_asset_entry (output out))
       = ["0"; "1"].
Proof.
  do 3 eexists. split; [vm_compute; reflexivity|].
  split; [vm_compute; reflexivity|]. split; reflexivity.
Qed.

(** ** Objects and the spread *)

Lemma obj_lookup_set_eq {V} (k : string) (v : V) (o : list (string * V)) :
  obj_lookup k (obj_set k v o) = Some v.
Proof.
  induction o as [|[k' v'] o IH]; simpl.
  - by rewrite String.eqb_refl.
  - destruct (String.eqb_spec k k') as [->|Hne]; simpl.
    + by rewrite String.eqb_refl.
    + by destruct (String.eqb_spec k k').
Qed.

Lemma obj_lookup_set_ne {V} (k k' : string) (v : V) (o : list (string * V)) :
  k <> k' -> obj_lookup k (obj_set k' v o) = obj_lookup k o.
Proof.
  intros Hne. induction o as [|[k0 v0] o IH]; simpl.
  - by destruct (String.eqb_spec k k').
  - destruct (String.eqb_spec k' k0) as [->|Hne0]; simpl.
    + by destruct (String.eqb_spec k k0).
    + by destruct (String.eqb_spec k k0).
Qed.

Lemma obj_lookup_None {V} (k : string) (o : list (string * V)) :
  k ∉ map fst o -> obj_lookup k o = None.
Proof.
  induction o as [|[k' v'] o IH]; simpl; [done|].
  rewrite not_elem_of_cons. intros [Hne Hk].
  destruct (String.eqb_spec k k'); [done|]. by apply IH.
Qed.

Lemma fold_set_lookup_notin (k : string) (es acc : JSObject) :
  k ∉ map fst es ->
  obj_lookup k (fold_left set_entry es acc) = obj_lookup k acc.
Proof.
  revert acc. induction es as [|[k' v'] es IH]; intros acc Hk; [done|].
  simpl in *. apply not_elem_of_cons in Hk as [Hne Hk].
  rewrite IH by done. by apply obj_lookup_set_ne.
Qed.

Lemma fold_set_lookup (k : string) (v : JSValue) (es acc : JSObject) :
  NoDup (map fst es) -> obj_lookup k es = Some v ->
  obj_lookup k (fold_left set_entry es acc) = Some v.
Proof.
  revert acc. induction es as [|[k' v'] es IH]; intros acc Hnd Hk; [done|].
  simpl in *. apply NoDup_cons in Hnd as [Hk' Hnd].
  destruct (String.eqb_spec k k') as [->|Hne].
  - injection Hk as ->. rewrite fold_set_lookup_notin by done.
    apply obj_lookup_set_eq.
  - by apply IH.
Qed.

Lemma obj_set_blank (k : string) (v : JSValue) (o : JSObject) :
  obj_set k v (blank k o) = obj_set k v o.
Proof.
  induction o as [|[k' v'] o IH]; [done|]. simpl.
  destruct (String.eqb_spec k k') as [->|Hne]; simpl.
  - by rewrite String.eqb_refl.
  - destruct (String.eqb_spec k k'); [done|]. by rewrite IH.
Qed.

Lemma blank_obj_set_ne (k k' : string) (v : JSValue) (o : JSObject) :
  k <> k' -> blank k (obj_set k' v o) = obj_set k' v (blank k o).
Proof.
  intros Hne. induction o as [|[k0 v0] o IH]; simpl.
  - by destruct (String.eqb_spec k k').
  - destruct (String.eqb_spec k' k0) as [->|Hne0],
             (String.eqb_spec k k0) as [->|Hne1]; simpl; try done.
    + by destruct (String.eqb_spec k0 k0), (String.eqb_spec k k0).
    + destruct (String.eqb_spec k' k0); [done|].
      by destruct (String.eqb_spec k0 k0).
    + destruct (String.eqb_spec k' k0), (String.eqb_spec k k0); try done.
      by rewrite IH.
Qed.

Lemma blank_obj_set_eq (k : string) (v1 v2 : JSValue) (o : JSObject) :
  blank k (obj_set k v1 o) = blank k (obj_set k v2 o).
Proof.
  induction o as [|[k' v'] o IH]; simpl.
  - by rewrite String.eqb_refl.
  - destruct (String.eqb_spec k k') as [->|Hne]; simpl.
    + by rewrite String.eqb_refl.
    + destruct (String.eqb_spec k k'); [done|]. by rewrite IH.
Qed.

(** Setting a property keeps two objects alike up to the value of [k]. *)
Lemma set_entry_blank (k : string) (kv : string * JSValue) (a1 a2 : JSObject) :
  blank k a1 = blank k a2 ->
  blank k (set_entry a1 kv) = blank k (set_entry a2 kv).
Proof.
  intros H. destruct kv as [k' v]. unfold set_entry. simpl.
  destruct (decide (k = k')) as [<-|Hne].
  - by rewrite <- (obj_set_blank k v a1), H, obj_set_blank.
  - by rewrite !blank_obj_set_ne, H.
Qed.

Lemma fold_set_blank (k : string) (es a1 a2 : JSObject) :
  blank k a1 = blank k a2 ->
  blank k (fold_left set_entry es a1) = blank k (fold_left set_entry es a2).
Proof.
  revert a1 a2. induction es as [|kv es IH]; intros a1 a2 H; [done|].
  simpl. by apply IH, set_entry_blank.
Qed.

(** Once the spread writes [k], what [k] held before is gone. *)
Lemma fold_set_overwrites (k : string) (es a1 a2 : JSObject) :
  blank k a1 = blank k a2 -> k ∈ map fst es ->
  fold_left set_entry es a1 = fold_left set_entry es a2.
Proof.
  revert a1 a2. induction es as [|[k' v] es IH]; intros a1 a2 H Hk.
  - by apply elem_of_nil in Hk.
  - simpl in *. apply elem_of_cons in Hk.
    destruct (decide (k = k')) as [<-|Hne].
    + f_equal. unfold set_entry. simpl.
      by rewrite <- (obj_set_blank k v a1), H, obj_set_blank.
    + apply IH; [by apply set_entry_blank|]. by destruct Hk.
Qed.

Lemma fold_set_blank_entries (k : string) (e1 e2 a1 a2 : JSObject) :
  blank k e1 = blank k e2 -> blank k a1 = blank k a2 ->
  blank k (fold_left set_entry e1 a1) = blank k (fold_left set_entry e2 a2).
Proof.
  revert e2 a1 a2.
  induction e1 as [|[k1 v1] e1 IH]; intros [|[k2 v2] e2] a1 a2 He Ha;
    simpl in He; try done.
  - by destruct (String.eqb k k2).
  - by destruct (String.eqb k k1).
  - destruct (String.eqb_spec k k1) as [E1|Hne1],
             (String.eqb_spec k k2) as [E2|Hne2]; simplify_eq; simpl.
    + apply fold_set_blank. unfold set_entry. simpl.
      rewrite (blank_obj_set_eq k2 v1 v2 a1). f_equal.
      by rewrite <- (obj_set_blank k2 v2 a1), Ha, obj_set_blank.
    + apply IH; [done|]. by apply (set_entry_blank k (k2, v2)).
Qed.

(** ** The output options handed to [mergeOptions] *)

Lemma consolidatedOutput_lookup (inputOptions rawOutputOptions : JSValue)
  (defaults : JSObject) (k : string) (v : JSValue) :
  prop "output" inputOptions = JObj defaults ->
  NoDup (map fst defaults) ->
  obj_lookup k defaults = Some v ->
  obj_lookup k (consolidatedOutput inputOptions rawOutputOptions) = Some v.
Proof.
  intros Hout Hnd Hk. unfold consolidatedOutput.
  rewrite Hout. unfold spread at 1. simpl. by apply fold_set_lookup.
Qed.

Lemma consolidatedOutput_ignores (inputOptions : JSValue) (raw : JSObject)
  (k : string) (v1 v2 : JSValue) :
  k <> "output" ->
  k ∈ map fst (own_entries (prop "output" inputOptions)) ->
  consolidatedOutput inputOptions (JObj (obj_set k v1 raw)) =
  consolidatedOutput inputOptions (JObj (obj_set k v2 raw)).
Proof.
  intros Hne Hk. unfold consolidatedOutput.
  assert (Hout : forall v, prop "output" (JObj (obj_set k v raw))
                           = prop "output" (JObj raw)).
  { intros v. simpl. by rewrite obj_lookup_set_ne. }
  rewrite !Hout. unfold spread.
  apply (fold_set_overwrites k); [|done].
  apply fold_set_blank. simpl.
  apply fold_set_blank_entries; [apply blank_obj_set_eq | done].
Qed.

(** C1, as the code has it.  The output defaults of the normalized input
    are spread last into the options handed to [mergeOptions], over the
    call-site options and not beneath them: a key of the input's [output]
    has the input's value there, and the value the call gives that key
    has no part in the OutputConfig that [normalizeOutputOptions]
    returns. *)
Theorem input_output_defaults_override_call_site {W CI S : Type}
  (C : Collab W CI) (inputOptions : JSValue) (defaults raw : JSObject)
  (k : string) (v : JSValue) :
  prop "output" inputOptions = JObj defaults ->
  NoDup (map fst defaults) ->
  obj_lookup k defaults = Some v ->
  (forall rawOutputOptions,
     obj_lookup k (consolidatedOutput inputOptions rawOutputOptions) = Some v)
  /\ (k <> "output" ->
      forall (v1 v2 : JSValue) (hasMultipleChunks : bool) (s : S),
        normalizeOutputOptions C inputOptions (JObj (obj_set k v1 raw))
          hasMultipleChunks s
        = normalizeOutputOptions C inputOptions (JObj (obj_set k v2 raw))
            hasMultipleChunks s).
Proof.
  intros Hout Hnd Hk. split.
  - intros rawOutputOptions. by eapply consolidatedOutput_lookup.
  - intros Hne v1 v2 multi s.
    unfold normalizeOutputOptions, consolidatedOutputOptions.
    rewrite (consolidatedOutput_ignores inputOptions raw k v1 v2); [done..|].
    rewrite Hout. simpl. clear -Hk.
    induction defaults as [|[k' v'] o IH]; simpl in *; [done|].
    destruct (String.eqb_spec k k') as [->|_]; [by left | right; by apply IH].
Qed.

(** The options of a build whose input sets [output.format] to [cjs],
    and a call that asks for [es]. *)
Lemma input_output_defaults_override_call_site_witness :
  obj_lookup "format"
    (consolidatedOutput (JObj [("output", JObj [("format", JStr "cjs")])])
       (JObj [("format", JStr "es")])) = Some (JStr "cjs").
Proof.
  apply (input_output_defaults_override_call_site (S := unit) Demo.collab
           (JObj [("output", JObj [("format", JStr "cjs")])])
           [("format", JStr "cjs")] [] "format" (JStr "cjs")).
  - reflexivity.
  - apply NoDup_cons. split; [apply not_elem_of_nil | apply NoDup_nil_2].
  - reflexivity.
Defined.

(** C1 as it is stated fails: the input's [output] and the call both set
    [format], and the OutputConfig has the input's [cjs], not the [es] of
    the call. *)
Lemma call_site_format_does_not_win :
  let inputOptions := JObj [("output", JObj [("format", JStr "cjs")])] in
  let rawOutputOptions := JObj [("format", JStr "es")] in
  has_key "format" (own_entries (prop "output" inputOptions)) = true
  /\ has_key "format" (own_entries rawOutputOptions) = true
  /\ exists outputOptions,
       normalizeOutputOptions Demo.collab inputOptions rawOutputOptions false tt
       = (Ok outputOptions, tt)
       /\ prop "format" outputOptions = JStr "cjs"
       /\ prop "format" outputOptions <> prop "format" rawOutputOptions.
Proof.
  repeat split. eexists. repeat split. discriminate.
Qed.

(** ** Option checks *)

(** Runs the binds and the checks of a computation whose conditions are
    known or irrelevant. *)
Ltac run_checks :=
  repeat (cbv beta iota delta
            [bind when ret throw error invalid_option fst snd];
          match goal with
          | |- context [if ?b then _ else _] => destruct b eqn:?
          | |- context [match ?o with Some _ => _ | None => _ end] =>
              destruct o eqn:?
          end);
  cbv beta iota delta [bind when ret throw error invalid_option fst snd].

Lemma checkOutputOptions_state {S} (options : JSValue) (s : S) :
  snd (checkOutputOptions options s) = s.
Proof. unfold checkOutputOptions. by run_checks. Qed.

(** [normalizeOutputOptions] reads and writes nothing but its arguments. *)
Lemma normalizeOutputOptions_state {W CI S} (C : Collab W CI)
  (inputOptions rawOutputOptions : JSValue) (multi : bool) (s : S) :
  snd (normalizeOutputOptions C inputOptions rawOutputOptions multi s) = s.
Proof.
  unfold normalizeOutputOptions, checkOutputOptions. by run_checks.
Qed.

Lemma multipleInputs_more_than_one {S} (input : JSValue) (s : S) :
  more_than_one_entry input = true ->
  multipleInputs input s = (Ok true, s).
Proof.
  unfold multipleInputs.
  destruct input as [| | | | |l|o|]; simpl; try done; intros H.
  - by rewrite H.
  - unfold Object_keys_of, bind, ret. simpl.
    by rewrite Object_keys_length, H.
Qed.

Lemma checkInputOptions_inlineDynamicImports {S} (inputOptions : JSValue)
  (s : S) :
  truthy (prop "inlineDynamicImports" inputOptions) = true ->
  truthy (prop "manualChunks" inputOptions)
  || truthy (prop "optimizeChunks" inputOptions)
  || more_than_one_entry (prop "input" inputOptions) = true ->
  exists e, checkInputOptions inputOptions s = (Err e, s)
            /\ error_code e = Some "INVALID_OPTION".
Proof.
  intros Hinline Hbad. unfold checkInputOptions. rewrite Hinline.
  cbv beta iota delta [bind when].
  destruct (truthy (prop "manualChunks" inputOptions));
    [by eexists|].
  destruct (truthy (prop "optimizeChunks" inputOptions));
    [by eexists|].
  simpl in Hbad. cbv beta iota delta [bind when ret].
  rewrite (multipleInputs_more_than_one _ _ Hbad). by eexists.
Qed.

Lemma rollup_getInputOptions_error {W CI} (C : Collab W CI)
  (rawInputOptions : JSValue) (s s' : State W CI) (e : JSError) :
  getInputOptions C rawInputOptions s = (Err e, s') ->
  rollup C rawInputOptions s = (Returns (Err e), s').
Proof.
  intros H. unfold rollup, try_promise, rollupSync, bind. by rewrite H.
Qed.

(** C8, as the code has it.  Once the plugins have had their say,
    [inlineDynamicImports] together with [manualChunks], with
    [optimizeChunks], or with an entry specifier that is a list or a map
    of more than one entry makes normalize-input fail with
    [INVALID_OPTION], and [rollup] reject with that error. *)
Theorem inlineDynamicImports_invalid_options {W CI} (C : Collab W CI)
  (rawInputOptions inputOptions : JSValue) (callers : bool)
  (s s1 : State W CI) :
  mergeInputOptions C rawInputOptions s = (Ok (inputOptions, callers), s1) ->
  truthy (prop "inlineDynamicImports" inputOptions) = true ->
  truthy (prop "manualChunks" inputOptions)
  || truthy (prop "optimizeChunks" inputOptions)
  || more_than_one_entry (prop "input" inputOptions) = true ->
  exists e, getInputOptions C rawInputOptions s = (Err e, s1)
            /\ error_code e = Some "INVALID_OPTION"
            /\ rollup C rawInputOptions s = (Returns (Err e), s1).
Proof.
  intros Hmerge Hinline Hbad.
  destruct (checkInputOptions_inlineDynamicImports inputOptions s1
              Hinline Hbad) as (e & He & Hcode).
  assert (Hget : getInputOptions C rawInputOptions s = (Err e, s1)).
  { unfold getInputOptions, bind. rewrite Hmerge. simpl. by rewrite He. }
  exists e. repeat split; [done..|]. by apply rollup_getInputOptions_error.
Qed.

(** Two entries with [inlineDynamicImports]. *)
Lemma inlineDynamicImports_invalid_options_witness :
  exists e,
    getInputOptions Demo.collab
      (JObj [("input", JArr [JStr "x"; JStr "y"]);
             ("inlineDynamicImports", JBool true)])
      (Demo.fresh []) = (Err e, Demo.fresh [])
    /\ error_code e = Some "INVALID_OPTION"
    /\ rollup Demo.collab
         (JObj [("input", JArr [JStr "x"; JStr "y"]);
                ("inlineDynamicImports", JBool true)])
         (Demo.fresh []) = (Returns (Err e), Demo.fresh []).
Proof.
  apply (inlineDynamicImports_invalid_options Demo.collab _
           (JObj [("input", JArr [JStr "x"; JStr "y"]);
                  ("inlineDynamicImports", JBool true);
                  ("plugins", JArr [])]) false).
  - reflexivity.
  - reflexivity.
  - reflexivity.
Defined.

(** C8 as it is stated fails: an empty list of entries does not denote
    exactly one entry, and with [inlineDynamicImports] normalize-input
    accepts it. *)
Lemma inlineDynamicImports_accepts_no_entry :
  exists inputOptions callers s',
    getInputOptions Demo.collab
      (JObj [("input", JArr []); ("inlineDynamicImports", JBool true)])
      (Demo.fresh []) = (Ok (inputOptions, callers), s')
    /\ truthy (prop "inlineDynamicImports" inputOptions) = true
    /\ prop "input" inputOptions = JArr [].
Proof. do 3 eexists. repeat split. Qed.

(** ** [write] without a target *)

(** C9, as the code has it.  [write] called with no output object, or
    with one in which neither [file] nor [dir] is set, throws at the call,
    before it returns any promise, the [MISSING_OPTION] error whose
    message starts with [You must specify output.file]; the state is the
    one before the call: nothing was generated and nothing written. *)
Theorem write_without_target_throws {W CI} (C : Collab W CI)
  (build : RollupBuild) (outputOptions : JSValue) (s : State W CI) :
  truthy outputOptions = false
  \/ (truthy (prop "dir" outputOptions) = false
      /\ truthy (prop "file" outputOptions) = false) ->
  handle_write C build outputOptions s = (Throws missing_option, s)
  /\ error_code missing_option = Some "MISSING_OPTION"
  /\ error_message missing_option
     = Some ("You must specify output.file" ++ " or output.dir for the build.")%string.
Proof.
  intros H. repeat split. unfold handle_write.
  destruct H as [-> | [-> ->]]; [done|].
  by destruct (truthy outputOptions).
Qed.

Lemma write_without_target_throws_witness :
  handle_write Demo.collab (Demo.handle (JObj [("input", JStr "x")]))
    (JObj [("format", JStr "cjs")]) (Demo.built (JStr "x") [])
  = (Throws missing_option, Demo.built (JStr "x") []).
Proof.
  apply (write_without_target_throws Demo.collab).
  right. split; reflexivity.
Defined.

(** C9 as it is stated fails: [write] without an output object returns no
    promise at all, so there is none that rejects. *)
Lemma write_without_options_is_no_rejection :
  ~ exists e,
      fst (handle_write Demo.collab (Demo.handle (JObj [("input", JStr "x")]))
             JUndefined (Demo.built (JStr "x") []))
      = Returns (Err e).
Proof. intros [e He]. discriminate He. Qed.

(** ** Where option errors surface *)

Lemma generate_normalize_error {W CI} (C : Collab W CI)
  (inputOptions rawOutputOptions : JSValue) (isWrite : bool)
  (s s' : State W CI) (e : JSError) :
  normalizeOutputOptions C inputOptions rawOutputOptions
    (Nat.ltb 1 (length (chunks s))) s = (Err e, s') ->
  generate C inputOptions rawOutputOptions isWrite s = (Throws e, s).
Proof.
  intros H.
  pose proof (normalizeOutputOptions_state C inputOptions rawOutputOptions
                (Nat.ltb 1 (length (chunks s))) s) as Hs.
  rewrite H in Hs. simpl in Hs. subst s'.
  unfold generate, promise, generateSync, bind, get. by rewrite H.
Qed.

Lemma rollup_returns {W CI} (C : Collab W CI) (rawInputOptions : JSValue)
  (s : State W CI) :
  exists settled s', rollup C rawInputOptions s = (Returns settled, s').
Proof.
  unfold rollup, try_promise.
  destruct (rollupSync C rawInputOptions s) as [[io|e] s1]; [|by eauto].
  destruct (bind _ _ s1) as [r s2]. eauto.
Qed.

(** C10.  An option error of [generate] on the handle is thrown at the
    call, before any promise is returned: whatever
    [normalizeOutputOptions] throws, so the missing output object, the
    missing [format] and the invalid combinations.  [rollup] alone turns
    the errors of its normalization into a rejected promise, and never
    throws. *)
Theorem option_errors_thrown_by_generate_rejected_by_rollup {W CI}
  (C : Collab W CI) :
  (forall build rawOutputOptions (s s' : State W CI) e,
     normalizeOutputOptions C (build_inputOptions build) rawOutputOptions
       (Nat.ltb 1 (length (chunks s))) s = (Err e, s') ->
     handle_generate C build rawOutputOptions s = (Throws e, s))
  /\ (forall build (s : State W CI),
        handle_generate C build JUndefined s
        = (Throws (PlainError "You must supply an options object"), s))
  /\ (forall build rawOutputOptions (s : State W CI),
        truthy rawOutputOptions = true ->
        optionError
          (c_mergeOptions C
             (consolidatedOutputOptions (build_inputOptions build)
                rawOutputOptions) DeprecateOutput) = None ->
        truthy
          (prop "format"
             (first_output
                (outputOptions
                   (c_mergeOptions C
                      (consolidatedOutputOptions (build_inputOptions build)
                         rawOutputOptions) DeprecateOutput)))) = false ->
        exists e, handle_generate C build rawOutputOptions s = (Throws e, s)
                  /\ error_message e
                     = Some "You must specify output.format, which can be one of 'amd', 'cjs', 'system', 'esm', 'iife' or 'umd'"%string)
  /\ (forall rawInputOptions (s s' : State W CI) e,
        getInputOptions C rawInputOptions s = (Err e, s') ->
        rollup C rawInputOptions s = (Returns (Err e), s'))
  /\ (forall rawInputOptions (s : State W CI) e,
        fst (rollup C rawInputOptions s) <> Throws e).
Proof.
  assert (Hgen : forall build raw (s s' : State W CI) e,
     normalizeOutputOptions C (build_inputOptions build) raw
       (Nat.ltb 1 (length (chunks s))) s = (Err e, s') ->
     handle_generate C build raw s = (Throws e, s)).
  { intros build raw s s' e H. unfold handle_generate, call_then.
    by rewrite (generate_normalize_error _ _ _ _ _ _ _ H). }
  split; [|split; [|split; [|split]]].
  - exact Hgen.
  - intros build s. by apply (Hgen build JUndefined s s).
  - intros build raw s Hraw Hmerge Hformat. eexists. split.
    + apply (Hgen build raw s s).
      unfold normalizeOutputOptions, checkOutputOptions.
      rewrite Hraw, Hmerge. cbv beta iota delta [bind when ret negb].
      destruct (prop "format" _) as [| |b|z|f| | |] eqn:E; try done;
        simpl in Hformat |- *.
      * by rewrite Hformat.
      * by rewrite Hformat.
      * rewrite Hformat. simpl.
        apply negb_false_iff in Hformat.
        apply String.eqb_eq in Hformat. by subst f.
    + reflexivity.
  - intros raw s s' e. apply rollup_getInputOptions_error.
  - intros raw s e H.
    destruct (rollup_returns C raw s) as (r & s' & Hr).
    rewrite Hr in H. discriminate.
Qed.

Lemma option_errors_thrown_by_generate_rejected_by_rollup_witness :
  handle_generate Demo.collab (Demo.handle (JObj [("input", JStr "x")]))
    (JObj [("file", JStr "x")]) (Demo.built (JStr "x") [])
  = (Throws
       (RollupError None
          "You must specify output.format, which can be one of 'amd', 'cjs', 'system', 'esm', 'iife' or 'umd'"
          (Some "https://rollupjs.org/guide/en#output-format-f-format")),
     Demo.built (JStr "x") [])
  /\ rollup Demo.collab JUndefined (Demo.fresh [])
     = (Returns (Err (PlainError "You must supply an options object to rollup")),
        Demo.fresh []).
Proof.
  pose proof (option_errors_thrown_by_generate_rejected_by_rollup Demo.collab)
    as (Hgen & _ & _ & Hrollup & _).
  split.
  - apply (Hgen _ _ _ (Demo.built (JStr "x") [])). reflexivity.
  - apply Hrollup. reflexivity.
Defined.

(** ** Rules for what the steps leave in the state *)

Section Rules.

Context {W CI : Type} (R : State W CI -> State W CI -> Prop).

(** [R] is a preorder that the collaborators' world, the chunks and the
    watcher do not matter to. *)
Hypothesis R_refl : forall s, R s s.
Hypothesis R_trans : forall s1 s2 s3, R s1 s2 -> R s2 s3 -> R s1 s3.
Hypothesis R_world : forall s w, R s (set_world w s).
Hypothesis R_chunks : forall s cs, R s (set_chunks cs s).
Hypothesis R_watcher : forall s x, R s (set_curWatcher x s).

Local Abbreviation St := (State W CI).

Lemma respects_ret {A} (a : A) : respects R (ret (S := St) a).
Proof using R_refl. intros s r s' [= <- <-]. apply R_refl. Qed.

Lemma respects_throw {A} (e : JSError) :
  respects R (throw (S := St) (A := A) e).
Proof using R_refl. intros s r s' [= <- <-]. apply R_refl. Qed.

Lemma respects_invalid_option {A} message :
  respects R (invalid_option (S := St) (A := A) message).
Proof using R_refl. apply respects_throw. Qed.

Lemma respects_get : respects R (get (S := St)).
Proof using R_refl. intros s r s' [= <- <-]. apply R_refl. Qed.

Lemma respects_liftRes {A} (r : Res A) :
  respects R (liftRes (W := W) (CI := CI) r).
Proof using R_refl. intros s r' s' [= <- <-]. apply R_refl. Qed.

Lemma respects_call {A} (f : W -> Res A * W) :
  respects R (call (CI := CI) f).
Proof using R_world.
  intros s r s'. unfold call.
  destruct (f (world s)) as [r' w]. intros [= <- <-]. apply R_world.
Qed.

Lemma respects_modify (f : St -> St) :
  (forall s, R s (f s)) -> respects R (modify f).
Proof using Type. intros Hf s r s' [= <- <-]. apply Hf. Qed.

Lemma respects_emit (e : Event) :
  (forall s, R s (add_log e s)) -> respects R (emit e).
Proof using Type. apply respects_modify. Qed.

Lemma respects_set_chunk (i : nat) (c : Chunk CI) :
  respects R (modify (set_chunk (W := W) i c)).
Proof using R_chunks. apply respects_modify. intros s. apply R_chunks. Qed.

Lemma respects_then2 {A B} (m : M St A) (f : A -> M St B)
  (g : JSError -> M St B) :
  respects R m -> (forall a, respects R (f a)) ->
  (forall e, respects R (g e)) -> respects R (then2 m f g).
Proof using R_trans.
  intros Hm Hf Hg s r s'. unfold then2.
  destruct (m s) as [[a|e] s1] eqn:E1; intros E2;
    (eapply R_trans; [by eapply Hm|]); [by eapply Hf | by eapply Hg].
Qed.

Lemma respects_bind {A B} (m : M St A) (k : A -> M St B) :
  respects R m -> (forall a, respects R (k a)) -> respects R (bind m k).
Proof using R_refl R_trans.
  intros Hm Hk. change (bind m k) with (then2 m k (fun e => throw e)).
  apply respects_then2; [done..|]. intros e. apply respects_throw.
Qed.

Lemma respects_catch {A} (m : M St A) (g : JSError -> M St A) :
  respects R m -> (forall e, respects R (g e)) -> respects R (catch m g).
Proof using R_refl R_trans.
  intros Hm Hg. apply respects_then2; [done| |done]. apply respects_ret.
Qed.

Lemma respects_when (b : bool) (m : M St unit) :
  respects R m -> respects R (when b m).
Proof using R_refl. destruct b; [done|]. intros _. apply respects_ret. Qed.

Lemma respects_started {A} (m : M St A) :
  respects R m -> respects R (started m).
Proof using Type.
  intros Hm s r s'. unfold started.
  destruct (m s) as [r1 s1] eqn:E. intros [= <- <-]. by eapply Hm.
Qed.

Lemma respects_withChunk {A} (i : nat) (d : A) (k : Chunk CI -> M St A) :
  (forall c, respects R (k c)) -> respects R (withChunk i d k).
Proof using R_refl R_trans.
  intros Hk. apply respects_bind; [apply respects_get|].
  intros s. destruct (chunks s !! i); [apply Hk | apply respects_ret].
Qed.

Lemma respects_mutChunk (i : nat) (f : Chunk CI -> W -> Res (Chunk CI) * W) :
  respects R (mutChunk i f).
Proof using R_refl R_trans R_world R_chunks.
  apply respects_withChunk. intros c.
  apply respects_bind; [apply respects_call|]. intros c'.
  apply respects_set_chunk.
Qed.

Lemma respects_forRange (n from : nat) (body : nat -> M St unit) :
  (forall i, respects R (body i)) -> respects R (forRange n from body).
Proof using R_refl R_trans.
  intros Hb. revert from. induction n as [|n IH]; intros from; simpl.
  - apply respects_ret.
  - apply respects_bind; [apply Hb|]. intros _. apply IH.
Qed.

Lemma respects_forEachChunk (body : nat -> M St unit) :
  (forall i, respects R (body i)) -> respects R (forEachChunk body).
Proof using R_refl R_trans.
  intros Hb. apply respects_bind; [apply respects_get|]. intros s.
  by apply respects_forRange.
Qed.

Lemma respects_foldRange {A} (n from : nat) (body : nat -> A -> M St A)
  (acc : A) :
  (forall i a, respects R (body i a)) ->
  respects R (foldRange n from body acc).
Proof using R_refl R_trans.
  intros Hb. revert from acc. induction n as [|n IH]; intros from acc; simpl.
  - apply respects_ret.
  - apply respects_bind; [apply Hb|]. intros acc'. apply IH.
Qed.

Lemma respects_foldChunks {A} (body : nat -> A -> M St A) (acc : A) :
  (forall i a, respects R (body i a)) -> respects R (foldChunks body acc).
Proof using R_refl R_trans.
  intros Hb. apply respects_bind; [apply respects_get|]. intros s.
  by apply respects_foldRange.
Qed.

Lemma respects_renderAll (n from : nat)
  (render : nat -> OutputBundle -> M St OutputBundle) (b : OutputBundle) :
  (forall i a, respects R (render i a)) ->
  respects R (renderAll n from render b).
Proof using R_refl R_trans.
  intros Hr. revert from b. induction n as [|n IH]; intros from b; simpl.
  - apply respects_ret.
  - intros s r s'.
    destruct (render from b s) as [[b1|e] s1] eqn:E1.
    + intros E2. eapply R_trans; [by eapply Hr | by eapply IH].
    + destruct (renderAll n (S from) render b s1) as [r2 s2] eqn:E2.
      intros [= <- <-]. simpl.
      eapply R_trans; [by eapply Hr | by eapply IH].
Qed.

Lemma respects_promise_all (ps : list (M St unit)) :
  Forall (respects R) ps -> respects R (promise_all ps).
Proof using R_refl R_trans.
  induction 1 as [|p ps Hp _ IH]; simpl.
  - apply respects_ret.
  - intros s r s'.
    destruct (p s) as [[[]|e] s1] eqn:E1.
    + intros E2. eapply R_trans; [by eapply Hp | by eapply IH].
    + destruct (promise_all ps s1) as [r2 s2] eqn:E2.
      intros [= <- <-]. simpl.
      eapply R_trans; [by eapply Hp | by eapply IH].
Qed.

End Rules.

(** ** What [generate] leaves in the state *)

Section GenerateRules.

Context {W CI : Type} (C : Collab W CI).
Context (R : State W CI -> State W CI -> Prop).

Hypothesis R_refl : forall s, R s s.
Hypothesis R_trans : forall s1 s2 s3, R s1 s2 -> R s2 s3 -> R s1 s3.
Hypothesis R_world : forall s w, R s (set_world w s).
Hypothesis R_chunks : forall s cs, R s (set_chunks cs s).

(** [R] lets through every event but the optimizer's and the dispatch of
    [renderError], and it lets through the optimization step. *)
Hypothesis R_emit : forall e s,
  is_optimize e = false -> is_hook "renderError" e = false ->
  R s (add_log e s).
Hypothesis R_optimize : forall inputOptions outputOptions inputBase,
  respects R (optimizeStep C inputOptions outputOptions inputBase).

Local Abbreviation St := (State W CI).

(** One rule at the head of a goal [respects R m]. *)
Ltac respects_step :=
  lazymatch goal with
  | |- forall _, _ => intro
  | |- respects _ (bind _ _) => apply respects_bind; [assumption..| |]
  | |- respects _ (when _ _) => apply respects_when; [assumption|]
  | |- respects _ (withChunk _ _ _) =>
      apply respects_withChunk; [assumption..|]
  | |- respects _ (forEachChunk _) =>
      apply respects_forEachChunk; [assumption..|]
  | |- respects _ (foldChunks _ _) =>
      apply respects_foldChunks; [assumption..|]
  | |- respects _ (ret _) => apply respects_ret; assumption
  | |- respects _ (throw _) => apply respects_throw; assumption
  | |- respects _ (invalid_option _) =>
      apply respects_invalid_option; assumption
  | |- respects _ get => apply respects_get; assumption
  | |- respects _ (liftRes _) => apply respects_liftRes; assumption
  | |- respects _ (call _) => apply respects_call; assumption
  | |- respects _ (modify (set_chunk _ _)) =>
      apply respects_set_chunk; assumption
  | |- respects _ (mutChunk _ _) => apply respects_mutChunk; assumption
  | |- respects _ (emit _) =>
      apply respects_emit; intros ?; apply R_emit; reflexivity
  end.

Lemma hookParallel_respects (hook : string) (args : HookArgs) :
  String.eqb hook "renderError" = false ->
  respects R (hookParallel C hook args).
Proof using R_emit R_refl R_trans R_world.
  intros Hh. unfold hookParallel.
  apply respects_bind; [done..| |intros ?; by apply respects_call].
  apply respects_emit. intros s. by apply R_emit.
Qed.

Lemma normalizeOutputOptions_respects (inputOptions raw : JSValue)
  (multi : bool) :
  respects R (normalizeOutputOptions C inputOptions raw multi).
Proof using R_refl.
  intros s r s' H.
  pose proof (normalizeOutputOptions_state C inputOptions raw multi s) as Hs.
  rewrite H in Hs. simpl in Hs. subst s'. apply R_refl.
Qed.

Lemma generateSync_respects (inputOptions raw : JSValue) :
  respects R (generateSync C inputOptions raw).
Proof using R_refl R_trans R_world.
  unfold generateSync.
  respects_step; [respects_step|]. intros s.
  respects_step; [apply normalizeOutputOptions_respects|].
  repeat respects_step.
Qed.

Lemma nameChunk_respects inputOptions outputOptions inputBase addons i used :
  respects R (nameChunk C inputOptions outputOptions inputBase addons i used).
Proof using R_emit R_refl R_trans R_world R_chunks.
  unfold nameChunk. respects_step. intros c.
  destruct (truthy (prop "file" outputOptions)); [repeat respects_step|].
  destruct (truthy (prop "preserveModules" inputOptions));
    [repeat respects_step|].
  destruct (namingPattern outputOptions c). repeat respects_step.
Qed.

Lemma renderChunk_respects outputOptions addons i bundle :
  respects R (renderChunk C outputOptions addons i bundle).
Proof using R_emit R_refl R_trans R_world.
  unfold renderChunk. respects_step. intros c.
  destruct (obj_lookup (id c) bundle) as [[oc|a]|]; [|respects_step..].
  respects_step; [respects_step|]. intros rendered.
  respects_step; [by apply hookParallel_respects|]. repeat respects_step.
Qed.

Lemma renderStep_respects inputOptions outputOptions inputBase bundle addons :
  respects R (renderStep C inputOptions outputOptions inputBase bundle addons).
Proof using R_emit R_optimize R_refl R_trans R_world R_chunks.
  unfold renderStep.
  respects_step. { unfold preRenderExports. repeat respects_step. }
  intros _. respects_step. { repeat respects_step. }
  intros _. respects_step. { apply R_optimize. }
  intros _. respects_step.
  { unfold nameChunks. respects_step. intros i used.
    apply nameChunk_respects. }
  intros _. respects_step. { unfold assignChunk. repeat respects_step. }
  intros bundle1. respects_step; [respects_step|]. intros s.
  apply respects_renderAll; [done..|]. intros i b.
  apply renderChunk_respects.
Qed.

Lemma generateGuarded_respects inputOptions outputOptions inputBase bundle :
  respects R (generateGuarded C inputOptions outputOptions inputBase bundle).
Proof using R_emit R_optimize R_refl R_trans R_world R_chunks.
  unfold generateGuarded.
  respects_step; [by apply hookParallel_respects|]. intros _.
  respects_step; [respects_step|]. intros addons.
  apply renderStep_respects.
Qed.

Lemma finaliseRemaining_respects assets assetFileNames bundle :
  respects R (finaliseRemaining C assets assetFileNames bundle).
Proof using R_refl R_trans R_world.
  revert bundle. induction assets as [|a assets IH]; intros bundle; simpl.
  - respects_step.
  - respects_step; [|intros b; apply IH].
    destruct (asset_fileName a); respects_step.
Qed.

Lemma generateBundleStep_respects outputOptions assetFileNames isWrite bundle :
  respects R (generateBundleStep C outputOptions assetFileNames isWrite bundle).
Proof using R_emit R_refl R_trans R_world.
  unfold generateBundleStep.
  respects_step; [respects_step|]. intros s.
  respects_step; [respects_step|]. intros _.
  respects_step; [respects_step|]. intros r.
  apply finaliseRemaining_respects.
Qed.

(** With the dispatch of [renderError] let through as well, every call of
    [generate] respects [R]. *)
Lemma generate_respects inputOptions raw isWrite :
  (forall args s, R s (add_log (EvHookParallel "renderError" args) s)) ->
  respects_calls R (generate C inputOptions raw isWrite).
Proof using R_emit R_optimize R_refl R_trans R_world R_chunks.
  intros R_renderError s r s'. unfold generate, promise.
  destruct (generateSync C inputOptions raw s) as [[x|e] s1] eqn:E1.
  - destruct (generateChain C inputOptions isWrite x s1) as [r2 s2] eqn:E2.
    intros [= <- <-]. eapply R_trans; [by eapply generateSync_respects|].
    revert E2. destruct x as [[[out afn] bundle] base]. unfold generateChain.
    apply respects_bind; [done..| |].
    + apply respects_catch; [done..|apply generateGuarded_respects|].
      intros e. respects_step; [|intros _; respects_step].
      unfold hookParallel. respects_step; [|intros _; respects_step].
      apply respects_emit, R_renderError.
    + intros b. apply generateBundleStep_respects.
  - intros [= <- <-]. by eapply generateSync_respects.
Qed.

End GenerateRules.

(** ** The two relations the claims need *)

Section Extends.

Context {W CI : Type} (P : Event -> Prop).

Local Abbreviation St := (State W CI).

Lemma extends_refl (s : St) : extends P s s.
Proof. exists []. by rewrite app_nil_r. Qed.

Lemma extends_trans (s1 s2 s3 : St) :
  extends P s1 s2 -> extends P s2 s3 -> extends P s1 s3.
Proof.
  intros (l1 & H1 & HP1) (l2 & H2 & HP2). exists (l1 ++ l2).
  split; [by rewrite H2, H1, app_assoc | by apply Forall_app].
Qed.

Lemma extends_same_log (s s' : St) : log s' = log s -> extends P s s'.
Proof. intros H. exists []. by rewrite app_nil_r. Qed.

Lemma extends_add_log (e : Event) (s : St) : P e -> extends P s (add_log e s).
Proof. intros He. exists [e]. split; [done | by constructor]. Qed.

End Extends.

(** An extension by events that are no dispatch of [hook] leaves the
    dispatches of [hook] as they were. *)
Lemma extends_dispatches {W CI} (hook : string) (s s' : State W CI) :
  extends (fun e => is_hook hook e = false) s s' ->
  dispatches hook (log s') = dispatches hook (log s).
Proof.
  intros (l & -> & Hl). unfold dispatches.
  rewrite List.filter_app.
  replace (List.filter (is_hook hook) l) with (@nil Event);
    [by rewrite app_nil_r|].
  induction Hl as [|e l He _ IH]; [done|]. simpl. by rewrite He.
Qed.

Lemma optimizer_calls_app (l1 l2 : list Event) :
  optimizer_calls (l1 ++ l2) = optimizer_calls l1 + optimizer_calls l2.
Proof. unfold optimizer_calls. by rewrite List.filter_app, length_app. Qed.

Lemma optimizer_passes_app (l1 l2 : list Event) :
  optimizer_passes (l1 ++ l2) = optimizer_passes l1 + optimizer_passes l2.
Proof. unfold optimizer_passes. by rewrite List.filter_app, length_app. Qed.

Lemma optimizer_passes_le_calls (l : list Event) :
  optimizer_passes l <= optimizer_calls l.
Proof.
  unfold optimizer_passes, optimizer_calls.
  induction l as [|e l IH]; [done|]. simpl.
  destruct e as [| | | |[]| |]; simpl; lia.
Qed.

Section OptimizesOnce.

Context {W CI : Type}.

Local Abbreviation St := (State W CI).

Lemma optimizes_once_same (s s' : St) :
  log s' = log s -> optimized s' = optimized s -> optimizes_once s s'.
Proof.
  intros Hl Ho. exists []. rewrite app_nil_r.
  split; [done|]. rewrite Ho. split; [done|]. intros ->. by left.
Qed.

Lemma optimizes_once_refl (s : St) : optimizes_once s s.
Proof. by apply optimizes_once_same. Qed.

Lemma optimizes_once_trans (s1 s2 s3 : St) :
  optimizes_once s1 s2 -> optimizes_once s2 s3 -> optimizes_once s1 s3.
Proof.
  intros (l1 & H1 & Ht1 & Hf1) (l2 & H2 & Ht2 & Hf2). exists (l1 ++ l2).
  split; [by rewrite H2, H1, app_assoc|].
  rewrite optimizer_calls_app, optimizer_passes_app. split.
  - intros Ho. destruct (Ht1 Ho) as [Ho2 Hc1].
    destruct (Ht2 Ho2) as [Ho3 Hc2]. split; [done | lia].
  - intros Ho. destruct (Hf1 Ho) as [[Ho2 Hp1] | [Ho2 Hp1]].
    + destruct (Hf2 Ho2) as [[Ho3 Hp2] | [Ho3 Hp2]];
        [left | right]; (split; [done | lia]).
    + destruct (Ht2 Ho2) as [Ho3 Hc2].
      pose proof (optimizer_passes_le_calls l2).
      right. split; [done | lia].
Qed.

Lemma optimizes_once_add_log (e : Event) (s : St) :
  is_optimize e = false -> optimizes_once s (add_log e s).
Proof.
  intros He. exists [e]. split; [done|].
  assert (Hp : is_optimized e = false) by by destruct e as [| | | |[]| |].
  unfold optimizer_calls, optimizer_passes. simpl. rewrite He, Hp. simpl.
  split; [done|]. intros ->. by left.
Qed.

Lemma optimizeStep_optimizes_once (C : Collab W CI)
  (inputOptions outputOptions : JSValue) (inputBase : string) :
  respects optimizes_once (optimizeStep C inputOptions outputOptions inputBase).
Proof.
  intros s r s'. unfold optimizeStep, bind, get.
  destruct (optimized s) eqn:Ho; simpl.
  { intros [= <- <-]. apply optimizes_once_refl. }
  destruct (truthy (prop "optimizeChunks" inputOptions)); simpl;
    [|intros [= <- <-]; apply optimizes_once_refl].
  unfold then2, call.
  destruct (c_optimizeChunks C _ _ _ _ _) as [[cs|e] w]; intros [= <- <-].
  - exists [EvOptimizeChunks true]. split; [done|].
    split; [by rewrite Ho | intros _; by right].
  - exists [EvOptimizeChunks false]. split; [done|].
    split; [by rewrite Ho | intros _; by left].
Qed.

Lemma generate_optimizes_once (C : Collab W CI)
  (inputOptions rawOutputOptions : JSValue) (isWrite : bool) :
  respects_calls optimizes_once
    (generate C inputOptions rawOutputOptions isWrite).
Proof.
  apply generate_respects.
  - apply optimizes_once_refl.
  - apply optimizes_once_trans.
  - intros s w. by apply optimizes_once_same.
  - intros s cs. by apply optimizes_once_same.
  - intros e s He _. by apply optimizes_once_add_log.
  - apply optimizeStep_optimizes_once.
  - intros args s. by apply optimizes_once_add_log.
Qed.

Lemma run_generates_optimizes_once (C : Collab W CI) (inputOptions : JSValue)
  (calls : list (JSValue * bool)) (s : St) :
  optimizes_once s (run_generates C inputOptions calls s).
Proof.
  revert s. induction calls as [|[raw isWrite] calls IH]; intros s; simpl.
  - apply optimizes_once_refl.
  - eapply optimizes_once_trans; [|apply IH].
    eapply generate_optimizes_once. apply surjective_pairing.
Qed.

End OptimizesOnce.

(** ** The optimization pass of a handle *)

(** C5, as the code has it.  Over any sequence of calls of [generate] on
    one handle, for output or for writing: when the sequence starts with
    the flag [optimized] set the optimizer is never called and the flag
    stays set; when it starts with the flag unset the optimizer returns at
    most once, and it has returned exactly when the flag is set at the end.
    A call that reaches the optimization step with the flag unset and
    [optimizeChunks] requested calls the optimizer and, when the optimizer
    returns, sets the flag.  (A call that fails before the step, or in
    which the optimizer throws, leaves the flag unset.) *)
Theorem optimizer_returns_once_per_handle {W CI} (C : Collab W CI)
  (inputOptions : JSValue) (calls : list (JSValue * bool))
  (s : State W CI) :
  (exists l,
     log (run_generates C inputOptions calls s) = log s ++ l
     /\ (optimized s = true ->
         optimized (run_generates C inputOptions calls s) = true
         /\ optimizer_calls l = 0)
     /\ (optimized s = false ->
         optimizer_passes l <= 1
         /\ (optimizer_passes l = 1 <->
             optimized (run_generates C inputOptions calls s) = true)))
  /\ (forall outputOptions inputBase chunks' w',
        optimized s = false ->
        truthy (prop "optimizeChunks" inputOptions) = true ->
        c_optimizeChunks C (chunks s) outputOptions
          (prop "chunkGroupingSize" inputOptions) inputBase (world s)
        = (Ok chunks', w') ->
        optimizeStep C inputOptions outputOptions inputBase s
        = (Ok tt,
           mkState w' (log s ++ [EvOptimizeChunks true]) (curWatcher s)
             chunks' true)).
Proof.
  split.
  - destruct (run_generates_optimizes_once C inputOptions calls s)
      as (l & Hl & Ht & Hf).
    exists l. split; [done|]. split; [done|].
    intros Ho. destruct (Hf Ho) as [[Ho' Hp] | [Ho' Hp]]; rewrite Ho', Hp.
    + split; [lia|]. split; [lia | done].
    + split; [lia|]. done.
  - intros out base cs' w' Ho Hreq Hopt.
    unfold optimizeStep, bind, get, then2, call, when.
    rewrite Ho, Hreq. simpl. by rewrite Hopt.
Qed.

(** Two calls of [generate] on a handle whose input asks for
    [optimizeChunks]. *)
Lemma optimizer_returns_once_per_handle_witness :
  optimizer_passes
    (log (run_generates Demo.collab
            (JObj [("input", JStr "x"); ("optimizeChunks", JBool true)])
            [(JObj [("format", JStr "es")], false);
             (JObj [("format", JStr "es")], false)]
            (Demo.built (JStr "x") []))) <= 1.
Proof.
  destruct (optimizer_returns_once_per_handle Demo.collab
              (JObj [("input", JStr "x"); ("optimizeChunks", JBool true)])
              [(JObj [("format", JStr "es")], false);
               (JObj [("format", JStr "es")], false)]
              (Demo.built (JStr "x") [])) as [(l & Hl & _ & Hf) _].
  rewrite Hl. simpl. apply Hf. reflexivity.
Defined.

(** C5 as it is stated fails: the first call of [generate] on a handle
    that asks for [optimizeChunks] is rejected by [renderStart], so it
    neither optimizes nor sets the flag, and the later call does not skip
    the optimization. *)
Lemma first_generate_may_not_optimize :
  let inputOptions :=
    JObj [("input", JStr "x"); ("optimizeChunks", JBool true)] in
  let raw := JObj [("format", JStr "es")] in
  let s0 := Demo.built (JStr "x") ["renderStart"] in
  let first := generate Demo.collab inputOptions raw false s0 in
  let later := generate Demo.collab inputOptions raw false (snd first) in
  fst first = Returns (Err (Foreign 4))
  /\ optimizer_calls (log (snd first)) = 0
  /\ optimized (snd first) = false
  /\ optimizer_calls (log (snd later)) = 1
  /\ optimized (snd later) = true.
Proof. vm_compute. repeat split. Qed.

(** And an optimizer that throws in the first call is called again by the
    next one. *)
Example throwing_optimizer_is_called_again :
  let inputOptions :=
    JObj [("input", JStr "x"); ("optimizeChunks", JBool true)] in
  let raw := JObj [("format", JStr "es")] in
  optimizer_calls
    (log (run_generates Demo.collab inputOptions [(raw, false); (raw, false)]
            (Demo.built (JStr "x") ["optimizeChunks"]))) = 2.
Proof. vm_compute. reflexivity. Qed.

(** ** The hooks that run on a failure *)

Section NoRenderError.

Context {W CI : Type} (C : Collab W CI).

(** No dispatch of [renderError]. *)
Local Abbreviation quiet :=
  (extends (W := W) (CI := CI) (fun e => is_hook "renderError" e = false)).

Lemma optimizeStep_quiet inputOptions outputOptions inputBase :
  respects quiet (optimizeStep C inputOptions outputOptions inputBase).
Proof.
  intros s r s'. unfold optimizeStep, bind, get, when.
  destruct (negb (optimized s) && truthy (prop "optimizeChunks" inputOptions));
    [|intros [= <- <-]; apply extends_refl].
  unfold then2, call.
  destruct (c_optimizeChunks C _ _ _ _ _) as [[cs|e] w]; intros [= <- <-].
  - by exists [EvOptimizeChunks true]; split; [|repeat constructor].
  - by exists [EvOptimizeChunks false]; split; [|repeat constructor].
Qed.

Lemma generateSync_quiet inputOptions raw :
  respects quiet (generateSync C inputOptions raw).
Proof.
  apply generateSync_respects.
  - apply extends_refl.
  - apply extends_trans.
  - intros s w. by apply extends_same_log.
Qed.

Lemma generateGuarded_quiet inputOptions outputOptions inputBase bundle :
  respects quiet
    (generateGuarded C inputOptions outputOptions inputBase bundle).
Proof.
  apply generateGuarded_respects.
  - apply extends_refl.
  - apply extends_trans.
  - intros s w. by apply extends_same_log.
  - intros s cs. by apply extends_same_log.
  - intros e s _ He. by apply extends_add_log.
  - apply optimizeStep_quiet.
Qed.

Lemma generateBundleStep_quiet outputOptions assetFileNames isWrite bundle :
  respects quiet
    (generateBundleStep C outputOptions assetFileNames isWrite bundle).
Proof.
  apply generateBundleStep_respects.
  - apply extends_refl.
  - apply extends_trans.
  - intros s w. by apply extends_same_log.
  - intros e s _ He. by apply extends_add_log.
Qed.

End NoRenderError.

(** C4, as the code has it.  The failures that [renderError] answers are
    those of the guarded part of the chain, from [renderStart] to the
    renders and [ongenerate]: for such a failure [renderError] is
    dispatched once, with that error, as the last thing [generate] does,
    and the promise rejects with the very same error when the dispatch
    succeeds, with the error of the dispatch when it fails.  What
    [generate] throws before its chain (normalize-output, the assets of
    the graph) and what fails once the guarded part has succeeded (in
    [generateBundle] or after it) dispatches no [renderError]. *)
Theorem renderError_answers_the_guarded_failures {W CI} (C : Collab W CI)
  (inputOptions rawOutputOptions : JSValue) (isWrite : bool)
  (s : State W CI) :
  (forall outputOptions assetFileNames outputBundle inputBase s1 e s2,
     generateSync C inputOptions rawOutputOptions s
     = (Ok (outputOptions, assetFileNames, outputBundle, inputBase), s1) ->
     generateGuarded C inputOptions outputOptions inputBase outputBundle s1
     = (Err e, s2) ->
     let dispatch := EvHookParallel "renderError" (ArgError e) in
     let answer := c_hookParallel C "renderError" (ArgError e) (world s2) in
     generate C inputOptions rawOutputOptions isWrite s
     = (Returns (Err (match fst answer with Ok _ => e | Err e' => e' end)),
        set_world (snd answer) (add_log dispatch s2))
     /\ dispatches "renderError" (log (add_log dispatch s2))
        = dispatches "renderError" (log s) ++ [dispatch])
  /\ (forall e s1,
        generateSync C inputOptions rawOutputOptions s = (Err e, s1) ->
        generate C inputOptions rawOutputOptions isWrite s = (Throws e, s1)
        /\ dispatches "renderError" (log s1)
           = dispatches "renderError" (log s))
  /\ (forall outputOptions assetFileNames outputBundle inputBase s1
        bundle1 s2,
        generateSync C inputOptions rawOutputOptions s
        = (Ok (outputOptions, assetFileNames, outputBundle, inputBase), s1) ->
        generateGuarded C inputOptions outputOptions inputBase outputBundle s1
        = (Ok bundle1, s2) ->
        let rest :=
          generateBundleStep C outputOptions assetFileNames isWrite bundle1 s2
        in
        generate C inputOptions rawOutputOptions isWrite s
        = (Returns (fst rest), snd rest)
        /\ dispatches "renderError" (log (snd rest))
           = dispatches "renderError" (log s)).
Proof.
  split; [|split].
  - intros out afn bundle base s1 e s2 Hsync Hguard dispatch answer.
    split.
    + unfold generate, promise. rewrite Hsync.
      unfold generateChain, bind, catch, then2. rewrite Hguard.
      unfold hookParallel, bind, emit, modify, call, throw. simpl.
      fold answer. by destruct answer as [[[]|e'] w].
    + assert (Hq : dispatches "renderError" (log s2)
                   = dispatches "renderError" (log s)).
      { apply extends_dispatches.
        eapply extends_trans; [by eapply generateSync_quiet|].
        by eapply generateGuarded_quiet. }
      unfold dispatches in *. simpl. by rewrite List.filter_app, Hq.
  - intros e s1 Hsync. split.
    + unfold generate, promise. by rewrite Hsync.
    + apply extends_dispatches. by eapply generateSync_quiet.
  - intros out afn bundle base s1 bundle1 s2 Hsync Hguard rest. split.
    + unfold generate, promise. rewrite Hsync.
      unfold generateChain, bind, catch, then2. rewrite Hguard.
      unfold ret. subst rest. by destruct (generateBundleStep _ _ _ _ _ _).
    + apply extends_dispatches.
      eapply extends_trans; [by eapply generateSync_quiet|].
      eapply extends_trans; [by eapply generateGuarded_quiet|].
      eapply generateBundleStep_quiet. apply surjective_pairing.
Qed.

(** [renderStart] rejects: [renderError] gets the error and the promise
    rejects with it. *)
Lemma renderError_answers_the_guarded_failures_witness :
  let s := Demo.built (JStr "x") ["renderStart"] in
  let r := generate Demo.collab (JObj [("input", JStr "x")])
             (JObj [("format", JStr "es")]) false s in
  fst r = Returns (Err (Foreign 4))
  /\ dispatches "renderError" (log (snd r))
     = [EvHookParallel "renderError" (ArgError (Foreign 4))].
Proof.
  destruct (renderError_answers_the_guarded_failures Demo.collab
              (JObj [("input", JStr "x")]) (JObj [("format", JStr "es")])
              false (Demo.built (JStr "x") ["renderStart"]))
    as [Hguarded _].
  destruct (Hguarded (JObj [("format", JStr "es")])
              (JStr "assets/[name]-[hash][extname]") [] ""
              (Demo.built (JStr "x") ["renderStart"]) (Foreign 4)
              (add_log (EvHookParallel "renderStart" NoArgs)
                 (Demo.built (JStr "x") [])))
    as [Hgen Hdisp]; [reflexivity..|].
  cbv zeta. rewrite Hgen. split; [reflexivity | exact Hdisp].
Defined.

(** C4 as it is stated fails: the assets of the graph cannot be
    finalised, a failure of [generate] before [generateBundle], and
    [renderError] is not dispatched. *)
Lemma failure_before_the_chain_skips_renderError :
  let r := generate Demo.collab (JObj [("input", JStr "x")])
             (JObj [("format", JStr "es")]) false
             (Demo.built (JStr "x") ["finaliseAssets"]) in
  fst r = Throws (Foreign 9)
  /\ dispatches "renderError" (log (snd r)) = []
  /\ dispatches "generateBundle" (log (snd r)) = [].
Proof. vm_compute. repeat split. Qed.

Section RollupSync.

Context {W CI : Type} (C : Collab W CI).
Context (R : State W CI -> State W CI -> Prop).

Hypothesis R_refl : forall s, R s s.
Hypothesis R_trans : forall s1 s2 s3, R s1 s2 -> R s2 s3 -> R s1 s3.
Hypothesis R_world : forall s w, R s (set_world w s).
Hypothesis R_watcher : forall s x, R s (set_curWatcher x s).
Hypothesis R_warn : forall code message s,
  R s (add_log (EvWarn code message) s).

Lemma multipleInputs_state {S} (input : JSValue) (s : S) :
  snd (multipleInputs input s) = s.
Proof using Type.
  unfold multipleInputs, Object_keys_of, bind, ret, throw.
  destruct input as [| | | | |l|o|]; simpl; try done.
  by destruct (1 <? length l)%nat.
Qed.

Lemma checkInputOptions_state {S} (inputOptions : JSValue) (s : S) :
  snd (checkInputOptions inputOptions s) = s.
Proof using Type.
  unfold checkInputOptions.
  pose proof (multipleInputs_state (prop "input" inputOptions) s) as Hm.
  destruct (multipleInputs (prop "input" inputOptions) s) as [[b|e] s1] eqn:E;
    simpl in Hm; subst s1;
    cbv beta iota delta [bind when ret throw error invalid_option];
    repeat match goal with
           | |- context [if ?b then _ else _] => destruct b eqn:?
           end;
    cbv beta iota delta [bind when ret throw error invalid_option];
    rewrite ?E; try done;
    repeat match goal with
           | |- context [if ?b then _ else _] => destruct b eqn:?
           end; done.
Qed.

Lemma reduce_plugins_respects (plugins : list JSValue)
  (acc : JSValue * bool) :
  respects R (reduce_plugins C plugins acc).
Proof using R_refl R_trans R_world.
  revert acc. induction plugins as [|p plugins IH]; intros acc; simpl.
  - by apply respects_ret.
  - apply respects_bind; [done..| |intros acc'; apply IH].
    unfold applyOptionHook. destruct (truthy (prop "options" p)).
    + apply respects_bind; [done..|by apply respects_call|].
      intros r. by apply respects_ret.
    + by apply respects_ret.
Qed.

Lemma rollupSync_respects (rawInputOptions : JSValue) :
  respects R (rollupSync C rawInputOptions).
Proof using R_refl R_trans R_world R_watcher R_warn.
  unfold rollupSync.
  apply respects_bind; [done..| |].
  - unfold getInputOptions. apply respects_bind; [done..| |].
    + unfold mergeInputOptions. apply respects_bind; [done..| |].
      * apply respects_when; [done|]. by apply respects_throw.
      * intros _. apply respects_bind; [done..| |].
        -- destruct (optionError _); [|by apply respects_ret].
           apply respects_when; [done|].
           apply respects_bind; [done..| |].
           ++ apply respects_emit. intros ?. apply R_warn.
           ++ intros _. by apply respects_call.
        -- intros _. apply reduce_plugins_respects.
    + intros io. apply respects_bind; [done..| |].
      * intros s0 r s' H.
        pose proof (checkInputOptions_state (fst io) s0) as Hs.
        rewrite H in Hs. simpl in Hs. subst s'. apply R_refl.
      * intros _. by apply respects_ret.
  - intros io. apply respects_bind; [done..|by apply respects_get|].
    intros s0. apply respects_bind; [done..|by apply respects_call|].
    intros _. apply respects_bind; [done..| |].
    + apply respects_modify. intros s1. apply R_watcher.
    + intros _. by apply respects_ret.
Qed.

End RollupSync.

(** C3.  When the build of the graph fails, [buildEnd] is dispatched
    once, with the error of the build, after the build and as the last
    thing [rollup] does; the promise of [rollup] then rejects with that
    error, or, when the dispatch of [buildEnd] fails itself, with the
    error of the dispatch. *)
Theorem build_failure_dispatches_buildEnd {W CI} (C : Collab W CI)
  (rawInputOptions inputOptions : JSValue) (callers : bool)
  (s s1 : State W CI) (w2 w3 : W) (err : JSError) :
  rollupSync C rawInputOptions s = (Ok (inputOptions, callers), s1) ->
  c_hookParallel C "buildStart" NoArgs (world s1) = (Ok tt, w2) ->
  c_build C (prop "input" inputOptions) (prop "manualChunks" inputOptions)
    (prop "inlineDynamicImports" inputOptions)
    (prop "preserveModules" inputOptions) w2 = (Err err, w3) ->
  let dispatch := EvHookParallel "buildEnd" (ArgError err) in
  let answer := c_hookParallel C "buildEnd" (ArgError err) w3 in
  let record :=
    log s1 ++ [EvHookParallel "buildStart" NoArgs; EvGraphBuild; dispatch] in
  rollup C rawInputOptions s
  = (Returns (Err (match fst answer with Ok _ => err | Err e' => e' end)),
     mkState (snd answer) record (curWatcher s1) (chunks s1) (optimized s1))
  /\ dispatches "buildEnd" record
     = dispatches "buildEnd" (log s) ++ [dispatch].
Proof.
  intros Hsync Hstart Hbuild dispatch answer record. split.
  - unfold rollup, try_promise. rewrite Hsync.
    unfold bind, buildChain, then2, hookParallel, bind, emit, modify, call,
      throw. simpl.
    rewrite Hstart. simpl. rewrite Hbuild. simpl. fold answer.
    subst record dispatch.
    destruct answer as [[[]|e'] w]; simpl; unfold set_world, add_log; simpl;
      by rewrite <- !app_assoc.
  - assert (Hq : dispatches "buildEnd" (log s1)
                 = dispatches "buildEnd" (log s)).
    { apply extends_dispatches.
      eapply (rollupSync_respects C); [..|exact Hsync].
      - apply extends_refl.
      - apply extends_trans.
      - intros s0 w. by apply extends_same_log.
      - intros s0 x. by apply extends_same_log.
      - intros code message s0. by apply extends_add_log. }
    unfold dispatches in *. subst record.
    by rewrite List.filter_app, Hq.
Qed.

(** The build of the graph fails and [buildEnd] succeeds. *)
Lemma build_failure_dispatches_buildEnd_witness :
  rollup Demo.collab (JObj [("input", JStr "x")]) (Demo.fresh ["build"])
  = (Returns (Err (Foreign 7)),
     mkState [] [EvHookParallel "buildStart" NoArgs; EvGraphBuild;
                 EvHookParallel "buildEnd" (ArgError (Foreign 7))]
       None [] false).
Proof.
  apply (build_failure_dispatches_buildEnd Demo.collab
           (JObj [("input", JStr "x")])
           (JObj [("input", JStr "x"); ("plugins", JArr [])]) false
           (Demo.fresh ["build"]) (Demo.fresh ["build"]) ["build"] []
           (Foreign 7)); reflexivity.
Defined.

(** ** The multi-chunk gate *)

Lemma str_eq_truthy (v : JSValue) (lit : string) :
  str_eq v lit = true -> lit <> ""%string -> truthy v = true.
Proof.
  destruct v; simpl; try done. intros Heq Hne.
  apply String.eqb_eq in Heq. subst s.
  by destruct (String.eqb_spec lit "").
Qed.

Lemma str_eq_other (v : JSValue) (lit lit' : string) :
  str_eq v lit = true -> lit <> lit' -> str_eq v lit' = false.
Proof.
  destruct v; simpl; try done. intros Heq Hne.
  apply String.eqb_eq in Heq. subst s.
  by destruct (String.eqb_spec lit lit').
Qed.

(** With more than one chunk, an OutputConfig of format [umd] or [iife],
    or one with a [file], does not pass [normalizeOutputOptions]. *)
Lemma normalizeOutputOptions_multi_gate {W CI S} (C : Collab W CI)
  (inputOptions rawOutputOptions out : JSValue) (s : S) :
  truthy rawOutputOptions = true ->
  optionError
    (c_mergeOptions C
       (consolidatedOutputOptions inputOptions rawOutputOptions)
       DeprecateOutput) = None ->
  first_output
    (outputOptions
       (c_mergeOptions C
          (consolidatedOutputOptions inputOptions rawOutputOptions)
          DeprecateOutput)) = out ->
  str_eq (prop "format" out) "umd" || str_eq (prop "format" out) "iife"
  || (is_string (prop "file" out) && truthy (prop "format" out)
      && negb (str_eq (prop "format" out) "es6")) = true ->
  exists e,
    normalizeOutputOptions C inputOptions rawOutputOptions true s = (Err e, s)
    /\ error_code e = Some "INVALID_OPTION".
Proof.
  intros Hraw Herr Hout Hbad.
  assert (Hfmt : truthy (prop "format" out) = true
                 /\ str_eq (prop "format" out) "es6" = false).
  { destruct (str_eq (prop "format" out) "umd") eqn:Humd.
    { split; [by eapply str_eq_truthy | by eapply str_eq_other]. }
    destruct (str_eq (prop "format" out) "iife") eqn:Hiife.
    { split; [by eapply str_eq_truthy | by eapply str_eq_other]. }
    simpl in Hbad. apply andb_true_iff in Hbad as [Hbad Hes6].
    apply andb_true_iff in Hbad as [_ Htr].
    split; [done | by apply negb_true_iff]. }
  destruct Hfmt as [Htr Hes6].
  unfold normalizeOutputOptions, checkOutputOptions.
  rewrite Hraw, Herr, Hout, Htr, Hes6.
  simpl negb.
  cbv beta iota delta [bind when ret throw error invalid_option].
  rewrite Htr, Hes6 in Hbad. simpl in Hbad. rewrite andb_true_r in Hbad.
  destruct (is_string (prop "file" out)) eqn:Hfile.
  - destruct (is_string (prop "dir" out));
      [eexists; split; reflexivity|].
    destruct (truthy (prop "preserveModules" inputOptions));
      [eexists; split; reflexivity|].
    destruct (typeof_object (prop "input" inputOptions)
              && negb (is_array (prop "input" inputOptions)));
      [eexists; split; reflexivity|].
    destruct (str_eq (prop "format" out) "umd"
              || str_eq (prop "format" out) "iife");
      eexists; split; reflexivity.
  - rewrite orb_false_r in Hbad. rewrite Hbad. eexists; split; reflexivity.
Qed.

Lemma countChunks_more_than_one (files : list OutputFile) :
  1 < length (List.filter (fun f => negb (isAsset f)) files) ->
  countChunks files 0 = 2.
Proof.
  induction files as [|f files IH]; simpl; [lia|].
  destruct (isAsset f); simpl; [done|].
  intros H. clear IH. assert (H' : 0 < length
    (List.filter (fun f => negb (isAsset f)) files)) by lia. clear H.
  induction files as [|g files IH]; simpl in *; [lia|].
  destruct (isAsset g); simpl in *; [by apply IH | done].
Qed.

(** C2, as the code has it.  When the build gave more than one chunk,
    normalize-output fails with [INVALID_OPTION] for a [umd] or [iife]
    format and for a [file] (an options object being there, without
    option error, its [format] set and not [es6]), and so [generate] and
    [write] throw that error at the call.  [sourcemapFile] is no part of
    that gate: it is [write] alone that refuses it, after the bundle is
    generated, when the bundle holds more than one chunk; there [write]
    also refuses a [file], and its promise rejects with
    [INVALID_OPTION]. *)
Theorem multi_chunk_validations {W CI} (C : Collab W CI)
  (build : RollupBuild) (rawOutputOptions : JSValue) (s : State W CI) :
  (forall out,
     1 < length (chunks s) ->
     truthy rawOutputOptions = true ->
     optionError
       (c_mergeOptions C
          (consolidatedOutputOptions (build_inputOptions build)
             rawOutputOptions) DeprecateOutput) = None ->
     first_output
       (outputOptions
          (c_mergeOptions C
             (consolidatedOutputOptions (build_inputOptions build)
                rawOutputOptions) DeprecateOutput)) = out ->
     str_eq (prop "format" out) "umd" || str_eq (prop "format" out) "iife"
     || (is_string (prop "file" out) && truthy (prop "format" out)
         && negb (str_eq (prop "format" out) "es6")) = true ->
     exists e,
       error_code e = Some "INVALID_OPTION"
       /\ handle_generate C build rawOutputOptions s = (Throws e, s)
       /\ (truthy (prop "dir" rawOutputOptions)
           || truthy (prop "file" rawOutputOptions) = true ->
           handle_write C build rawOutputOptions s = (Throws e, s)))
  /\ (forall bundle s1,
        truthy rawOutputOptions = true ->
        truthy (prop "dir" rawOutputOptions)
        || truthy (prop "file" rawOutputOptions) = true ->
        generate C (build_inputOptions build) rawOutputOptions true s
        = (Returns (Ok bundle), s1) ->
        1 < length (List.filter (fun f => negb (isAsset f))
                      (bundle_files bundle)) ->
        truthy (prop "sourcemapFile" rawOutputOptions)
        || is_string (prop "file" rawOutputOptions) = true ->
        exists e,
          error_code e = Some "INVALID_OPTION"
          /\ handle_write C build rawOutputOptions s = (Returns (Err e), s1)).
Proof.
  split.
  - intros out Hmulti Hraw Herr Hout Hbad.
    apply Nat.ltb_lt in Hmulti.
    destruct (normalizeOutputOptions_multi_gate C (build_inputOptions build)
                rawOutputOptions out s Hraw Herr Hout Hbad) as (e & He & Hcode).
    rewrite <- Hmulti in He.
    pose proof (generate_normalize_error C _ _ false _ _ _ He) as Hgen.
    pose proof (generate_normalize_error C _ _ true _ _ _ He) as Hgenw.
    exists e. split; [done|]. split.
    + unfold handle_generate, call_then. by rewrite Hgen.
    + intros Htarget. unfold handle_write. rewrite Hraw. simpl.
      apply orb_true_iff in Htarget.
      replace (negb (truthy (prop "dir" rawOutputOptions))
               && negb (truthy (prop "file" rawOutputOptions))) with false
        by (destruct Htarget as [-> | ->]; simpl; by rewrite ?andb_false_r).
      unfold call_then. by rewrite Hgenw.
  - intros bundle s1 Hraw Htarget Hgen Hchunks Hbad.
    unfold handle_write. rewrite Hraw. simpl.
    apply orb_true_iff in Htarget.
    replace (negb (truthy (prop "dir" rawOutputOptions))
             && negb (truthy (prop "file" rawOutputOptions))) with false
      by (destruct Htarget as [-> | ->]; simpl; by rewrite ?andb_false_r).
    unfold call_then. rewrite Hgen. unfold writeBundle.
    rewrite (countChunks_more_than_one _ Hchunks). simpl Nat.ltb.
    cbv beta iota delta [bind when ret throw error invalid_option].
    destruct (truthy (prop "sourcemapFile" rawOutputOptions));
      [eexists (RollupError _ _ _); split; reflexivity|].
    simpl in Hbad. rewrite Hbad.
    eexists (RollupError _ _ _); split; reflexivity.
Qed.

(** Two chunks and the format [umd]: [generate] throws. *)
Lemma multi_chunk_validations_witness :
  exists e,
    error_code e = Some "INVALID_OPTION"
    /\ handle_generate Demo.collab
         (Demo.handle (JObj [("input", JArr [JStr "x"; JStr "y"])]))
         (JObj [("format", JStr "umd"); ("dir", JStr "out")])
         (Demo.built (JArr [JStr "x"; JStr "y"]) [])
       = (Throws e, Demo.built (JArr [JStr "x"; JStr "y"]) []).
Proof.
  destruct (multi_chunk_validations Demo.collab
              (Demo.handle (JObj [("input", JArr [JStr "x"; JStr "y"])]))
              (JObj [("format", JStr "umd"); ("dir", JStr "out")])
              (Demo.built (JArr [JStr "x"; JStr "y"]) [])) as [Hgate _].
  destruct (Hgate (JObj [("format", JStr "umd"); ("dir", JStr "out")]))
    as (e & Hcode & Hgen & _).
  - simpl. lia.
  - reflexivity.
  - reflexivity.
  - reflexivity.
  - reflexivity.
  - exists e. split; [exact Hcode | exact Hgen].
Defined.

(** C2 as it is stated fails: the build gave two chunks, the options set
    [sourcemapFile], and [generate] resolves with its bundle of two
    chunks. *)
Lemma generate_accepts_sourcemapFile_with_chunks :
  let rawOutputOptions :=
    JObj [("format", JStr "es"); ("dir", JStr "out");
          ("sourcemapFile", JStr "out/bundle.js.map")] in
  let s := Demo.built (JArr [JStr "x"; JStr "y"]) [] in
  length (chunks s) = 2
  /\ truthy (prop "sourcemapFile" rawOutputOptions) = true
  /\ exists bundle s',
       generate Demo.collab (JObj [("input", JArr [JStr "x"; JStr "y"])])
         rawOutputOptions false s = (Returns (Ok bundle), s')
       /\ map fst bundle = ["x.js"; "y.js"].
Proof.
  split; [reflexivity|]. split; [reflexivity|].
  do 2 eexists. split; [vm_compute; reflexivity | reflexivity].
Qed.

(** ** The naming of the chunks *)

Lemma namingPattern_spec {CI} (outputOptions : JSValue) (chunk : Chunk CI) :
  namingPattern outputOptions chunk
  = spec_pattern outputOptions (isEntryModuleFacade chunk).
Proof. unfold namingPattern, spec_pattern, or_else. by destruct (isEntryModuleFacade chunk). Qed.

Lemma insert_middle {A} (pre rest : list A) (x y : A) :
  <[length pre := y]> (pre ++ x :: rest) = pre ++ y :: rest.
Proof.
  rewrite <- (Nat.add_0_r (length pre)). by rewrite insert_app_r.
Qed.

Lemma set_chunk_middle {W CI} (pre rest : list (Chunk CI)) (x y : Chunk CI)
  (w : W) (l : list Event) (cw : option nat) (o : bool) :
  set_chunk (length pre) y (mkState w l cw (pre ++ x :: rest) o)
  = mkState w l cw (pre ++ y :: rest) o.
Proof.
  unfold set_chunk, set_chunks. simpl. f_equal. apply insert_middle.
Qed.

#[local] Arguments set_chunk : simpl never.
#[local] Arguments set_world : simpl never.
#[local] Arguments add_log : simpl never.

Section NamingRefinement.

Context {W CI : Type} (C : Collab W CI).
Context (inputOptions outputOptions : JSValue) (inputBase : string)
  (addons : JSValue).

(** The state a step of the specification leaves. *)
Local Abbreviation left_by s pre x :=
  (x.1.1.1,
   mkState x.1.2 (log s ++ x.2) (curWatcher s) (pre ++ x.1.1.2) (optimized s)).

(** One pass of the loop body is one step of the specification. *)
Lemma nameChunk_spec (pre rest : list (Chunk CI)) (chunk : Chunk CI)
  (usedIds : gset string) (s : State W CI) :
  chunks s = pre ++ chunk :: rest ->
  nameChunk C inputOptions outputOptions inputBase addons (length pre)
    usedIds s
  = let x := spec_name_one C inputOptions outputOptions inputBase addons
               (length pre) chunk usedIds (world s) in
    (x.1.1.1,
     mkState x.1.2 (log s ++ x.2) (curWatcher s) (pre ++ x.1.1.2 :: rest)
       (optimized s)).
Proof.
  intros Hcs. destruct s as [w l cw cs o]. simpl in Hcs. subst cs.
  unfold nameChunk, spec_name_one, withChunk, bind, get. simpl.
  rewrite list_lookup_middle by done.
  destruct (truthy (prop "file" outputOptions)).
  { unfold liftRes, modify, ret.
    destruct (c_basename C (prop "file" outputOptions)) as [b|e]; simpl.
    - by rewrite set_chunk_middle, app_nil_r.
    - by rewrite app_nil_r. }
  destruct (truthy (prop "preserveModules" inputOptions)).
  { unfold mutChunk, withChunk, bind, get, call, modify, ret. simpl.
    rewrite list_lookup_middle by done. simpl.
    destruct (c_generateIdPreserveModules C inputBase chunk w)
      as [[chunk'|e] w']; unfold set_world; simpl.
    - by rewrite set_chunk_middle, app_nil_r.
    - by rewrite app_nil_r. }
  rewrite namingPattern_spec.
  destruct (spec_pattern outputOptions (isEntryModuleFacade chunk))
    as [pattern patternName]; simpl.
  unfold emit, mutChunk, withChunk, bind, get, call, modify, ret.
  unfold add_log. simpl.
  rewrite list_lookup_middle by done. simpl.
  destruct (c_generateId C pattern patternName addons outputOptions usedIds
              chunk w) as [[chunk'|e] w']; unfold set_world; simpl; [|done].
  rewrite set_chunk_middle. simpl.
  rewrite (insert_middle pre rest chunk chunk').
  by rewrite list_lookup_middle.
Qed.

Lemma foldRange_nameChunk_spec (rest pre : list (Chunk CI))
  (usedIds : gset string) (s : State W CI) :
  chunks s = pre ++ rest ->
  foldRange (length rest) (length pre)
    (nameChunk C inputOptions outputOptions inputBase addons) usedIds s
  = left_by s pre
      (spec_naming C inputOptions outputOptions inputBase addons (length pre)
         rest usedIds (world s)).
Proof.
  revert pre usedIds s.
  induction rest as [|chunk rest IH]; intros pre usedIds s Hcs.
  - destruct s as [w l cw cs o]. simpl in *. subst cs.
    unfold ret. by rewrite !app_nil_r.
  - simpl. unfold bind. rewrite (nameChunk_spec pre rest chunk) by done.
    destruct (spec_name_one C inputOptions outputOptions inputBase addons
                (length pre) chunk usedIds (world s))
      as [[[[usedIds'|e] chunk'] w'] evs]; simpl; [|done].
    specialize (IH (pre ++ [chunk']) usedIds'
                  (mkState w' (log s ++ evs) (curWatcher s)
                     (pre ++ chunk' :: rest) (optimized s))).
    rewrite length_app in IH. simpl in IH.
    rewrite Nat.add_1_r in IH. rewrite IH by by rewrite <- app_assoc.
    destruct (spec_naming C inputOptions outputOptions inputBase addons
                (S (length pre)) rest usedIds' w')
      as [[[r rest'] w''] evs']; simpl.
    by rewrite <- !app_assoc.
Qed.

End NamingRefinement.

(** *** The ids the specification's step leaves *)


Section NamingFacts.

Context {W CI : Type} (C : Collab W CI).
Context (inputOptions outputOptions : JSValue) (inputBase : string)
  (addons : JSValue).


End NamingFacts.



(** * Further properties of the orchestrator *)

(** ** What normalize-output accepts *)

(** X1.  [normalizeOutputOptions] succeeds exactly when there is an
    options object, no option error, a [format] that is set and is not
    [es6], no [file] together with a [dir], with [preserveModules] or with
    named inputs, and, for several chunks, neither [umd], [iife] nor a
    [file]; it then returns the first OutputConfig of [mergeOptions]
    untouched. *)
Theorem normalizeOutputOptions_accepts_iff {W CI S} (C : Collab W CI)
  (inputOptions rawOutputOptions out : JSValue) (hasMultipleChunks : bool)
  (s : S) :
  let merged :=
    c_mergeOptions C (consolidatedOutputOptions inputOptions rawOutputOptions)
      DeprecateOutput in
  normalizeOutputOptions C inputOptions rawOutputOptions hasMultipleChunks s
  = (Ok out, s)
  <-> truthy rawOutputOptions = true
      /\ no_option_error merged = true
      /\ out = first_output (outputOptions merged)
      /\ output_options_pass inputOptions out hasMultipleChunks = true.
Proof.
  intros merged. unfold normalizeOutputOptions, checkOutputOptions,
    no_option_error, output_options_pass.
  fold merged. generalize (first_output (outputOptions merged)).
  intros out0.
  destruct (truthy rawOutputOptions); simpl negb;
    cbv beta iota delta [bind when ret throw error invalid_option];
    [|split; [discriminate | intros [? _]; congruence]].
  destruct (optionError merged) as [msg|];
    [change (truthy (JStr msg)) with (negb (String.eqb msg ""));
     destruct (String.eqb msg ""); simpl negb;
     cbv beta iota delta [bind when ret throw error invalid_option];
     [|split; [discriminate | intros (_ & ? & _); congruence]]|];
    (destruct (str_eq (prop "format" out0) "es6") eqn:Hes6;
     [split; [discriminate
             |intros (_ & _ & -> & H); rewrite Hes6 in H;
              by rewrite andb_false_r in H]|];
     destruct (truthy (prop "format" out0)) eqn:Htr; simpl negb;
     cbv beta iota delta [bind when ret throw error invalid_option];
     [|split; [discriminate | intros (_ & _ & -> & H); by rewrite Htr in H]];
     destruct (is_string (prop "file" out0)) eqn:Hfile,
              (is_string (prop "dir" out0)) eqn:Hdir,
              (truthy (prop "preserveModules" inputOptions)) eqn:Hpm,
              (typeof_object (prop "input" inputOptions)
               && negb (is_array (prop "input" inputOptions))) eqn:Hnamed,
              hasMultipleChunks,
              (str_eq (prop "format" out0) "umd") eqn:Humd,
              (str_eq (prop "format" out0) "iife") eqn:Hiife;
     simpl;
     (split;
      [intros [= <-];
       rewrite ?Hes6, ?Htr, ?Hfile, ?Hdir, ?Humd, ?Hiife; done
      |intros (_ & _ & -> & H);
       rewrite ?Hes6, ?Htr, ?Hfile, ?Hdir, ?Humd, ?Hiife in H;
       simpl in H; done])).
Qed.

(** X2.  A [file] in the OutputConfig together with a [dir], with
    [preserveModules], or with named inputs (an [input] that is an object
    and no list) is refused with [INVALID_OPTION], for one chunk as for
    several. *)
Theorem file_conflicts_are_invalid {W CI S} (C : Collab W CI)
  (inputOptions rawOutputOptions out : JSValue) (hasMultipleChunks : bool)
  (s : S) :
  truthy rawOutputOptions = true ->
  no_option_error
    (c_mergeOptions C (consolidatedOutputOptions inputOptions rawOutputOptions)
       DeprecateOutput) = true ->
  first_output
    (outputOptions
       (c_mergeOptions C
          (consolidatedOutputOptions inputOptions rawOutputOptions)
          DeprecateOutput)) = out ->
  truthy (prop "format" out) = true ->
  str_eq (prop "format" out) "es6" = false ->
  is_string (prop "file" out) = true ->
  is_string (prop "dir" out)
  || truthy (prop "preserveModules" inputOptions)
  || (typeof_object (prop "input" inputOptions)
      && negb (is_array (prop "input" inputOptions))) = true ->
  exists e,
    normalizeOutputOptions C inputOptions rawOutputOptions hasMultipleChunks s
    = (Err e, s)
    /\ error_code e = Some "INVALID_OPTION".
Proof.
  intros Hraw Herr Hout Htr Hes6 Hfile Hbad.
  unfold normalizeOutputOptions, checkOutputOptions.
  rewrite Hraw, Hout, Htr, Hes6, Hfile. simpl negb.
  unfold no_option_error in Herr.
  destruct (optionError _) as [msg|]; [rewrite negb_true_iff in Herr;
                                       rewrite Herr|];
    cbv beta iota delta [bind when ret throw error invalid_option];
    (destruct (is_string (prop "dir" out));
       [eexists; split; reflexivity|];
     destruct (truthy (prop "preserveModules" inputOptions));
       [eexists; split; reflexivity|];
     simpl in Hbad; rewrite Hbad; eexists; split; reflexivity).
Qed.

(** The named input of the test suite: [{ main: 'x' }] with [file]. *)
Lemma file_conflicts_are_invalid_witness :
  exists e,
    normalizeOutputOptions Demo.collab
      (JObj [("input", JObj [("main", JStr "x")])])
      (JObj [("file", JStr "x"); ("format", JStr "es")]) false tt
    = (Err e, tt)
    /\ error_code e = Some "INVALID_OPTION".
Proof.
  apply (file_conflicts_are_invalid Demo.collab _ _
           (JObj [("file", JStr "x"); ("format", JStr "es")]));
    reflexivity.
Defined.

(** X3.  An option error that [mergeOptions] reports for the output
    options is thrown by [generate] at the call as a plain error with
    that message and without a code, and nothing else happens. *)
Theorem unknown_output_option_is_thrown {W CI} (C : Collab W CI)
  (build : RollupBuild) (rawOutputOptions : JSValue) (msg : string)
  (s : State W CI) :
  truthy rawOutputOptions = true ->
  optionError
    (c_mergeOptions C
       (consolidatedOutputOptions (build_inputOptions build) rawOutputOptions)
       DeprecateOutput) = Some msg ->
  msg <> ""%string ->
  handle_generate C build rawOutputOptions s = (Throws (PlainError msg), s)
  /\ error_code (PlainError msg) = None.
Proof.
  intros Hraw Herr Hmsg. split; [|done].
  unfold handle_generate, call_then.
  rewrite (generate_normalize_error C _ _ _ s s (PlainError msg)); [done|].
  unfold normalizeOutputOptions. rewrite Hraw, Herr. simpl.
  destruct (String.eqb_spec msg ""); [done|]. reflexivity.
Qed.

Lemma unknown_output_option_is_thrown_witness :
  exists msg,
    handle_generate (Demo.collab_with Demo.mergeOptions_strict (JUndefined, false) [])
      (Demo.handle (JObj [("input", JStr "x")]))
      (JObj [("format", JStr "es"); ("fromat", JStr "cjs")])
      (Demo.built (JStr "x") [])
    = (Throws (PlainError msg), Demo.built (JStr "x") []).
Proof.
  eexists.
  apply (unknown_output_option_is_thrown
           (Demo.collab_with Demo.mergeOptions_strict (JUndefined, false) []));
    [reflexivity | vm_compute; reflexivity | discriminate].
Defined.

(** ** The layers of the output options *)

Lemma fold_set_lookup_over (k : string) (es acc : JSObject) :
  NoDup (map fst es) ->
  obj_lookup k (fold_left set_entry es acc)
  = match obj_lookup k es with
    | Some v => Some v
    | None => obj_lookup k acc
    end.
Proof.
  intros Hnd.
  destruct (obj_lookup k es) as [v|] eqn:E.
  - by apply fold_set_lookup.
  - apply fold_set_lookup_notin. clear Hnd.
    induction es as [|[k' v'] es IH]; simpl in *; [apply not_elem_of_nil|].
    destruct (String.eqb_spec k k') as [->|Hne]; [done|].
    apply not_elem_of_cons. split; [done | by apply IH].
Qed.

(** X4.  In the options handed to [mergeOptions], a key has the value of
    the input's [output] if that has the key, else the value of the
    [output] of the call-site options, else the value at the root of the
    call-site options. *)
Theorem consolidatedOutput_precedence (inputOptions rawOutputOptions : JSValue)
  (k : string) :
  NoDup (map fst (own_entries rawOutputOptions)) ->
  NoDup (map fst (own_entries (prop "output" rawOutputOptions))) ->
  NoDup (map fst (own_entries (prop "output" inputOptions))) ->
  obj_lookup k (consolidatedOutput inputOptions rawOutputOptions)
  = match obj_lookup k (own_entries (prop "output" inputOptions)) with
    | Some v => Some v
    | None =>
        match obj_lookup k (own_entries (prop "output" rawOutputOptions)) with
        | Some v => Some v
        | None => obj_lookup k (own_entries rawOutputOptions)
        end
    end.
Proof.
  intros Hraw Hout Hin. unfold consolidatedOutput, spread.
  rewrite !fold_set_lookup_over by done. simpl.
  by destruct (obj_lookup k (own_entries rawOutputOptions)).
Qed.

(** The root gives [name], the call's [output] gives [file] over the
    root's, and the input's [output] gives [format] over both. *)
Lemma consolidatedOutput_precedence_witness :
  obj_lookup "file"
    (consolidatedOutput
       (JObj [("output", JObj [("format", JStr "cjs")])])
       (JObj [("name", JStr "n"); ("file", JStr "root.js");
              ("format", JStr "es");
              ("output",
               JObj [("file", JStr "out.js"); ("format", JStr "amd")])]))
  = Some (JStr "out.js").
Proof.
  apply (consolidatedOutput_precedence
           (JObj [("output", JObj [("format", JStr "cjs")])])
           (JObj [("name", JStr "n"); ("file", JStr "root.js");
                  ("format", JStr "es");
                  ("output",
                   JObj [("file", JStr "out.js"); ("format", JStr "amd")])])
           "file");
    apply (bool_decide_unpack _); vm_compute; reflexivity.
Defined.

(** ** What normalize-input accepts *)

(** X5.  The checks of [getInputOptions] pass exactly when
    [inlineDynamicImports] comes without [manualChunks], without
    [optimizeChunks] and with an [input] that is not [null] and has at
    most one entry, and [preserveModules] comes without
    [inlineDynamicImports], [manualChunks] and [optimizeChunks]. *)
Theorem checkInputOptions_accepts_iff {S} (inputOptions : JSValue) (s : S) :
  checkInputOptions inputOptions s = (Ok tt, s)
  <-> (truthy (prop "inlineDynamicImports" inputOptions) = true ->
       truthy (prop "manualChunks" inputOptions) = false
       /\ truthy (prop "optimizeChunks" inputOptions) = false
       /\ prop "input" inputOptions <> JNull
       /\ more_than_one_entry (prop "input" inputOptions) = false)
      /\ (truthy (prop "preserveModules" inputOptions) = true ->
          truthy (prop "inlineDynamicImports" inputOptions) = false
          /\ truthy (prop "manualChunks" inputOptions) = false
          /\ truthy (prop "optimizeChunks" inputOptions) = false).
Proof.
  unfold checkInputOptions.
  destruct (truthy (prop "inlineDynamicImports" inputOptions)) eqn:Hin,
           (truthy (prop "manualChunks" inputOptions)) eqn:Hman,
           (truthy (prop "optimizeChunks" inputOptions)) eqn:Hopt,
           (truthy (prop "preserveModules" inputOptions)) eqn:Hpm;
    cbv beta iota delta [bind when ret throw error invalid_option];
    try (split; [discriminate | intros [H1 H2];
                 try (destruct H1 as (? & ? & ? & ?); [done|]; congruence);
                 try (destruct H2 as (? & ? & ?); [done|]; congruence)]);
    try (split; [done | done]).
  - (* inlineDynamicImports with preserveModules *)
    unfold multipleInputs, Object_keys_of, bind, ret, throw.
    split; [|intros [_ H]; destruct H as (? & _); done].
    destruct (prop "input" inputOptions) as [| | | | |l|o|]; simpl;
      try discriminate.
    + destruct (1 <? length l)%nat; [discriminate|].
      rewrite Object_keys_length, length_imap.
      destruct (1 <? length l)%nat; discriminate.
    + rewrite Object_keys_length. destruct (1 <? length o)%nat; discriminate.
  - (* inlineDynamicImports alone *)
    unfold multipleInputs, Object_keys_of, bind, ret, throw.
    destruct (prop "input" inputOptions) as [| | | | |l|o|] eqn:E; simpl;
      try (split; [done | done]);
      try (split; [discriminate | intros [H _]; destruct H as (_ & _ & ? & _);
                   done]).
    + destruct (1 <? length l)%nat eqn:El.
      * split; [discriminate|]. intros [H _].
        destruct H as (_ & _ & _ & ?); done.
      * rewrite Object_keys_length, length_imap, El. split; [done|done].
    + rewrite Object_keys_length. destruct (1 <? length o)%nat eqn:El.
      * split; [discriminate|]. intros [H _].
        destruct H as (_ & _ & _ & ?); done.
      * split; [done|done].
Qed.

(** X6.  [inlineDynamicImports] with an [input] that is [null] fails in
    [Object.keys] with a TypeError, which carries no code, and not with
    [INVALID_OPTION]; [rollup] rejects with it. *)
Theorem inlineDynamicImports_null_input_is_a_TypeError {W CI}
  (C : Collab W CI) (rawInputOptions inputOptions : JSValue)
  (callers : bool) (s s1 : State W CI) :
  mergeInputOptions C rawInputOptions s = (Ok (inputOptions, callers), s1) ->
  truthy (prop "inlineDynamicImports" inputOptions) = true ->
  truthy (prop "manualChunks" inputOptions) = false ->
  truthy (prop "optimizeChunks" inputOptions) = false ->
  prop "input" inputOptions = JNull ->
  rollup C rawInputOptions s
  = (Returns (Err (TypeError "Cannot convert undefined or null to object")),
     s1).
Proof.
  intros Hmerge Hin Hman Hopt Hnull.
  apply rollup_getInputOptions_error.
  unfold getInputOptions, bind. rewrite Hmerge. simpl.
  unfold checkInputOptions. rewrite Hin, Hman, Hopt, Hnull. reflexivity.
Qed.

Lemma inlineDynamicImports_null_input_is_a_TypeError_witness :
  rollup Demo.collab
    (JObj [("input", JNull); ("inlineDynamicImports", JBool true)])
    (Demo.fresh [])
  = (Returns (Err (TypeError "Cannot convert undefined or null to object")),
     Demo.fresh []).
Proof.
  apply (inlineDynamicImports_null_input_is_a_TypeError Demo.collab _
           (JObj [("input", JNull); ("inlineDynamicImports", JBool true);
                  ("plugins", JArr [])]) false);
    reflexivity.
Defined.

(** X7.  [preserveModules] together with [inlineDynamicImports],
    [manualChunks] or [optimizeChunks] makes normalize-input fail with
    [INVALID_OPTION] and [rollup] reject with that error (an [input] that
    is [null] aside). *)
Theorem preserveModules_invalid_options {W CI} (C : Collab W CI)
  (rawInputOptions inputOptions : JSValue) (callers : bool)
  (s s1 : State W CI) :
  mergeInputOptions C rawInputOptions s = (Ok (inputOptions, callers), s1) ->
  truthy (prop "preserveModules" inputOptions) = true ->
  truthy (prop "inlineDynamicImports" inputOptions)
  || truthy (prop "manualChunks" inputOptions)
  || truthy (prop "optimizeChunks" inputOptions) = true ->
  prop "input" inputOptions <> JNull ->
  exists e, getInputOptions C rawInputOptions s = (Err e, s1)
            /\ error_code e = Some "INVALID_OPTION"
            /\ rollup C rawInputOptions s = (Returns (Err e), s1).
Proof.
  intros Hmerge Hpm Hbad Hnull.
  assert (Hcheck : exists e, checkInputOptions inputOptions s1 = (Err e, s1)
                             /\ error_code e = Some "INVALID_OPTION").
  { unfold checkInputOptions. rewrite Hpm.
    destruct (truthy (prop "inlineDynamicImports" inputOptions)) eqn:Hin,
             (truthy (prop "manualChunks" inputOptions)) eqn:Hman,
             (truthy (prop "optimizeChunks" inputOptions)) eqn:Hopt;
      try discriminate Hbad;
      cbv beta iota delta [bind when ret throw error invalid_option];
      try (eexists; split; reflexivity).
    unfold multipleInputs, Object_keys_of, bind, ret, throw.
    destruct (prop "input" inputOptions) as [| | | | |l|o|]; simpl;
      try done; try (eexists; split; reflexivity).
    - destruct (1 <? length l)%nat eqn:El;
        [eexists; split; reflexivity|].
      rewrite Object_keys_length, length_imap, El. eexists; split; reflexivity.
    - rewrite Object_keys_length.
      destruct (1 <? length o)%nat; eexists; split; reflexivity. }
  destruct Hcheck as (e & He & Hcode).
  assert (Hget : getInputOptions C rawInputOptions s = (Err e, s1)).
  { unfold getInputOptions, bind. rewrite Hmerge. simpl. by rewrite He. }
  exists e. repeat split; [done..|]. by apply rollup_getInputOptions_error.
Qed.

Lemma preserveModules_invalid_options_witness :
  exists e,
    getInputOptions Demo.collab
      (JObj [("input", JStr "x"); ("preserveModules", JBool true);
             ("manualChunks", JObj [])])
      (Demo.fresh []) = (Err e, Demo.fresh [])
    /\ error_code e = Some "INVALID_OPTION"
    /\ rollup Demo.collab
         (JObj [("input", JStr "x"); ("preserveModules", JBool true);
                ("manualChunks", JObj [])])
         (Demo.fresh []) = (Returns (Err e), Demo.fresh []).
Proof.
  apply (preserveModules_invalid_options Demo.collab _
           (JObj [("input", JStr "x"); ("preserveModules", JBool true);
                  ("manualChunks", JObj []); ("plugins", JArr [])]) false);
    try reflexivity.
  discriminate.
Defined.

(** ** The plugins of the input *)

(** X8.  The normalized list of plugins holds truthy values only, and
    normalizing it again changes nothing. *)
Theorem normalizePlugins_truthy_idempotent (plugins : JSValue) :
  Forall (fun p => truthy p = true) (normalizePlugins plugins)
  /\ normalizePlugins (JArr (normalizePlugins plugins))
     = normalizePlugins plugins.
Proof.
  assert (Hf : forall l, Forall (fun p => truthy p = true)
                           (List.filter truthy l)).
  { intros l. apply List.Forall_forall. intros p Hp.
    by apply List.filter_In in Hp as [_ Hp]. }
  assert (Hi : forall l, Forall (fun p => truthy p = true) l ->
                         List.filter truthy l = l).
  { induction 1 as [|p l Hp _ IH]; simpl; [done|]. by rewrite Hp, IH. }
  split.
  - destruct plugins as [| |b|z|st|l|o|r]; simpl;
      [constructor | constructor | | | | apply Hf | | ].
    + destruct b; by repeat constructor.
    + destruct (z =? 0)%Z eqn:E; simpl; repeat constructor.
      simpl. by rewrite E.
    + destruct (String.eqb st "") eqn:E; simpl; repeat constructor.
      simpl. by rewrite E.
    + by repeat constructor.
    + by repeat constructor.
  - destruct plugins as [| |b|z|st|l|o|r]; simpl; try done.
    + by destruct b.
    + destruct (z =? 0)%Z eqn:E; simpl; [done|]. by rewrite E.
    + destruct (String.eqb st "") eqn:E; simpl; [done|]. by rewrite E.
    + apply Hi, Hf.
Qed.

(** A plugin has an [options] hook. *)
Local Abbreviation has_options_hook :=
  (fun plugin => truthy (prop "options" plugin)).

(** X9.  The plugins without an [options] hook have no part in the
    options: the hooks of the others are called in the order of the
    list, each on what the one before left. *)
Theorem reduce_plugins_skips_hookless {W CI} (C : Collab W CI)
  (plugins : list JSValue) (inputOptions : JSValue * bool)
  (s : State W CI) :
  reduce_plugins C plugins inputOptions s
  = reduce_plugins C (List.filter has_options_hook plugins) inputOptions s.
Proof.
  revert inputOptions s.
  induction plugins as [|p plugins IH]; intros io s; [done|].
  simpl List.filter. destruct (truthy (prop "options" p)) eqn:E.
  - simpl. unfold bind.
    destruct (applyOptionHook C io p s) as [[io'|e] s']; [apply IH | done].
  - simpl. unfold bind, applyOptionHook. rewrite E. unfold ret. apply IH.
Qed.

(** X10.  An option error that [mergeOptions] reports for the input
    options is only a warning: [onwarn] gets it once, with the code
    [UNKNOWN_OPTION], and when the plugins have no [options] hook and
    neither [inlineDynamicImports] nor [preserveModules] is set,
    normalize-input succeeds with the merged options and their
    normalized plugins. *)
Theorem unknown_input_option_only_warns {W CI} (C : Collab W CI)
  (rawInputOptions : JSValue) (msg : string) (s : State W CI) (w1 : W) :
  let merged := c_mergeOptions C rawInputOptions DeprecateInput in
  let plugins := normalizePlugins (prop "plugins" (inputOptions merged)) in
  let result := set_prop "plugins" (JArr plugins) (inputOptions merged) in
  truthy rawInputOptions = true ->
  optionError merged = Some msg ->
  msg <> ""%string ->
  c_onwarn C (prop "onwarn" (inputOptions merged)) "UNKNOWN_OPTION" msg
    (world s) = (Ok tt, w1) ->
  Forall (fun p => truthy (prop "options" p) = false) plugins ->
  truthy (prop "inlineDynamicImports" result) = false ->
  truthy (prop "preserveModules" result) = false ->
  getInputOptions C rawInputOptions s
  = (Ok (result, false),
     mkState w1 (log s ++ [EvWarn "UNKNOWN_OPTION" msg]) (curWatcher s)
       (chunks s) (optimized s)).
Proof.
  intros merged plugins result Hraw Herr Hmsg Hwarn Hhooks Hin Hpm.
  unfold getInputOptions, mergeInputOptions. fold merged.
  rewrite Hraw, Herr. simpl truthy.
  destruct (String.eqb_spec msg ""); [done|]. simpl negb.
  fold plugins. fold result.
  unfold bind at 1. unfold bind at 1. unfold bind at 1.
  cbv beta iota delta [when ret].
  unfold bind at 1. unfold emit, modify, call, bind at 1.
  cbn [world add_log]. unfold add_log at 1. cbn [world].
  rewrite Hwarn.
  rewrite reduce_plugins_skips_hookless.
  replace (List.filter _ plugins) with (@nil JSValue).
  - simpl reduce_plugins. unfold ret at 1. cbn [fst].
    unfold checkInputOptions. rewrite Hin, Hpm.
    cbv beta iota delta [bind when ret]. reflexivity.
  - clear -Hhooks. induction Hhooks as [|p l Hp _ IH]; simpl; [done|].
    by rewrite Hp.
Qed.

(** The mistyped [plUgins] of the test suite. *)
Lemma unknown_input_option_only_warns_witness :
  getInputOptions Demo.collab
    (JObj [("input", JStr "x"); ("plUgins", JArr [])]) (Demo.fresh [])
  = (Ok (JObj [("input", JStr "x"); ("plugins", JArr [])], false),
     mkState []
       [EvWarn "UNKNOWN_OPTION"
          "Unknown input option: plUgins. Allowed options: acornInjectPlugins, cache, chunkGroupingSize, inlineDynamicImports, input, manualChunks, onwarn, optimizeChunks, perf, plugins, preserveModules"]
       None [] false).
Proof.
  apply (unknown_input_option_only_warns Demo.collab
           (JObj [("input", JStr "x"); ("plUgins", JArr [])])
           "Unknown input option: plUgins. Allowed options: acornInjectPlugins, cache, chunkGroupingSize, inlineDynamicImports, input, manualChunks, onwarn, optimizeChunks, perf, plugins, preserveModules"
           (Demo.fresh []) []);
    try reflexivity.
  - discriminate.
  - constructor.
Defined.

(** ** The build *)

(** X11.  [rollup] without an options object rejects with the error that
    asks for one, and does nothing else: no warning, no graph, no hook. *)
Theorem rollup_without_options_rejects {W CI} (C : Collab W CI)
  (rawInputOptions : JSValue) (s : State W CI) :
  truthy rawInputOptions = false ->
  rollup C rawInputOptions s
  = (Returns (Err (PlainError "You must supply an options object to rollup")),
     s).
Proof.
  intros Hraw. apply rollup_getInputOptions_error.
  unfold getInputOptions, mergeInputOptions. by rewrite Hraw.
Qed.

Lemma rollup_without_options_rejects_witness :
  rollup Demo.collab JNull (Demo.fresh ["build"])
  = (Returns (Err (PlainError "You must supply an options object to rollup")),
     Demo.fresh ["build"]).
Proof. by apply (rollup_without_options_rejects Demo.collab). Defined.

(** X12.  When [buildStart] fails, the graph is not built, and [buildEnd]
    is still dispatched, once, with the error of [buildStart]; the
    promise rejects with that error, or with the error of [buildEnd]. *)
Theorem buildStart_failure_skips_the_build {W CI} (C : Collab W CI)
  (rawInputOptions inputOptions : JSValue) (callers : bool)
  (s s1 : State W CI) (w2 : W) (err : JSError) :
  rollupSync C rawInputOptions s = (Ok (inputOptions, callers), s1) ->
  c_hookParallel C "buildStart" NoArgs (world s1) = (Err err, w2) ->
  let answer := c_hookParallel C "buildEnd" (ArgError err) w2 in
  rollup C rawInputOptions s
  = (Returns (Err (match fst answer with Ok _ => err | Err e' => e' end)),
     mkState (snd answer)
       (log s1 ++ [EvHookParallel "buildStart" NoArgs;
                   EvHookParallel "buildEnd" (ArgError err)])
       (curWatcher s1) (chunks s1) (optimized s1)).
Proof.
  intros Hsync Hstart answer.
  unfold rollup, try_promise. rewrite Hsync.
  unfold bind, buildChain, then2, hookParallel, bind, emit, modify, call,
    throw.
  unfold add_log at 1. cbn [world]. rewrite Hstart.
  unfold set_world at 1. unfold add_log at 1. cbn [world log].
  fold answer.
  destruct answer as [[[]|e'] w]; unfold set_world, add_log; cbn;
    rewrite <- ?app_assoc; reflexivity.
Qed.

Lemma buildStart_failure_skips_the_build_witness :
  rollup Demo.collab (JObj [("input", JStr "x")]) (Demo.fresh ["buildStart"])
  = (Returns (Err (Foreign 4)),
     mkState [] [EvHookParallel "buildStart" NoArgs;
                 EvHookParallel "buildEnd" (ArgError (Foreign 4))]
       None [] false).
Proof.
  apply (buildStart_failure_skips_the_build Demo.collab
           (JObj [("input", JStr "x")])
           (JObj [("input", JStr "x"); ("plugins", JArr [])]) false
           (Demo.fresh ["buildStart"]) (Demo.fresh ["buildStart"]) []
           (Foreign 4)); reflexivity.
Defined.

(** X13.  When the build succeeds and [buildEnd] fails, the promise
    rejects with the error of [buildEnd]; [buildEnd] is not dispatched a
    second time and no handle is made. *)
Theorem buildEnd_failure_after_build_rejects {W CI} (C : Collab W CI)
  (rawInputOptions inputOptions : JSValue) (callers : bool)
  (s s1 : State W CI) (w2 w3 w4 : W) (built : list (Chunk CI))
  (err : JSError) :
  rollupSync C rawInputOptions s = (Ok (inputOptions, callers), s1) ->
  c_hookParallel C "buildStart" NoArgs (world s1) = (Ok tt, w2) ->
  c_build C (prop "input" inputOptions) (prop "manualChunks" inputOptions)
    (prop "inlineDynamicImports" inputOptions)
    (prop "preserveModules" inputOptions) w2 = (Ok built, w3) ->
  c_hookParallel C "buildEnd" NoArgs w3 = (Err err, w4) ->
  rollup C rawInputOptions s
  = (Returns (Err err),
     mkState w4
       (log s1 ++ [EvHookParallel "buildStart" NoArgs; EvGraphBuild;
                   EvHookParallel "buildEnd" NoArgs])
       (curWatcher s1) (chunks s1) (optimized s1)).
Proof.
  intros Hsync Hstart Hbuild Hend.
  unfold rollup, try_promise. rewrite Hsync. cbn [fst snd].
  unfold bind, buildChain, then2, hookParallel, bind, emit, modify, call,
    throw.
  unfold add_log at 1. cbn [world]. rewrite Hstart.
  unfold set_world at 1. unfold add_log at 1 2. cbn [world log].
  rewrite Hbuild.
  unfold set_world at 1. unfold add_log at 1. cbn [world log]. rewrite Hend.
  unfold set_world, add_log; cbn. rewrite <- ?app_assoc. reflexivity.
Qed.

Lemma buildEnd_failure_after_build_rejects_witness :
  rollup Demo.collab (JObj [("input", JStr "x")]) (Demo.fresh ["buildEnd"])
  = (Returns (Err (Foreign 4)),
     mkState [] [EvHookParallel "buildStart" NoArgs; EvGraphBuild;
                 EvHookParallel "buildEnd" NoArgs]
       None [] false).
Proof.
  apply (buildEnd_failure_after_build_rejects Demo.collab
           (JObj [("input", JStr "x")])
           (JObj [("input", JStr "x"); ("plugins", JArr [])]) false
           (Demo.fresh ["buildEnd"]) (Demo.fresh ["buildEnd"])
           ["buildEnd"] ["buildEnd"] [] (Demo.chunks_of (JStr "x"))
           (Foreign 4)); reflexivity.
Defined.

(** ** The handle and the watcher *)

Lemma obj_lookup_delete {V} (k : string) (o : list (string * V)) :
  obj_lookup k (obj_delete k o) = None.
Proof.
  induction o as [|[k' v] o IH]; [done|]. simpl.
  destruct (String.eqb_spec k k') as [->|Hne]; [done|]. simpl.
  by destruct (String.eqb_spec k k').
Qed.

Lemma prop_delete_prop (k : string) (v : JSValue) :
  prop k (delete_prop k v) = JUndefined.
Proof. destruct v; try done. simpl. by rewrite obj_lookup_delete. Qed.

Lemma obj_lookup_delete_ne {V} (k k' : string) (o : list (string * V)) :
  k <> k' -> obj_lookup k (obj_delete k' o) = obj_lookup k o.
Proof.
  intros Hne. induction o as [|[k0 v] o IH]; [done|]. simpl.
  destruct (String.eqb_spec k' k0) as [->|Hne0]; simpl.
  - by destruct (String.eqb_spec k k0).
  - by rewrite IH.
Qed.

(** The steps that keep the module variable [curWatcher]. *)
Local Abbreviation same_watcher :=
  (fun s s' : State _ _ => curWatcher s' = curWatcher s).

Section Watcher.

Context {W CI : Type} (C : Collab W CI).

Lemma getInputOptions_respects (R : State W CI -> State W CI -> Prop)
  (rawInputOptions : JSValue) :
  (forall s, R s s) ->
  (forall s1 s2 s3, R s1 s2 -> R s2 s3 -> R s1 s3) ->
  (forall s w, R s (set_world w s)) ->
  (forall code message s, R s (add_log (EvWarn code message) s)) ->
  respects R (getInputOptions C rawInputOptions).
Proof.
  intros R_refl R_trans R_world R_warn.
  unfold getInputOptions. apply respects_bind; [done..| |].
  - unfold mergeInputOptions. apply respects_bind; [done..| |].
    + apply respects_when; [done|]. by apply respects_throw.
    + intros _. apply respects_bind; [done..| |].
      * destruct (optionError _); [|by apply respects_ret].
        apply respects_when; [done|].
        apply respects_bind; [done..| |].
        -- apply respects_emit. intros ?. apply R_warn.
        -- intros _. by apply respects_call.
      * intros _. by apply reduce_plugins_respects.
  - intros io. apply respects_bind; [done..| |].
    + intros s0 r s' H.
      pose proof (checkInputOptions_state (fst io) s0) as Hs.
      rewrite H in Hs. simpl in Hs. subst s'. apply R_refl.
    + intros _. by apply respects_ret.
Qed.

Lemma getInputOptions_same_watcher (rawInputOptions : JSValue) :
  respects same_watcher (getInputOptions C rawInputOptions).
Proof. apply getInputOptions_respects; try done. intros; congruence. Qed.

Lemma buildChain_same_watcher (inputOptions : JSValue) :
  respects same_watcher (buildChain C inputOptions).
Proof.
  assert (Ht : forall s1 s2 s3 : State W CI,
             curWatcher s2 = curWatcher s1 -> curWatcher s3 = curWatcher s2 ->
             curWatcher s3 = curWatcher s1) by (intros; congruence).
  assert (Hh : forall hook args, respects same_watcher
                                   (hookParallel C hook args)).
  { intros hook args. unfold hookParallel.
    apply respects_bind; [done..| |intros _; by apply respects_call].
    by apply respects_emit. }
  unfold buildChain. apply respects_then2; [done| | |].
  - apply respects_bind; [done..|apply Hh|]. intros _.
    apply respects_bind; [done..|by apply respects_emit|]. intros _.
    by apply respects_call.
  - intros cs. apply respects_bind; [done..|apply Hh|]. intros _.
    by apply respects_ret.
  - intros e. apply respects_bind; [done..|apply Hh|]. intros _.
    by apply respects_throw.
Qed.

End Watcher.

(** X14.  The handle [rollup] resolves to has the input options that
    the synchronous part left, without [cache]; it offers [getTimings]
    exactly when [perf] is [true]; the build it stands for has not been
    optimized, and the watcher of the module is cleared.  When the caller
    passed [cache: false] the handle has no cache, unless the plugins
    left the caller's own object as the input options: the [cache] is
    then deleted from that object before the handle is made, and the
    cache of the handle is the one the graph gives. *)
Theorem resolved_handle {W CI} (C : Collab W CI)
  (rawInputOptions : JSValue) (s s' : State W CI) (build : RollupBuild) :
  rollup C rawInputOptions s = (Returns (Ok build), s') ->
  exists (callers : bool) (s1 : State W CI),
    rollupSync C rawInputOptions s
    = (Ok (build_inputOptions build, callers), s1)
    /\ prop "cache" (build_inputOptions build) = JUndefined
    /\ getTimings build = is_true (prop "perf" (build_inputOptions build))
    /\ (callers = false ->
        is_false (prop "cache" rawInputOptions) = true ->
        cache build = JUndefined)
    /\ (callers = true ->
        exists w w', c_getCache C w = (Ok (cache build), w'))
    /\ optimized s' = false
    /\ curWatcher s' = None.
Proof.
  unfold rollup, try_promise.
  destruct (rollupSync C rawInputOptions s) as [[[io callers]|e] s1]
    eqn:Hsync; [|discriminate].
  assert (Hio : prop "cache" io = JUndefined /\ curWatcher s1 = None).
  { revert Hsync. unfold rollupSync, bind, get, call, modify, ret.
    destruct (getInputOptions C rawInputOptions s) as [[io0|e] s0];
      [|discriminate].
    destruct (c_newGraph C (fst io0) (curWatcher s0) (world s0))
      as [[[]|e] w]; [|discriminate].
    intros [= <- <- <-]. split; [apply prop_delete_prop | done]. }
  destruct Hio as [Hcache Hwatcher].
  cbn [fst snd]. unfold bind at 1.
  destruct (buildChain C io s1) as [[cs|e] s2] eqn:Hchain; [|discriminate].
  pose proof (buildChain_same_watcher C io _ _ _ Hchain) as Hw2.
  simpl in Hw2.
  unfold makeHandle, bind, modify, get, ret, call.
  destruct callers.
  - rewrite Hcache. change (is_false JUndefined) with false. cbv beta iota.
    unfold set_optimized, set_chunks. cbn [world].
    destruct (c_getCache C (world s2)) as [[c|e] w] eqn:Hget; [|discriminate].
    intros [= <- <-]. exists true, s1. simpl.
    repeat split; try done; try congruence. intros _. by exists (world s2), w.
  - destruct (is_false (prop "cache" rawInputOptions)).
    + intros [= <- <-]. exists false, s1. simpl.
      repeat split; try done; congruence.
    + unfold set_optimized at 1. unfold set_chunks at 1. cbn [world].
      destruct (c_getCache C (world s2)) as [[c|e] w]; [|discriminate].
      intros [= <- <-]. exists false, s1. simpl.
      repeat split; try done; congruence.
Qed.

Lemma resolved_handle_witness :
  exists build s',
    rollup Demo.collab
      (JObj [("input", JStr "x"); ("cache", JBool false);
             ("perf", JBool true)])
      (mkState [] [] (Some 1) [] true) = (Returns (Ok build), s')
    /\ prop "cache" (build_inputOptions build) = JUndefined
    /\ getTimings build = true
    /\ cache build = JUndefined
    /\ optimized s' = false
    /\ curWatcher s' = None.
Proof.
  do 2 eexists. split; [reflexivity|].
  destruct (resolved_handle Demo.collab
              (JObj [("input", JStr "x"); ("cache", JBool false);
                     ("perf", JBool true)])
              (mkState [] [] (Some 1) [] true) _ _ eq_refl)
    as (callers & s1 & Hsync & H1 & H2 & H3 & _ & H4 & H5).
  assert (Hc : callers = false) by (vm_compute in Hsync; congruence).
  exact (conj H1 (conj H2 (conj (H3 Hc eq_refl) (conj H4 H5)))).
Defined.

(** The same options with a plugin whose [options] hook returns the
    caller's object: [cache: false] is deleted with the [cache] of the
    input options, and the handle has the cache of the graph. *)
Example callers_object_loses_its_cache :
  let raw :=
    JObj [("input", JStr "x"); ("cache", JBool false);
          ("plugins", JArr [JObj [("options", JFun 0)]])] in
  exists build s',
    rollup (Demo.collab_with Demo.mergeOptions (raw, true) []) raw
      (Demo.fresh [])
    = (Returns (Ok build), s')
    /\ cache build = JObj [("modules", JArr [])]
    /\ prop "cache" (build_inputOptions build) = JUndefined.
Proof. do 2 eexists. split; [vm_compute; reflexivity|]. by split. Qed.

(** X15.  The watcher that [setWatcher] leaves is handed to the graph of
    the next [rollup] whose options pass normalization, and the variable
    is cleared once that graph is made; if the graph cannot be made the
    watcher stays. *)
Theorem watcher_is_handed_to_the_next_graph {W CI} (C : Collab W CI)
  (watcher : nat) (rawInputOptions inputOptions : JSValue) (callers : bool)
  (s s1 : State W CI) :
  getInputOptions C rawInputOptions (snd (setWatcher watcher s))
  = (Ok (inputOptions, callers), s1) ->
  curWatcher s1 = Some watcher
  /\ rollupSync C rawInputOptions (snd (setWatcher watcher s))
     = (let (r, w) := c_newGraph C inputOptions (Some watcher) (world s1) in
        match r with
        | Ok _ =>
            (Ok (delete_prop "cache" inputOptions, callers),
             set_curWatcher None (set_world w s1))
        | Err e => (Err e, set_world w s1)
        end).
Proof.
  intros Hget.
  assert (Hw : curWatcher s1 = Some watcher).
  { by rewrite (getInputOptions_same_watcher C _ _ _ _ Hget). }
  split; [done|].
  unfold rollupSync, bind. rewrite Hget. unfold get, call, modify, ret.
  cbn [fst snd]. rewrite Hw.
  by destruct (c_newGraph C inputOptions (Some watcher) (world s1))
    as [[[]|e] w].
Qed.

Lemma watcher_is_handed_to_the_next_graph_witness :
  rollupSync Demo.collab (JObj [("input", JStr "x")])
    (snd (setWatcher 5 (Demo.fresh ["Graph"])))
  = (Err (Foreign 3), mkState [] [] (Some 5) [] false).
Proof.
  destruct (watcher_is_handed_to_the_next_graph Demo.collab 5
              (JObj [("input", JStr "x")])
              (JObj [("input", JStr "x"); ("plugins", JArr [])]) false
              (Demo.fresh ["Graph"])
              (mkState ["Graph"] [] (Some 5) [] false) eq_refl) as [_ H].
  rewrite H. reflexivity.
Defined.

(** ** The events of [generate] *)

Section GenerateEvents.

Context {W CI : Type} (C : Collab W CI) (isWrite : bool).
Context (P : Event -> Prop).

Hypothesis P_renderStart : P (EvHookParallel "renderStart" NoArgs).
Hypothesis P_ongenerate : forall out oc,
  P (EvHookParallel "ongenerate" (ArgOnGenerate out oc)).
Hypothesis P_renderError : forall e,
  P (EvHookParallel "renderError" (ArgError e)).
Hypothesis P_generateBundle : forall out bundle,
  P (EvHookSeq "generateBundle" (ArgGenerateBundle out bundle isWrite)).
Hypothesis P_optimize : forall returned, P (EvOptimizeChunks returned).
Hypothesis P_generateId : forall i pattern patternName usedIds,
  P (EvGenerateId i pattern patternName usedIds).

Local Abbreviation R := (extends (W := W) (CI := CI) P).

Let R_refl : forall s, R s s := extends_refl P.
Let R_trans : forall s1 s2 s3, R s1 s2 -> R s2 s3 -> R s1 s3 :=
  extends_trans P.

Lemma R_world : forall (s : State W CI) w, R s (set_world w s).
Proof using Type. intros s w. by apply extends_same_log. Qed.

Lemma R_chunks : forall (s : State W CI) cs, R s (set_chunks cs s).
Proof using Type. intros s cs. by apply extends_same_log. Qed.

(** One rule at the head of a goal [respects R m]. *)
Ltac events_step :=
  lazymatch goal with
  | |- forall _, _ => intro
  | |- respects _ (bind _ _) =>
      apply respects_bind; [exact R_refl | exact R_trans | |]
  | |- respects _ (when _ _) => apply respects_when; [exact R_refl|]
  | |- respects _ (withChunk _ _ _) =>
      apply respects_withChunk; [exact R_refl | exact R_trans |]
  | |- respects _ (forEachChunk _) =>
      apply respects_forEachChunk; [exact R_refl | exact R_trans |]
  | |- respects _ (foldChunks _ _) =>
      apply respects_foldChunks; [exact R_refl | exact R_trans |]
  | |- respects _ (ret _) => apply respects_ret; exact R_refl
  | |- respects _ (throw _) => apply respects_throw; exact R_refl
  | |- respects _ get => apply respects_get; exact R_refl
  | |- respects _ (liftRes _) => apply respects_liftRes; exact R_refl
  | |- respects _ (call _) => apply respects_call; exact R_world
  | |- respects _ (modify (set_chunk _ _)) =>
      apply respects_set_chunk; exact R_chunks
  | |- respects _ (modify (set_chunks _)) =>
      apply respects_modify; intros ?; apply R_chunks
  | |- respects _ (modify (set_optimized _)) =>
      apply respects_modify; intros ?; by apply extends_same_log
  | |- respects _ (mutChunk _ _) =>
      apply respects_mutChunk;
      [exact R_refl | exact R_trans | exact R_world | exact R_chunks]
  | |- respects _ (emit _) =>
      apply respects_emit; intros ?; apply extends_add_log; auto
  | |- respects _ (hookParallel _ _ _) => unfold hookParallel
  end.

Lemma generateSync_events inputOptions raw :
  respects R (generateSync C inputOptions raw).
Proof using Type.
  apply generateSync_respects;
    [exact R_refl | exact R_trans | exact R_world].
Qed.

Lemma optimizeStep_events inputOptions outputOptions inputBase :
  respects R (optimizeStep C inputOptions outputOptions inputBase).
Proof using P_optimize.
  unfold optimizeStep. events_step; [events_step|]. intros s.
  events_step.
  apply respects_then2; [exact R_trans|events_step|..];
    repeat events_step.
Qed.

Lemma nameChunk_events inputOptions outputOptions inputBase addons i used :
  respects R (nameChunk C inputOptions outputOptions inputBase addons i used).
Proof using P_generateId.
  unfold nameChunk. events_step. intros c.
  destruct (truthy (prop "file" outputOptions)); [repeat events_step|].
  destruct (truthy (prop "preserveModules" inputOptions));
    [repeat events_step|].
  destruct (namingPattern outputOptions c). repeat events_step.
Qed.

Lemma renderChunk_events outputOptions addons i bundle :
  respects R (renderChunk C outputOptions addons i bundle).
Proof using P_ongenerate.
  unfold renderChunk. events_step. intros c.
  destruct (obj_lookup (id c) bundle) as [[oc|a]|]; [|events_step..].
  repeat events_step.
Qed.

Lemma generateGuarded_events inputOptions outputOptions inputBase bundle :
  respects R (generateGuarded C inputOptions outputOptions inputBase bundle).
Proof using P_renderStart P_ongenerate P_optimize P_generateId.
  unfold generateGuarded.
  events_step; [repeat events_step|]. intros _.
  events_step; [events_step|]. intros addons. unfold renderStep.
  events_step. { unfold preRenderExports. repeat events_step. }
  intros _. events_step. { repeat events_step. }
  intros _. events_step. { apply optimizeStep_events. }
  intros _. events_step.
  { unfold nameChunks. events_step. intros i used.
    apply nameChunk_events. }
  intros _. events_step. { unfold assignChunk. repeat events_step. }
  intros bundle1. events_step; [events_step|]. intros s.
  apply respects_renderAll; [exact R_refl | exact R_trans |]. intros i b.
  apply renderChunk_events.
Qed.

Lemma generateBundleStep_events outputOptions assetFileNames bundle :
  respects R
    (generateBundleStep C outputOptions assetFileNames isWrite bundle).
Proof using P_generateBundle.
  unfold generateBundleStep.
  events_step; [events_step|]. intros s.
  events_step; [events_step|]. intros _.
  events_step; [events_step|]. intros r.
  apply finaliseRemaining_respects;
    [exact R_refl | exact R_trans | exact R_world].
Qed.

Lemma generate_events inputOptions raw :
  respects_calls R (generate C inputOptions raw isWrite).
Proof using P_renderStart P_ongenerate P_renderError P_generateBundle
  P_optimize P_generateId.
  intros s r s'. unfold generate, promise.
  destruct (generateSync C inputOptions raw s) as [[x|e] s1] eqn:E1.
  - destruct (generateChain C inputOptions isWrite x s1) as [r2 s2] eqn:E2.
    intros [= <- <-]. eapply R_trans; [by eapply generateSync_events|].
    revert E2. destruct x as [[[out afn] bundle] base]. unfold generateChain.
    apply respects_bind; [exact R_refl | exact R_trans | |].
    + apply respects_catch;
        [exact R_refl | exact R_trans | apply generateGuarded_events|].
      intros e. repeat events_step.
    + intros b. apply generateBundleStep_events.
  - intros [= <- <-]. by eapply generateSync_events.
Qed.

End GenerateEvents.

Section WriteEvents.

Context {W CI : Type} (C : Collab W CI) (P : Event -> Prop).

Hypothesis P_writeFile : forall path content, P (EvWriteFile path content).
Hypothesis P_onwrite : forall out file,
  isAsset file = false -> P (EvHookSeq "onwrite" (ArgOnWrite out file)).

Local Abbreviation R := (extends (W := W) (CI := CI) P).

Lemma writeFile_events path content : respects R (writeFile C path content).
Proof using P_writeFile.
  unfold writeFile.
  apply respects_bind; [apply extends_refl | apply extends_trans | |].
  - apply respects_emit. intros s. by apply extends_add_log.
  - intros _. apply respects_call. intros s w. by apply extends_same_log.
Qed.

Lemma write_bind {A B} (m : M (State W CI) A) (k : A -> M (State W CI) B) :
  respects R m -> (forall a, respects R (k a)) -> respects R (bind m k).
Proof.
  intros. apply respects_bind;
    [apply extends_refl | apply extends_trans | done..].
Qed.

Lemma startWrites_events file outputOptions :
  respects R (startWrites C file outputOptions).
Proof using P_writeFile.
  assert (Hr : forall A (a : A), respects R (ret a)).
  { intros. apply respects_ret, extends_refl. }
  assert (Hl : forall A (r : Res A), respects R (liftRes r)).
  { intros. apply respects_liftRes, extends_refl. }
  unfold startWrites. apply write_bind.
  { destruct (truthy (prop "dir" outputOptions)); [apply Hr|].
    apply write_bind; [apply Hl|]. intros d. apply Hr. }
  intros base. apply write_bind; [apply Hl|]. intros filename.
  apply write_bind.
  { destruct file as [c|a]; [|apply Hr].
    destruct (oc_map c) as [map|]; [|apply Hr].
    destruct (truthy (prop "sourcemap" outputOptions)); [|apply Hr].
    apply write_bind; [|intros y; apply Hr].
    destruct (str_eq (prop "sourcemap" outputOptions) "inline"); [apply Hr|].
    apply write_bind; [apply Hl|]. intros b.
    apply write_bind; [|intros w; apply Hr].
    apply respects_started, writeFile_events. }
  intros x. apply write_bind; [|intros w; apply Hr].
  apply respects_started, writeFile_events.
Qed.

Lemma afterWrites_events build file outputOptions pending :
  respects R (afterWrites C build file outputOptions pending).
Proof using P_onwrite.
  unfold afterWrites.
  apply write_bind; [apply respects_liftRes, extends_refl|]. intros _.
  apply write_bind; [apply respects_liftRes, extends_refl|]. intros _.
  destruct (isAsset file) eqn:Hasset; [apply respects_ret, extends_refl|].
  simpl. unfold hookSeq. apply write_bind.
  - apply respects_emit. intros s. by apply extends_add_log, P_onwrite.
  - intros _. apply respects_call. intros s w. by apply extends_same_log.
Qed.

Lemma writeOutputFile_events build file outputOptions :
  respects R (writeOutputFile C build file outputOptions).
Proof using P_writeFile P_onwrite.
  unfold writeOutputFile. apply write_bind; [apply startWrites_events|].
  intros pending. apply afterWrites_events.
Qed.

Lemma startAll_events files outputOptions :
  respects R (startAll C files outputOptions).
Proof using P_writeFile.
  induction files as [|file files IH]; simpl.
  - apply respects_ret, extends_refl.
  - apply write_bind; [apply startWrites_events|]. intros pending.
    apply write_bind; [apply IH|]. intros others.
    apply respects_ret, extends_refl.
Qed.

Lemma writeBundle_events build outputOptions bundle :
  respects R (writeBundle C build outputOptions bundle).
Proof using P_writeFile P_onwrite.
  unfold writeBundle. apply write_bind.
  { apply respects_when; [apply extends_refl|]. apply write_bind.
    - apply respects_when; [apply extends_refl|].
      apply respects_invalid_option, extends_refl.
    - intros _. apply respects_when; [apply extends_refl|].
      apply respects_invalid_option, extends_refl. }
  intros _. apply write_bind; [apply startAll_events|]. intros pending.
  apply write_bind.
  - apply respects_promise_all; [apply extends_refl | apply extends_trans |].
    apply List.Forall_forall. intros m Hm.
    apply List.in_map_iff in Hm as (x & <- & _).
    apply afterWrites_events.
  - intros _. apply respects_ret, extends_refl.
Qed.

End WriteEvents.

(** X16.  A call of [generate] on the handle adds to the record only
    dispatches of [renderStart], [ongenerate], [renderError] and
    [generateBundle] and calls of the optimizer and of the id generator:
    it writes no file and dispatches neither [onwrite] nor a hook of the
    build. *)
Theorem generate_adds_only_its_events {W CI} (C : Collab W CI)
  (build : RollupBuild) (rawOutputOptions : JSValue) (s : State W CI) :
  exists l,
    log (snd (handle_generate C build rawOutputOptions s)) = log s ++ l
    /\ Forall (fun e => is_generate_event e = true) l.
Proof.
  assert (Hs : snd (handle_generate C build rawOutputOptions s)
               = snd (generate C (build_inputOptions build) rawOutputOptions
                        false s)).
  { unfold handle_generate, call_then.
    by destruct (generate _ _ _ _ s) as [[e|[b|e]] s1]. }
  rewrite Hs.
  eapply (generate_events C false (fun e => is_generate_event e = true));
    [done..|apply surjective_pairing].
Qed.

(** X17.  Every dispatch of [generateBundle] carries the [isWrite] of the
    call: [false] in a call of [generate] on the handle, [true] in a call
    of [write]. *)
Theorem generateBundle_is_told_isWrite {W CI} (C : Collab W CI)
  (build : RollupBuild) (rawOutputOptions : JSValue) (s : State W CI) :
  (exists l,
     log (snd (handle_generate C build rawOutputOptions s)) = log s ++ l
     /\ Forall (fun e => carries_isWrite false e = true) l)
  /\ (exists l,
        log (snd (handle_write C build rawOutputOptions s)) = log s ++ l
        /\ Forall (fun e => carries_isWrite true e = true) l).
Proof.
  split.
  - assert (Hs : snd (handle_generate C build rawOutputOptions s)
                 = snd (generate C (build_inputOptions build)
                          rawOutputOptions false s)).
    { unfold handle_generate, call_then.
      by destruct (generate _ _ _ _ s) as [[e|[b|e]] s1]. }
    rewrite Hs.
    eapply (generate_events C false
              (fun e => carries_isWrite false e = true));
      [done..|apply surjective_pairing].
  - unfold handle_write.
    destruct (negb (truthy rawOutputOptions) || _);
      [exists []; by rewrite app_nil_r|].
    unfold call_then.
    destruct (generate C (build_inputOptions build) rawOutputOptions true s)
      as [[e|[b|e]] s1] eqn:Hgen;
      pose proof (generate_events C true
                    (fun e => carries_isWrite true e = true)
                    eq_refl (fun _ _ => eq_refl) (fun _ => eq_refl)
                    (fun _ _ => eq_refl) (fun _ => eq_refl)
                    (fun _ _ _ _ => eq_refl) _ _ _ _ _ Hgen) as Hg;
      try exact Hg.
    destruct (writeBundle C build rawOutputOptions b s1) as [r s2] eqn:Hw.
    simpl. eapply extends_trans; [exact Hg|].
    eapply (writeBundle_events C (fun e => carries_isWrite true e = true));
      [done..|exact Hw].
Qed.

(** X18.  A call of [write] adds to the record, beyond the events of
    [generate], only writes of files and dispatches of [onwrite], and
    [onwrite] is dispatched for chunks only, never for an asset. *)
Theorem write_adds_only_its_events {W CI} (C : Collab W CI)
  (build : RollupBuild) (rawOutputOptions : JSValue) (s : State W CI) :
  exists l,
    log (snd (handle_write C build rawOutputOptions s)) = log s ++ l
    /\ Forall (fun e => is_generate_event e || is_write_event e = true) l.
Proof.
  unfold handle_write.
  destruct (negb (truthy rawOutputOptions) || _);
    [exists []; by rewrite app_nil_r|].
  unfold call_then.
  destruct (generate C (build_inputOptions build) rawOutputOptions true s)
    as [[e|[b|e]] s1] eqn:Hgen;
    pose proof (generate_events C true
                  (fun e => is_generate_event e || is_write_event e = true)
                  eq_refl (fun _ _ => eq_refl) (fun _ => eq_refl)
                  (fun _ _ => eq_refl) (fun _ => eq_refl)
                  (fun _ _ _ _ => eq_refl) _ _ _ _ _ Hgen) as Hg;
    try exact Hg.
  destruct (writeBundle C build rawOutputOptions b s1) as [r s2] eqn:Hw.
  simpl. eapply extends_trans; [exact Hg|].
  eapply (writeBundle_events C
            (fun e => is_generate_event e || is_write_event e = true));
    [done| |exact Hw].
  intros out file Hasset. simpl. by rewrite Hasset.
Qed.

(** ** The optimizer, when it is not asked for *)

Section GenerateRulesFor.

Context {W CI : Type} (C : Collab W CI) (inputOptions : JSValue).
Context (R : State W CI -> State W CI -> Prop).

Hypothesis R_refl : forall s, R s s.
Hypothesis R_trans : forall s1 s2 s3, R s1 s2 -> R s2 s3 -> R s1 s3.
Hypothesis R_world : forall s w, R s (set_world w s).
Hypothesis R_chunks : forall s cs, R s (set_chunks cs s).
Hypothesis R_emit : forall e s, is_optimize e = false -> R s (add_log e s).

(** The optimization step of these input options respects [R]. *)
Hypothesis R_optimize : forall outputOptions inputBase,
  respects R (optimizeStep C inputOptions outputOptions inputBase).

Lemma generate_respects_for raw isWrite :
  respects_calls R (generate C inputOptions raw isWrite).
Proof using R_refl R_trans R_world R_chunks R_emit R_optimize.
  assert (Hb : forall A B (m : M (State W CI) A) (k : A -> M (State W CI) B),
             respects R m -> (forall a, respects R (k a)) ->
             respects R (bind m k)).
  { intros. by apply respects_bind. }
  assert (He : forall e s, is_optimize e = false ->
                 is_hook "renderError" e = false -> R s (add_log e s)).
  { intros e s He _. by apply R_emit. }
  assert (Hh : forall hook args, respects R (hookParallel C hook args)).
  { intros hook args. unfold hookParallel. apply Hb.
    - apply respects_emit. intros s. by apply R_emit.
    - intros _. by apply respects_call. }
  intros s r s'. unfold generate, promise.
  destruct (generateSync C inputOptions raw s) as [[x|e] s1] eqn:E1;
    [|intros [= <- <-]; by eapply generateSync_respects].
  destruct (generateChain C inputOptions isWrite x s1) as [r2 s2] eqn:E2.
  intros [= <- <-]. eapply R_trans; [by eapply generateSync_respects|].
  revert E2. destruct x as [[[out afn] bundle] base]. unfold generateChain.
  apply Hb; [|intros b; by apply generateBundleStep_respects].
  apply respects_catch; [done..| |].
  - unfold generateGuarded. apply Hb; [apply Hh|]. intros _.
    apply Hb; [by apply respects_call|]. intros addons. unfold renderStep.
    apply Hb.
    { apply respects_forEachChunk; [done..|]. intros i.
      unfold preRenderExports. apply Hb.
      - apply respects_when; [done|]. by apply respects_mutChunk.
      - intros _. apply respects_withChunk; [done..|]. intros c.
        apply respects_when; [done|].
        apply Hb; [by apply respects_call|]. intros mode.
        by apply respects_set_chunk. }
    intros _. apply Hb.
    { apply respects_forEachChunk; [done..|]. intros i.
      by apply respects_mutChunk. }
    intros _. apply Hb; [apply R_optimize|]. intros _. apply Hb.
    { unfold nameChunks. apply respects_foldChunks; [done..|].
      intros i used. by apply nameChunk_respects. }
    intros _. apply Hb.
    { apply respects_foldChunks; [done..|]. intros i b.
      unfold assignChunk. apply respects_withChunk; [done..|]. intros c.
      apply Hb; [by apply respects_call|]. intros imports.
      apply Hb; [by apply respects_call|]. intros exports.
      by apply respects_ret. }
    intros bundle1. apply Hb; [by apply respects_get|]. intros s0.
    apply respects_renderAll; [done..|]. intros i b.
    by apply renderChunk_respects.
  - intros e. apply Hb; [apply Hh|]. intros _. by apply respects_throw.
Qed.

End GenerateRulesFor.

(** X19.  When the input options do not ask for [optimizeChunks], no
    sequence of calls of [generate] calls the optimizer or changes the
    flag [optimized]. *)
Theorem optimizer_not_called_unless_requested {W CI} (C : Collab W CI)
  (inputOptions : JSValue) (calls : list (JSValue * bool))
  (s : State W CI) :
  truthy (prop "optimizeChunks" inputOptions) = false ->
  optimized (run_generates C inputOptions calls s) = optimized s
  /\ exists l,
       log (run_generates C inputOptions calls s) = log s ++ l
       /\ optimizer_calls l = 0.
Proof.
  intros Hreq.
  pose (R := fun s s' : State W CI =>
          optimized s' = optimized s
          /\ extends (fun e => is_optimize e = false) s s').
  assert (R_refl : forall s, R s s).
  { intros s0. split; [done | apply extends_refl]. }
  assert (R_trans : forall s1 s2 s3, R s1 s2 -> R s2 s3 -> R s1 s3).
  { intros s1 s2 s3 [Ho1 He1] [Ho2 He2]. split; [congruence|].
    by eapply extends_trans. }
  assert (Hgen : forall raw isWrite,
             respects_calls R (generate C inputOptions raw isWrite)).
  { intros raw isWrite. apply generate_respects_for; try done.
    - intros s0 w. split; [done | by apply extends_same_log].
    - intros s0 cs. split; [done | by apply extends_same_log].
    - intros e s0 He. split; [done | by apply extends_add_log].
    - intros out base s0 r s'. unfold optimizeStep, bind, get, when.
      rewrite Hreq, andb_false_r. intros [= <- <-]. apply R_refl. }
  assert (Hrun : R s (run_generates C inputOptions calls s)).
  { revert s. induction calls as [|[raw isWrite] calls IH]; intros s0; simpl.
    - apply R_refl.
    - eapply R_trans; [|apply IH]. eapply Hgen. apply surjective_pairing. }
  destruct Hrun as [Ho (l & Hl & HP)]. split; [done|].
  exists l. split; [done|]. unfold optimizer_calls.
  clear -HP. induction HP as [|e l He _ IH]; [done|]. simpl. by rewrite He.
Qed.

Lemma optimizer_not_called_unless_requested_witness :
  optimized
    (run_generates Demo.collab (JObj [("input", JStr "x")])
       [(JObj [("format", JStr "es")], false);
        (JObj [("format", JStr "es")], true)]
       (Demo.built (JStr "x") [])) = false.
Proof.
  by destruct (optimizer_not_called_unless_requested Demo.collab
                 (JObj [("input", JStr "x")])
                 [(JObj [("format", JStr "es")], false);
                  (JObj [("format", JStr "es")], true)]
                 (Demo.built (JStr "x") []) eq_refl) as [-> _].
Defined.

(** ** Naming for a single file *)

Lemma spec_naming_file {W CI} (C : Collab W CI)
  (inputOptions outputOptions : JSValue) (inputBase : string)
  (addons : JSValue) (b : string) (cs : list (Chunk CI)) (i : nat)
  (usedIds : gset string) (w : W) :
  truthy (prop "file" outputOptions) = true ->
  c_basename C (prop "file" outputOptions) = Ok b ->
  spec_naming C inputOptions outputOptions inputBase addons i cs usedIds w
  = (Ok usedIds, map (set_id b) cs, w, []).
Proof.
  intros Hfile Hbase. revert i.
  induction cs as [|c cs IH]; intros i; [done|]. simpl.
  unfold spec_name_one. rewrite Hfile, Hbase. by rewrite IH.
Qed.

(** X20.  When the output has a [file], the naming gives every chunk the
    id [basename(file)], takes no id into [usedIds], and calls no
    generator: the world and the record stay as they are. *)
Theorem single_file_names_every_chunk {W CI} (C : Collab W CI)
  (inputOptions outputOptions : JSValue) (inputBase : string)
  (addons : JSValue) (b : string) (s : State W CI) :
  truthy (prop "file" outputOptions) = true ->
  c_basename C (prop "file" outputOptions) = Ok b ->
  nameChunks C inputOptions outputOptions inputBase addons s
  = (Ok ∅, set_chunks (map (set_id b) (chunks s)) s).
Proof.
  intros Hfile Hbase. unfold nameChunks, foldChunks, bind, get.
  rewrite (foldRange_nameChunk_spec C _ _ _ _ (chunks s) [] ∅ s eq_refl).
  rewrite (spec_naming_file C _ _ _ _ b) by done.
  destruct s. unfold set_chunks. simpl. by rewrite app_nil_r.
Qed.

Lemma single_file_names_every_chunk_witness :
  map id
    (chunks
       (snd (nameChunks Demo.collab (JObj [])
               (JObj [("file", JStr "bundle.js")]) "" JUndefined
               (Demo.built (JArr [JStr "x"; JStr "y"]) []))))
  = ["bundle.js"; "bundle.js"].
Proof.
  rewrite (single_file_names_every_chunk Demo.collab _ _ _ _ "bundle.js");
    reflexivity.
Defined.

(** ** The chunks [write] counts *)

Lemma countChunks_min (files : list OutputFile) (chunkCnt : nat) :
  chunkCnt <= 1 ->
  countChunks files chunkCnt
  = Nat.min 2
      (chunkCnt + length (List.filter (fun f => negb (isAsset f)) files)).
Proof.
  revert chunkCnt. induction files as [|f files IH]; intros c Hc.
  - destruct c as [|[|c]]; [reflexivity..|lia].
  - cbn [countChunks List.filter]. destruct (isAsset f); cbn [negb].
    + by apply IH.
    + destruct c as [|[|c]]; [|reflexivity|lia].
      cbn [Nat.ltb Nat.leb]. rewrite IH by lia. cbn [length].
      by rewrite Nat.add_succ_r.
Qed.

(** X21.  The loop of [write] that counts the chunks of the bundle and
    leaves at the second one counts them up to two: its result is the
    number of files that are no assets, or [2] if there are more. *)
Theorem countChunks_counts_up_to_two (files : list OutputFile) :
  countChunks files 0
  = Nat.min 2 (length (List.filter (fun f => negb (isAsset f)) files)).
Proof. rewrite countChunks_min by lia. reflexivity. Qed.

(** ** The output list *)

Lemma sort_insert_Permutation {A} (cmp : A -> A -> Z) (x : A) (l : list A) :
  Permutation (sort_insert cmp x l) (x :: l).
Proof.
  induction l as [|y l IH]; simpl; [done|].
  destruct (cmp x y <=? 0)%Z; [done|].
  rewrite IH. apply Permutation_swap.
Qed.

Lemma array_sort_Permutation {A} (cmp : A -> A -> Z) (l : list A) :
  Permutation (array_sort cmp l) l.
Proof.
  induction l as [|x l IH]; [done|].
  change (array_sort cmp (x :: l))
    with (sort_insert cmp x (array_sort cmp l)).
  by rewrite sort_insert_Permutation, IH.
Qed.

Lemma of_type_of_type (t t' : SortingFileType) (fs : list OutputFile) :
  of_type t (of_type t' fs)
  = if (SortingFileType_value t' =? SortingFileType_value t)%Z
    then of_type t' fs else [].
Proof.
  induction fs as [|f fs IH].
  - by destruct (_ =? _)%Z.
  - rewrite (of_type_cons t' f fs).
    destruct (getSortingFileType f) eqn:E, t', t; simpl in *;
      rewrite ?of_type_cons, ?E; simpl; try done; by rewrite IH.
Qed.

Lemma of_type_app (t : SortingFileType) (l1 l2 : list OutputFile) :
  of_type t (l1 ++ l2) = of_type t l1 ++ of_type t l2.
Proof. apply List.filter_app. Qed.

(** X22.  [createOutput] returns every file of the bundle, each once, and
    applied to a bundle already in its order it changes nothing: the
    sorted list sorted again is the same list. *)
Theorem createOutput_permutes_and_is_idempotent (outputBundle : OutputBundle) :
  Permutation (output (createOutput outputBundle)) (bundle_files outputBundle)
  /\ array_sort compareFiles (output (createOutput outputBundle))
     = output (createOutput outputBundle).
Proof.
  split; [apply array_sort_Permutation|].
  unfold createOutput. simpl.
  rewrite (array_sort_by_kind (bundle_files outputBundle)).
  rewrite array_sort_by_kind.
  rewrite !of_type_app, !of_type_of_type. simpl.
  by rewrite !app_nil_r.
Qed.

(** ** Writing a file of the bundle *)

(** X23.  An asset is written as one file, its source under
    [resolve(dir, fileName)]; no source map is written and no [onwrite]
    is dispatched, and the outcome is that of the write. *)
Theorem writeOutputFile_asset {W CI} (C : Collab W CI) (build : RollupBuild)
  (asset : OutputAsset) (outputOptions : JSValue) (filename : string)
  (s : State W CI) :
  truthy (prop "dir" outputOptions) = true ->
  c_resolve C (prop "dir" outputOptions) (oa_fileName asset) = Ok filename ->
  writeOutputFile C build (FileAsset asset) outputOptions s
  = (fst (c_writeFile C filename (oa_source asset) (world s)),
     mkState (snd (c_writeFile C filename (oa_source asset) (world s)))
       (log s ++ [EvWriteFile filename (oa_source asset)])
       (curWatcher s) (chunks s) (optimized s)).
Proof.
  intros Hdir Hres.
  unfold writeOutputFile, startWrites, afterWrites, bind, liftRes, ret,
    started, writeFile, bind, emit, modify, call, when.
  rewrite Hdir. simpl. rewrite Hres. simpl.
  unfold add_log at 1. cbn [world].
  by destruct (c_writeFile C filename (oa_source asset) (world s))
    as [[[]|e] w].
Qed.

Lemma writeOutputFile_asset_witness :
  writeOutputFile Demo.collab (Demo.handle (JObj []))
    (FileAsset (mkOutputAsset "logo.svg" "<svg/>"))
    (JObj [("dir", JStr "out")]) (Demo.fresh [])
  = (Ok tt,
     mkState [] [EvWriteFile "out/logo.svg" "<svg/>"] None [] false).
Proof.
  exact (writeOutputFile_asset Demo.collab (Demo.handle (JObj []))
           (mkOutputAsset "logo.svg" "<svg/>") (JObj [("dir", JStr "out")])
           "out/logo.svg" (Demo.fresh []) eq_refl eq_refl).
Defined.

(** X24.  A chunk with a source map, under a [sourcemap] option that is
    set and is not [inline], is written as two files: first the map,
    under the name of the file with [.map], then the code followed by
    the comment that names [basename(fileName).map]; [onwrite] is
    dispatched after both writes have succeeded. *)
Theorem writeOutputFile_external_sourcemap {W CI} (C : Collab W CI)
  (build : RollupBuild) (chunk : OutputChunk) (map : SourceMap)
  (code : string) (outputOptions : JSValue) (filename base : string)
  (s : State W CI) (w1 w2 : W) :
  let comment :=
    ("//# " ++ SOURCEMAPPING_URL ++ "=" ++ (base ++ ".map") ++ newline)%string
  in
  truthy (prop "dir" outputOptions) = true ->
  c_resolve C (prop "dir" outputOptions) (oc_fileName chunk) = Ok filename ->
  oc_map chunk = Some map ->
  oc_code chunk = Some code ->
  truthy (prop "sourcemap" outputOptions) = true ->
  str_eq (prop "sourcemap" outputOptions) "inline" = false ->
  c_basename C (JStr (oc_fileName chunk)) = Ok base ->
  c_writeFile C (filename ++ ".map") (map_toString map) (world s)
  = (Ok tt, w1) ->
  c_writeFile C filename (code ++ comment) w1 = (Ok tt, w2) ->
  writeOutputFile C build (FileChunk chunk) outputOptions s
  = (fst (c_hookSeq C "onwrite" (ArgOnWrite outputOptions (FileChunk chunk))
            w2),
     mkState
       (snd (c_hookSeq C "onwrite"
               (ArgOnWrite outputOptions (FileChunk chunk)) w2))
       (log s
        ++ [EvWriteFile (filename ++ ".map") (map_toString map);
            EvWriteFile filename (code ++ comment);
            EvHookSeq "onwrite" (ArgOnWrite outputOptions (FileChunk chunk))])
       (curWatcher s) (chunks s) (optimized s)).
Proof.
  intros comment Hdir Hres Hmap Hcode Hsm Hinline Hbase Hw1 Hw2.
  unfold writeOutputFile, startWrites, afterWrites, bind, liftRes, ret,
    started, writeFile, bind, emit, modify, call, when, hookSeq, bind, emit,
    modify, call, append_source.
  rewrite Hdir. simpl. rewrite Hres, Hmap, Hsm, Hinline, Hbase, Hcode. simpl.
  unfold set_world, add_log. cbn. rewrite Hw1. cbn.
  change ("//# " +:+ SOURCEMAPPING_URL +:+ "=" +:+ (base +:+ ".map")
          +:+ newline) with comment.
  rewrite Hw2. cbn.
  by destruct (c_hookSeq C "onwrite" _ w2) as [[[]|e] w]; cbn;
    rewrite <- ?app_assoc.
Qed.

Lemma writeOutputFile_external_sourcemap_witness :
  writeOutputFile Demo.collab (Demo.handle (JObj []))
    (FileChunk
       (mkOutputChunk "main.js" true [] [] (JObj []) (Some "code;")
          (Some (mkSourceMap "data:," "{}"))))
    (JObj [("dir", JStr "out"); ("sourcemap", JBool true)]) (Demo.fresh [])
  = (Ok tt,
     mkState []
       [EvWriteFile "out/main.js.map" "{}";
        EvWriteFile "out/main.js"
          ("code;//# sourceMappingURL=main.js.map" ++ newline);
        EvHookSeq "onwrite"
          (ArgOnWrite (JObj [("dir", JStr "out"); ("sourcemap", JBool true)])
             (FileChunk
                (mkOutputChunk "main.js" true [] [] (JObj []) (Some "code;")
                   (Some (mkSourceMap "data:," "{}")))))]
       None [] false).
Proof.
  exact (writeOutputFile_external_sourcemap Demo.collab
           (Demo.handle (JObj []))
           (mkOutputChunk "main.js" true [] [] (JObj []) (Some "code;")
              (Some (mkSourceMap "data:," "{}")))
           (mkSourceMap "data:," "{}") "code;"
           (JObj [("dir", JStr "out"); ("sourcemap", JBool true)])
           "out/main.js" "main.js" (Demo.fresh []) [] []
           eq_refl eq_refl eq_refl eq_refl eq_refl eq_refl eq_refl eq_refl
           eq_refl).
Defined.

(** X25.  Under [sourcemap: 'inline'] a chunk with a source map is
    written as one file: the code followed by the comment that holds
    [map.toUrl()]; no [.map] file is written, and [onwrite] follows the
    write. *)
Theorem writeOutputFile_inline_sourcemap {W CI} (C : Collab W CI)
  (build : RollupBuild) (chunk : OutputChunk) (map : SourceMap)
  (code : string) (outputOptions : JSValue) (filename : string)
  (s : State W CI) (w1 : W) :
  let comment :=
    ("//# " ++ SOURCEMAPPING_URL ++ "=" ++ map_toUrl map ++ newline)%string
  in
  truthy (prop "dir" outputOptions) = true ->
  c_resolve C (prop "dir" outputOptions) (oc_fileName chunk) = Ok filename ->
  oc_map chunk = Some map ->
  oc_code chunk = Some code ->
  str_eq (prop "sourcemap" outputOptions) "inline" = true ->
  c_writeFile C filename (code ++ comment) (world s) = (Ok tt, w1) ->
  writeOutputFile C build (FileChunk chunk) outputOptions s
  = (fst (c_hookSeq C "onwrite" (ArgOnWrite outputOptions (FileChunk chunk))
            w1),
     mkState
       (snd (c_hookSeq C "onwrite"
               (ArgOnWrite outputOptions (FileChunk chunk)) w1))
       (log s
        ++ [EvWriteFile filename (code ++ comment);
            EvHookSeq "onwrite" (ArgOnWrite outputOptions (FileChunk chunk))])
       (curWatcher s) (chunks s) (optimized s)).
Proof.
  intros comment Hdir Hres Hmap Hcode Hinline Hw1.
  assert (Hsm : truthy (prop "sourcemap" outputOptions) = true).
  { destruct (prop "sourcemap" outputOptions); try discriminate Hinline.
    simpl in *. apply String.eqb_eq in Hinline. by subst. }
  unfold writeOutputFile, startWrites, afterWrites, bind, liftRes, ret,
    started, writeFile, bind, emit, modify, call, when, hookSeq, bind, emit,
    modify, call, append_source.
  rewrite Hdir. simpl. rewrite Hres, Hmap, Hsm, Hinline, Hcode. simpl.
  unfold set_world, add_log. cbn.
  change ("//# " +:+ SOURCEMAPPING_URL +:+ "=" +:+ map_toUrl map
          +:+ newline) with comment.
  rewrite Hw1. cbn.
  by destruct (c_hookSeq C "onwrite" _ w1) as [[[]|e] w]; cbn;
    rewrite <- ?app_assoc.
Qed.

Lemma writeOutputFile_inline_sourcemap_witness :
  writeOutputFile Demo.collab (Demo.handle (JObj []))
    (FileChunk
       (mkOutputChunk "main.js" true [] [] (JObj []) (Some "code;")
          (Some (mkSourceMap "data:," "{}"))))
    (JObj [("dir", JStr "out"); ("sourcemap", JStr "inline")])
    (Demo.fresh [])
  = (Ok tt,
     mkState []
       [EvWriteFile "out/main.js"
          ("code;//# sourceMappingURL=data:," ++ newline);
        EvHookSeq "onwrite"
          (ArgOnWrite
             (JObj [("dir", JStr "out"); ("sourcemap", JStr "inline")])
             (FileChunk
                (mkOutputChunk "main.js" true [] [] (JObj []) (Some "code;")
                   (Some (mkSourceMap "data:," "{}")))))]
       None [] false).
Proof.
  exact (writeOutputFile_inline_sourcemap Demo.collab
           (Demo.handle (JObj []))
           (mkOutputChunk "main.js" true [] [] (JObj []) (Some "code;")
              (Some (mkSourceMap "data:," "{}")))
           (mkSourceMap "data:," "{}") "code;"
           (JObj [("dir", JStr "out"); ("sourcemap", JStr "inline")])
           "out/main.js" (Demo.fresh []) []
           eq_refl eq_refl eq_refl eq_refl eq_refl eq_refl).
Defined.

(** X26.  The source map and the code are both written before either
    outcome is looked at.  When one of the two writes fails, the promise
    is rejected, with the error of the code if that write failed and
    with the error of the map otherwise, and [onwrite] is not
    dispatched. *)
Theorem writeOutputFile_failed_write_skips_onwrite {W CI} (C : Collab W CI)
  (build : RollupBuild) (chunk : OutputChunk) (map : SourceMap)
  (code : string) (outputOptions : JSValue) (filename base : string)
  (s : State W CI) (r1 r2 : Res unit) (w1 w2 : W) :
  let comment :=
    ("//# " ++ SOURCEMAPPING_URL ++ "=" ++ (base ++ ".map") ++ newline)%string
  in
  truthy (prop "dir" outputOptions) = true ->
  c_resolve C (prop "dir" outputOptions) (oc_fileName chunk) = Ok filename ->
  oc_map chunk = Some map ->
  oc_code chunk = Some code ->
  truthy (prop "sourcemap" outputOptions) = true ->
  str_eq (prop "sourcemap" outputOptions) "inline" = false ->
  c_basename C (JStr (oc_fileName chunk)) = Ok base ->
  c_writeFile C (filename ++ ".map") (map_toString map) (world s)
  = (r1, w1) ->
  c_writeFile C filename (code ++ comment) w1 = (r2, w2) ->
  (r1 = Ok tt -> r2 = Ok tt -> False) ->
  exists e,
    (r2 = Err e \/ (r2 = Ok tt /\ r1 = Err e))
    /\ writeOutputFile C build (FileChunk chunk) outputOptions s
       = (Err e,
          mkState w2
            (log s
             ++ [EvWriteFile (filename ++ ".map") (map_toString map);
                 EvWriteFile filename (code ++ comment)])
            (curWatcher s) (chunks s) (optimized s)).
Proof.
  intros comment Hdir Hres Hmap Hcode Hsm Hinline Hbase Hw1 Hw2 Hfail.
  unfold writeOutputFile, startWrites, afterWrites, bind, liftRes, ret,
    started, writeFile, bind, emit, modify, call, when, hookSeq, bind, emit,
    modify, call, append_source.
  rewrite Hdir. simpl. rewrite Hres, Hmap, Hsm, Hinline, Hbase, Hcode. simpl.
  unfold set_world, add_log. cbn. rewrite Hw1. cbn.
  change ("//# " +:+ SOURCEMAPPING_URL +:+ "=" +:+ (base +:+ ".map")
          +:+ newline) with comment.
  rewrite Hw2. cbn.
  destruct r2 as [[]|e2].
  - destruct r1 as [[]|e1]; [by destruct Hfail|].
    exists e1. split; [by right|]. by rewrite <- app_assoc.
  - exists e2. split; [by left|]. by rewrite <- app_assoc.
Qed.

Lemma writeOutputFile_failed_write_skips_onwrite_witness :
  exists e,
    writeOutputFile Demo.collab (Demo.handle (JObj []))
      (FileChunk
         (mkOutputChunk "main.js" true [] [] (JObj []) (Some "code;")
            (Some (mkSourceMap "data:," "{}"))))
      (JObj [("dir", JStr "out"); ("sourcemap", JBool true)])
      (Demo.fresh ["writeFile"])
    = (Err e,
       mkState []
         [EvWriteFile "out/main.js.map" "{}";
          EvWriteFile "out/main.js"
            ("code;//# sourceMappingURL=main.js.map" ++ newline)]
         None [] false).
Proof.
  destruct (writeOutputFile_failed_write_skips_onwrite Demo.collab
              (Demo.handle (JObj []))
              (mkOutputChunk "main.js" true [] [] (JObj []) (Some "code;")
                 (Some (mkSourceMap "data:," "{}")))
              (mkSourceMap "data:," "{}") "code;"
              (JObj [("dir", JStr "out"); ("sourcemap", JBool true)])
              "out/main.js" "main.js" (Demo.fresh ["writeFile"])
              (Err (Foreign 21)) (Ok tt) [] []
              eq_refl eq_refl eq_refl eq_refl eq_refl eq_refl eq_refl eq_refl
              eq_refl ltac:(discriminate)) as (e & _ & H).
  by exists e.
Defined.

(** ** [write] and the files of the bundle *)

(** X27.  [write] looks at the bundle before it writes: when the bundle
    holds two files or more that are no assets and [sourcemapFile] is
    set or [file] is a string, the promise is rejected with
    [INVALID_OPTION] and nothing is written. *)
Theorem write_checks_the_bundle_before_writing {W CI} (C : Collab W CI)
  (build : RollupBuild) (outputOptions : JSValue) (bundle : OutputBundle)
  (s : State W CI) :
  2 <= length (List.filter (fun f => negb (isAsset f)) (bundle_files bundle)) ->
  truthy (prop "sourcemapFile" outputOptions)
  || is_string (prop "file" outputOptions) = true ->
  exists msg,
    writeBundle C build outputOptions bundle s
    = (Err (RollupError (Some "INVALID_OPTION") msg None), s).
Proof.
  intros Hcount Hopt. unfold writeBundle.
  rewrite countChunks_min by lia. simpl Nat.add.
  rewrite Nat.min_l by done.
  cbv beta iota delta [bind when ret throw error invalid_option Nat.ltb
                         Nat.leb].
  destruct (truthy (prop "sourcemapFile" outputOptions)); [by eexists|].
  simpl in Hopt. rewrite Hopt. by eexists.
Qed.

Lemma write_checks_the_bundle_before_writing_witness :
  exists msg,
    writeBundle Demo.collab (Demo.handle (JObj []))
      (JObj [("file", JStr "out.js")])
      [("a.js", FileChunk (mkOutputChunk "a.js" true [] [] (JObj []) None None));
       ("b.js", FileChunk (mkOutputChunk "b.js" true [] [] (JObj []) None None))]
      (Demo.fresh [])
    = (Err (RollupError (Some "INVALID_OPTION") msg None), Demo.fresh []).
Proof.
  apply (write_checks_the_bundle_before_writing Demo.collab);
    [vm_compute; lia | reflexivity].
Defined.

Lemma startWrites_starts {W CI} (C : Collab W CI) (file : OutputFile)
  (outputOptions : JSValue) (resolved : string -> string) (s : State W CI) :
  truthy (prop "dir" outputOptions) = true ->
  (forall name,
     c_resolve C (prop "dir" outputOptions) name = Ok (resolved name)) ->
  (forall name, exists b, c_basename C (JStr name) = Ok b) ->
  exists pending s1 content,
    startWrites C file outputOptions s = (Ok pending, s1)
    /\ In (EvWriteFile (resolved (file_fileName file)) content) (log s1).
Proof.
  intros Hdir Hres Hbase.
  unfold startWrites, bind, liftRes, ret, started, writeFile, bind, emit,
    modify, call, append_source.
  rewrite Hdir. simpl. rewrite Hres.
  destruct file as [c|a]; simpl;
    [destruct (oc_map c) as [map|];
     [destruct (truthy (prop "sourcemap" outputOptions));
      [destruct (str_eq (prop "sourcemap" outputOptions) "inline"); simpl;
       [|destruct (Hbase (oc_fileName c)) as [b ->]; simpl]|]|]|];
    unfold set_world, add_log; cbn;
    repeat match goal with
      | |- context [c_writeFile C ?a ?b ?c] =>
          destruct (c_writeFile C a b c) as [[[]|?] ?]; cbn
      end;
    do 3 eexists; (split; [reflexivity|]);
    cbn; rewrite ?in_app_iff; cbn; eauto 10.
Qed.

Lemma startAll_starts {W CI} (C : Collab W CI) (outputOptions : JSValue)
  (resolved : string -> string) (files : list OutputFile) (s : State W CI) :
  truthy (prop "dir" outputOptions) = true ->
  (forall name,
     c_resolve C (prop "dir" outputOptions) name = Ok (resolved name)) ->
  (forall name, exists b, c_basename C (JStr name) = Ok b) ->
  exists pending s1,
    startAll C files outputOptions s = (Ok pending, s1)
    /\ forall file, In file files ->
         exists content,
           In (EvWriteFile (resolved (file_fileName file)) content) (log s1).
Proof.
  intros Hdir Hres Hbase. revert s.
  induction files as [|f files IH]; intros s.
  { exists [], s. split; [done|]. by intros file []. }
  destruct (startWrites_starts C f outputOptions resolved s Hdir Hres Hbase)
    as (p & s1 & content & Hstart & Hin).
  destruct (IH s1) as (ps & s2 & Hrest & Hall).
  exists ((f, p) :: ps), s2. split.
  { simpl. unfold bind. by rewrite Hstart, Hrest. }
  assert (Hext : extends (fun _ => True) s1 s2).
  { eapply (startAll_events C (fun _ => True)); [done|exact Hrest]. }
  destruct Hext as (l & Hl & _).
  intros file [<-|Hfile]; [|by apply Hall].
  exists content. rewrite Hl. apply in_app_iff. by left.
Qed.

(** X28.  [write] starts the write of every file of the bundle, whether
    or not the write of another file fails: once the bundle has passed
    the checks of [write], the record holds a write under
    [resolve(dir, fileName)] for each file of the bundle. *)
Theorem write_starts_every_write {W CI} (C : Collab W CI)
  (build : RollupBuild) (outputOptions : JSValue) (bundle : OutputBundle)
  (resolved : string -> string) (file : OutputFile) (s : State W CI) :
  truthy (prop "dir" outputOptions) = true ->
  (forall name,
     c_resolve C (prop "dir" outputOptions) name = Ok (resolved name)) ->
  (forall name, exists b, c_basename C (JStr name) = Ok b) ->
  truthy (prop "sourcemapFile" outputOptions) = false ->
  is_string (prop "file" outputOptions) = false ->
  In file (bundle_files bundle) ->
  exists content,
    In (EvWriteFile (resolved (file_fileName file)) content)
      (log (snd (writeBundle C build outputOptions bundle s))).
Proof.
  intros Hdir Hres Hbase Hsm Hfile Hin.
  destruct (startAll_starts C outputOptions resolved (bundle_files bundle) s
              Hdir Hres Hbase) as (pending & s1 & Hstart & Hall).
  destruct (Hall file Hin) as [content Hc].
  exists content. unfold writeBundle. rewrite Hsm, Hfile.
  unfold bind at 1.
  replace (when _ _ s) with (Ok tt, s) by by destruct (Nat.ltb 1 _).
  unfold bind at 1. rewrite Hstart.
  unfold bind at 1.
  destruct (promise_all _ s1) as [r s2] eqn:Hall2.
  assert (Hext : extends (fun _ => True) s1 s2).
  { eapply (respects_promise_all (extends (fun _ => True)));
      [apply extends_refl | apply extends_trans | | exact Hall2].
    apply List.Forall_forall. intros m Hm.
    apply List.in_map_iff in Hm as (x & <- & _).
    by apply afterWrites_events. }
  destruct Hext as (l & Hl & _).
  assert (Hs2 : In (EvWriteFile (resolved (file_fileName file)) content)
                  (log s2)).
  { rewrite Hl. apply in_app_iff. by left. }
  by destruct r as [[]|e].
Qed.

Lemma write_starts_every_write_witness :
  exists content,
    In (EvWriteFile "out/b.js" content)
      (log (snd (writeBundle Demo.collab (Demo.handle (JObj []))
                   (JObj [("dir", JStr "out")])
                   [("a.js", FileChunk (mkOutputChunk "a.js" true [] []
                                          (JObj []) (Some "a") None));
                    ("b.js", FileChunk (mkOutputChunk "b.js" false [] []
                                          (JObj []) (Some "b") None))]
                   (Demo.fresh ["writeFile"])))).
Proof.
  apply (write_starts_every_write Demo.collab (Demo.handle (JObj []))
           (JObj [("dir", JStr "out")]) _ (fun name => "out/" ++ name)%string
           (FileChunk (mkOutputChunk "b.js" false [] [] (JObj []) (Some "b")
                         None)));
    [reflexivity | reflexivity | by eexists | reflexivity | reflexivity
    | vm_compute; tauto].
Defined.

(** X30.  In the callback of [write] the writes of all files are started
    before the chain of any file goes on: the record gets first the
    writes, and only then the dispatches of [onwrite]. *)
Theorem writes_start_before_any_onwrite {W CI} (C : Collab W CI)
  (build : RollupBuild) (outputOptions : JSValue) (bundle : OutputBundle)
  (s : State W CI) :
  exists writes hooks,
    log (snd (writeBundle C build outputOptions bundle s))
    = log s ++ writes ++ hooks
    /\ Forall (fun e => is_file_write e = true) writes
    /\ Forall (fun e => is_onwrite e = true) hooks.
Proof.
  unfold writeBundle. unfold bind at 1.
  destruct (when _ _ s) as [r0 s0] eqn:Hchecks.
  assert (Hs0 : s0 = s).
  { revert Hchecks.
    cbv beta iota delta [bind when ret throw error invalid_option].
    destruct (Nat.ltb 1 _), (truthy (prop "sourcemapFile" outputOptions)),
      (is_string (prop "file" outputOptions)); congruence. }
  subst s0.
  destruct r0 as [[]|e];
    [|exists [], []; simpl; by rewrite app_nil_r].
  unfold bind at 1.
  destruct (startAll C (bundle_files bundle) outputOptions s)
    as [[pending|e] s1] eqn:Hstart.
  - destruct (startAll_events C (fun e => is_file_write e = true)
                ltac:(done) _ _ _ _ _ Hstart) as (writes & Hw & Hwrites).
    unfold bind at 1.
    destruct (promise_all _ s1) as [r s2] eqn:Hall.
    assert (Hext : extends (fun e => is_onwrite e = true) s1 s2).
    { eapply (respects_promise_all (extends (fun e => is_onwrite e = true)));
        [apply extends_refl | apply extends_trans | | exact Hall].
      apply List.Forall_forall. intros m Hm.
      apply List.in_map_iff in Hm as (x & <- & _).
      apply afterWrites_events. intros out file Hfile. simpl.
      by rewrite Hfile. }
    destruct Hext as (hooks & Hh & Hhooks).
    exists writes, hooks.
    split; [|by split].
    replace (log (snd _)) with (log s2) by by destruct r as [[]|e].
    by rewrite Hh, Hw, <- app_assoc.
  - destruct (startAll_events C (fun e => is_file_write e = true)
                ltac:(done) _ _ _ _ _ Hstart) as (writes & Hw & Hwrites).
    exists writes, []. simpl. rewrite app_nil_r. by split.
Qed.

(** ** The assets left after the [generateBundle] hook *)

(** X29.  After the [generateBundle] hook only the assets without a
    file name are finalised: the assets that have one are passed over,
    and when every asset has one the bundle is returned as it is and
    the state is unchanged. *)
Theorem finaliseRemaining_skips_named {W CI} (C : Collab W CI)
  (assets : list Asset) (assetFileNames : JSValue)
  (outputBundle : OutputBundle) (s : State W CI) :
  finaliseRemaining C assets assetFileNames outputBundle s
  = finaliseRemaining C
      (List.filter
         (fun a => match asset_fileName a with None => true | _ => false end)
         assets)
      assetFileNames outputBundle s
  /\ (Forall (fun a => asset_fileName a <> None) assets ->
      finaliseRemaining C assets assetFileNames outputBundle s
      = (Ok outputBundle, s)).
Proof.
  split.
  - revert outputBundle s.
    induction assets as [|a assets IH]; intros b s; [done|].
    cbn [finaliseRemaining List.filter].
    destruct (asset_fileName a) as [name|] eqn:E.
    + unfold bind at 1, ret. apply IH.
    + cbn [finaliseRemaining]. rewrite E.
      change (bind ?m ?k s) with (let (r, s') := m s in
                                  match r with
                                  | Ok a => k a s'
                                  | Err e => (Err e, s')
                                  end).
      destruct (call _ s) as [[b'|e] s1]; [apply IH | done].
  - induction 1 as [|a assets Ha _ IH]; [done|].
    cbn [finaliseRemaining].
    destruct (asset_fileName a) as [name|]; [|done].
    unfold bind at 1, ret. apply IH.
Qed.
